(** * Capture-output pipeline of the screenshot server (src/src/serve.ts)

    A shallow embedding of the request handlers [take_screenshot] and
    [take_screencast], of the animation assembler [createAnimatedWebP] and of
    the helper [generateFilename], with the properties the specification
    states about them.

    Conventions of the embedding.
    - A JavaScript [number] is a rational ([Q]); array lengths and indices
      are [nat].  The numeric literals of the source ([0.1], [1072], ...)
      are the same literals here.
    - A [Buffer] is a list of bytes, a JavaScript string is a [string].
    - An optional property ([args.width], [endDelay?]) is an [option];
      [undefined] is [None].  Truthiness is written out where the source
      tests it: a string is truthy when it is not empty, a number when it
      is not zero.
    - [async] code is sequential code in a state-and-exception monad over
      the [World] (file system, module cache, log of the effects performed).
      What the surrounding platform decides (the capture engine, the encoder
      process, the clock, the URL parser, the SHA-1 digest) is a field of
      the [Host] record, over which every statement is quantified. *)

From Stdlib Require Import QArith Qminmax Ascii.
From stdpp Require Import gmap strings list pretty.

Open Scope string_scope.
Open Scope list_scope.

(** ** Data *)

Abbreviation Buffer := (list Byte.byte).
Abbreviation number := Q.

(** JavaScript errors, by the place that raises them. *)
Inductive Error : Type :=
| JsError (message : string)          (* [new Error(message)] *)
| TypeErrorInvalidURL (input : string) (* [new URL(input)] on a malformed URL *)
| ENOENT (path : string)              (* no such file or directory *)
| ENOTDIR (path : string)             (* a regular file where a directory is needed *)
| ExternalError (detail : string).    (* raised by the engine or the encoder *)

Inductive outcome (A : Type) : Type :=
| Return (a : A)
| Throw (e : Error).
Arguments Return {A} a.
Arguments Throw {A} e.

(** One entry of [uniqueFrames] in [createAnimatedWebP]. *)
Record UniqueFrame : Type := mkUniqueFrame {
  buf : Buffer;
  duration : number;
  hash : string;
}.

Definition set_duration (d : number) (f : UniqueFrame) : UniqueFrame :=
  {| buf := buf f; duration := d; hash := hash f |}.

(** ** Truthiness *)

Definition truthy_string (s : string) : bool :=
  match s with EmptyString => false | String _ _ => true end.

Definition truthy_opt_string (o : option string) : bool :=
  match o with Some s => truthy_string s | None => false end.

Definition truthy_number (x : number) : bool := negb (Qeq_bool x 0).

(** [a ?? b] *)
Definition nullish {A : Type} (o : option A) (d : A) : A :=
  match o with Some a => a | None => d end.

(** Neighbouring elements of a list differ. *)
Fixpoint adj_distinct {A : Type} (l : list A) : Prop :=
  match l with
  | a :: t => match t with b :: _ => a <> b | [] => True end /\ adj_distinct t
  | [] => True
  end.

(** ** Frame deduplication (the loop of [createAnimatedWebP]) *)

Section Dedup.

(** [createHash('sha1').update(buf).digest('hex')] *)
Variable sha1_hex : Buffer -> string.

(** The body of [for (const buf of frames)]: [lastFrame] is the last entry
    of [uniqueFrames] ([undefined] when there is none); a duplicate extends
    it in place, anything else is pushed. *)
Definition dedup_step (delay : number) (uniqueFrames : list UniqueFrame)
    (b : Buffer) : list UniqueFrame :=
  let h := sha1_hex b in
  match last uniqueFrames with
  | Some lastFrame =>
      if String.eqb h (hash lastFrame)
      then alter (fun f => set_duration (duration f + delay)%Q f)
                 (length uniqueFrames - 1) uniqueFrames
      else uniqueFrames ++ [ {| buf := b; duration := delay; hash := h |} ]
  | None =>
      uniqueFrames ++ [ {| buf := b; duration := delay; hash := h |} ]
  end.

Definition dedup (delay : number) (frames : list Buffer) : list UniqueFrame :=
  fold_left (dedup_step delay) frames [].

(** The loop seen from its last entry [cur]: what the remaining frames
    make of it. *)
Fixpoint dedup_from (delay : number) (cur : UniqueFrame) (frames : list Buffer)
    : list UniqueFrame :=
  match frames with
  | [] => [cur]
  | b :: rest =>
      if String.eqb (sha1_hex b) (hash cur)
      then dedup_from delay (set_duration (duration cur + delay)%Q cur) rest
      else cur :: dedup_from delay
             {| buf := b; duration := delay; hash := sha1_hex b |} rest
  end.

(** [if (endDelay && uniqueFrames.length > 0) uniqueFrames[last].duration = endDelay] *)
Definition applyEndDelay (endDelay : option number)
    (uniqueFrames : list UniqueFrame) : list UniqueFrame :=
  match endDelay with
  | Some e =>
      if truthy_number e && (0 <? length uniqueFrames)%nat
      then alter (set_duration e) (length uniqueFrames - 1) uniqueFrames
      else uniqueFrames
  | None => uniqueFrames
  end.

(** The list of runs the assembler hands to the encoder. *)
Definition uniqueFramesOf (frames : list Buffer) (delay : number)
    (endDelay : option number) : list UniqueFrame :=
  applyEndDelay endDelay (dedup delay frames).

(** *** Runs, as the glossary defines them

    A run is a maximal sequence of consecutive frames with the same
    content hash.  [runs] cuts the frame sequence into its runs; it is
    only used to say how many frames went into an entry of
    [uniqueFrames]. *)
Fixpoint runs_from (first : Buffer) (more : list Buffer)
    (frames : list Buffer) : list (list Buffer) :=
  match frames with
  | [] => [first :: more]
  | b :: rest =>
      if String.eqb (sha1_hex b) (sha1_hex first)
      then runs_from first (more ++ [b]) rest
      else (first :: more) :: runs_from b [] rest
  end.

Definition runs (frames : list Buffer) : list (list Buffer) :=
  match frames with
  | [] => []
  | b :: rest => runs_from b [] rest
  end.

(** Every run is not empty and its frames share one hash. *)
Definition uniform_run (g : list Buffer) : Prop :=
  g <> [] /\ Forall (fun x => sha1_hex x = sha1_hex (List.hd [] g)) g.

(** [delay] added up [n] times the way the loop does it: set once, then
    [+= delay] for every further frame. *)
Fixpoint accumulated (delay : number) (n : nat) : number :=
  match n with
  | O => 0
  | S O => delay
  | S m => (accumulated delay m + delay)%Q
  end.

(** The entry of [uniqueFrames] that stands for a run. *)
Definition run_entry (delay : number) (g : list Buffer) : UniqueFrame :=
  {| buf := List.hd [] g;
     duration := accumulated delay (length g);
     hash := sha1_hex (List.hd [] g) |}.

(** No two consecutive frames are byte-identical. *)
Definition no_consecutive_identical (frames : list Buffer) : Prop :=
  forall i a b, frames !! i = Some a -> frames !! (S i) = Some b -> a <> b.

(** No two consecutive frames are a SHA-1 collision (different bytes,
    same digest). *)
Definition no_consecutive_collision (frames : list Buffer) : Prop :=
  forall i a b, frames !! i = Some a -> frames !! (S i) = Some b ->
    sha1_hex a = sha1_hex b -> a = b.

End Dedup.

(** ** Interval policy of [take_screencast] *)

(** The [if]/[else] ladder that sets [interval]; [willPersistAsAnimation] is
    the outer condition [args.directory && format === 'webp']. *)
Definition decideScreencastInterval (duration : number)
    (willPersistAsAnimation : bool) : number :=
  if willPersistAsAnimation then
    if Qle_bool duration 5 then 0.1%Q
    else if Qle_bool duration 10 then 0.2%Q
    else 0.5%Q
  else 2%Q.

(** ** Strings *)

Definition nl : string := String "010"%char EmptyString.
Definition dquote : string := String "034"%char EmptyString.

Fixpoint string_map (f : ascii -> ascii) (s : string) : string :=
  match s with
  | EmptyString => EmptyString
  | String c s' => String (f c) (string_map f s')
  end.

Fixpoint string_forall (p : ascii -> bool) (s : string) : bool :=
  match s with
  | EmptyString => true
  | String c s' => p c && string_forall p s'
  end.

Fixpoint string_drop (n : nat) (s : string) : string :=
  match n, s with
  | S m, String _ s' => string_drop m s'
  | _, _ => s
  end.

(** [s.replace(pat, rep)] with a string pattern: the first occurrence only. *)
Fixpoint replace_first (pat rep s : string) : string :=
  if String.prefix pat s then rep +:+ string_drop (String.length pat) s
  else match s with
       | EmptyString => EmptyString
       | String c s' => String c (replace_first pat rep s')
       end.

(** [arr.join(sep)] *)
Fixpoint join_with (sep : string) (l : list string) : string :=
  match l with
  | [] => ""
  | [x] => x
  | x :: rest => x +:+ sep +:+ join_with sep rest
  end.

Definition in_range (lo hi : nat) (c : ascii) : bool :=
  (lo <=? nat_of_ascii c)%nat && (nat_of_ascii c <=? hi)%nat.

(** The class [[a-z0-9]] under the [i] flag. *)
Definition is_alnum (c : ascii) : bool :=
  in_range 97 122 c || in_range 65 90 c || in_range 48 57 c.

(** [hostname.replace(/[^a-z0-9]/gi, '_')] *)
Definition sanitize_hostname (h : string) : string :=
  string_map (fun c => if is_alnum c then c else "_"%char) h.

(** [iso.replace(/[:.]/g, '-')] *)
Definition sanitize_timestamp (iso : string) : string :=
  string_map (fun c => if (Ascii.eqb c ":" || Ascii.eqb c ".")%char
                       then "-"%char else c) iso.

(** ** Paths

    [path.join] and [path.normalize] as Node defines them on POSIX (the
    encoder binaries exist for darwin and linux only), and the way the file
    system reads a path: cut at every [/], empty segments and [.] dropped,
    [..] taking back the segment before it.  Relative paths are relative to
    the working directory of the process, which does not change; where
    that directory lies is not part of the model, so a relative and an
    absolute path are taken to name different places. *)

Definition is_slash (c : ascii) : bool := Ascii.eqb c "/"%char.

Definition slash_free (s : string) : bool :=
  string_forall (fun c => negb (is_slash c)) s.

(** [s.split('/')] *)
Fixpoint split_slash (s : string) : list string :=
  match s with
  | EmptyString => [""]
  | String c s' =>
      if is_slash c then "" :: split_slash s'
      else match split_slash s' with
           | x :: l => String c x :: l
           | [] => [String c ""]
           end
  end.

(** [path.isAbsolute] *)
Definition isAbsolute (s : string) : bool :=
  match s with String c _ => is_slash c | EmptyString => false end.

Fixpoint ends_with_slash (s : string) : bool :=
  match s with
  | EmptyString => false
  | String c EmptyString => is_slash c
  | String _ s' => ends_with_slash s'
  end.

(** What [normalizeString] does with one segment, [res] being the segments
    kept so far. *)
Definition normalize_step (allowAboveRoot : bool) (res : list string)
    (seg : string) : list string :=
  if String.eqb seg "" || String.eqb seg "." then res
  else if String.eqb seg ".." then
    match last res with
    | Some x =>
        if String.eqb x ".."
        then (if allowAboveRoot then res ++ [".."] else res)
        else removelast res
    | None => if allowAboveRoot then [".."] else []
    end
  else res ++ [seg].

(** The segments [normalizeString] keeps. *)
Definition normalize_segments (allowAboveRoot : bool) (path : string)
    : list string :=
  fold_left (normalize_step allowAboveRoot) (split_slash path) [].

(** [path.normalize] *)
Definition normalize (path : string) : string :=
  if truthy_string path then
    let abs := isAbsolute path in
    let trailing := ends_with_slash path in
    let p := join_with "/" (normalize_segments (negb abs) path) in
    if truthy_string p then
      let p := if trailing then p +:+ "/" else p in
      if abs then "/" +:+ p else p
    else if abs then "/" else if trailing then "./" else "."
  else ".".

(** [path.join(a, b)] *)
Definition join (a b : string) : string :=
  let joined :=
    if truthy_string a
    then (if truthy_string b then a +:+ "/" +:+ b else a)
    else b in
  if truthy_string joined then normalize joined else ".".

(** A path as the file system reads it: from the root or from the working
    directory, and the segments that remain. *)
Definition Location : Type := bool * list string.

Definition locate (path : string) : Location :=
  (isAbsolute path, normalize_segments (negb (isAbsolute path)) path).

(** The one name under which the model's file system stores a location. *)
Definition spell (l : Location) : string :=
  if l.1 then "/" +:+ join_with "/" l.2
  else match l.2 with [] => "." | _ => join_with "/" l.2 end.

Definition canonical (path : string) : string := spell (locate path).

(** The root, the working directory and the directories above it: they
    exist without being listed. *)
Definition implicit (l : Location) : bool :=
  forallb (String.eqb "..") l.2.

(** The directory a location lies in. *)
Definition parent (l : Location) : Location := (l.1, removelast l.2).

(** All initial parts of a list, the shortest first. *)
Fixpoint inits {A : Type} (l : list A) : list (list A) :=
  match l with
  | [] => [[]]
  | x :: t => [] :: map (cons x) (inits t)
  end.

(** A location and the directories it lies in, the outermost first,
    without those that exist anyway. *)
Definition chain (l : Location) : list Location :=
  filter (fun a => implicit a = false) (map (pair l.1) (inits l.2)).

(** [p] is [dir] or lies below it. *)
Definition under (dir p : string) : bool :=
  let d := locate dir in
  let q := locate p in
  Bool.eqb d.1 q.1
  && bool_decide (take (length d.2) q.2 = d.2)
  && negb (bool_decide (head (drop (length d.2) q.2) = Some "..")).

(** A segment that names an entry: not empty, not [.] or [..], no [/]. *)
Definition plain (s : string) : bool :=
  truthy_string s && negb (String.eqb s ".") && negb (String.eqb s "..")
  && slash_free s.

(** Segments as [normalizeString] leaves them: plain ones, after a run of
    [..] that is empty unless the path may point above its start. *)
Definition normal_segments (allowAboveRoot : bool) (l : list string) : Prop :=
  exists k rest,
    l = replicate k ".." ++ rest
    /\ Forall (fun s => plain s = true) rest
    /\ (allowAboveRoot = false -> k = 0%nat).

Definition normal_location (l : Location) : Prop :=
  normal_segments (negb l.1) l.2.

(** ** Requests, results, responses *)

Inductive JsEvaluate : Type :=
| JsSingle (code : string)
| JsSequence (codes : list string).

(** [request.params.arguments as any]: every property the handlers read. *)
Record Args : Type := {
  url : string;
  width : option number;
  height : option number;
  fullPage : option bool;
  waitUntil : option string;
  waitForMS : option number;
  directory : option string;
  duration_arg : option number;
  jsEvaluate : option JsEvaluate;
  format : option string;
  quality : option string;
}.

(** The object handed to [screenshotModule.captureScreenshot]. *)
Record ScreenshotOptions : Type := {
  shot_url : string;
  shot_viewport_width : number;
  shot_fullPage : bool;
  shot_waitUntil : string;
  shot_waitFor : option number;
}.

(** The object handed to [screenshotModule.captureScreencast]. *)
Record ScreencastOptions : Type := {
  cast_url : string;
  cast_duration : number;
  cast_interval : number;
  cast_viewport_width : number;
  cast_viewport_height : number;
  cast_waitUntil : string;
  cast_waitFor : option number;
  cast_jsEvaluate : option JsEvaluate;
}.

Record Viewport : Type := { vp_width : number; vp_height : number }.

Record Tile : Type := { tile_screenshot : Buffer }.

(** What [captureScreenshot] resolves to; the source tells the two shapes
    apart with ['tiles' in result]. *)
Inductive ScreenshotResult : Type :=
| RegularScreenshot (screenshot : Buffer) (viewport : Viewport)
| TiledScreenshot (tiles : list Tile) (fullWidth fullHeight tileSize : number).

Record Frame : Type := { screenshot : Buffer }.

Record ScreencastResult : Type := {
  frames : list Frame;
  result_duration : number;
  result_interval : number;
}.

Inductive ContentItem : Type :=
| TextContent (text : string)
| ImageContent (data mimeType : string).

Record Response : Type := { content : list ContentItem }.

(** ** Effects *)

Inductive Event : Type :=
| EvImportModule                                  (* [import('./internal/screenshotCapture.js')] *)
| EvCaptureScreenshot (o : ScreenshotOptions)
| EvCaptureScreencast (o : ScreencastOptions)
| EvMkdir (path : string)
| EvWriteFile (path : string) (data : Buffer)
| EvReadFile (path : string)
| EvRm (path : string)
| EvExeca (file : string) (argv : list string) (cwd : string)
          (failure : option Error).

Definition is_engine_call (e : Event) : bool :=
  match e with
  | EvCaptureScreenshot _ | EvCaptureScreencast _ => true
  | _ => false
  end.

Record World : Type := {
  files : gmap string Buffer;      (* regular files, by path *)
  dirs : gset string;              (* directories *)
  screenshotModule : bool;         (* the lazily loaded module is cached *)
  clock : nat;                     (* queries made to the host so far *)
  trace : list Event;              (* effects so far, oldest first *)
}.

(** What the platform decides.  The [nat] argument of the last five fields
    is the number of earlier queries, so that two calls need not agree. *)
Record Host : Type := {
  process_platform : string;                  (* [process.platform] *)
  module_dirname : string;                    (* [__dirname] *)
  os_tmpdir : string;                         (* [tmpdir()] *)
  url_hostname : string -> option string;     (* [new URL(u).hostname]; [None]: it throws *)
  digest_sha1_hex : Buffer -> string;         (* [createHash('sha1')...digest('hex')] *)
  toString_base64 : Buffer -> string;         (* [buf.toString('base64')] *)
  String_number : number -> string;           (* [String(n)], [`${n}`] *)
  date_toISOString : nat -> string;           (* [new Date().toISOString()] *)
  crypto_randomUUID : nat -> string;
  engine_captureScreenshot : nat -> ScreenshotOptions -> outcome ScreenshotResult;
  engine_captureScreencast : nat -> ScreencastOptions -> outcome ScreencastResult;
  (** the encoder process: it fails, or writes some files *)
  process_execa : nat -> string -> list string -> string ->
                  gmap string Buffer -> outcome (list (string * Buffer));
}.

Definition M (A : Type) : Type := World -> outcome A * World.

Definition ret {A : Type} (a : A) : M A := fun w => (Return a, w).

Definition throw {A : Type} (e : Error) : M A := fun w => (Throw e, w).

Definition bind {A B : Type} (m : M A) (k : A -> M B) : M B :=
  fun w => match m w with
           | (Return a, w') => k a w'
           | (Throw e, w') => (Throw e, w')
           end.

(** [try { m } catch (error) { handler error }] *)
Definition try_catch {A : Type} (m : M A) (handler : Error -> M A) : M A :=
  fun w => match m w with
           | (Return a, w') => (Return a, w')
           | (Throw e, w') => handler e w'
           end.

Declare Scope js_scope.
Delimit Scope js_scope with js.
Notation "'let*' x := m 'in' k" := (bind m (fun x => k))
  (at level 10, x name, m at level 100, k at level 200) : js_scope.
Notation "m ;; k" := (bind m (fun _ => k))
  (at level 100, k at level 200, right associativity) : js_scope.
Open Scope js_scope.

Definition emit (ev : Event) : M unit :=
  fun w => (Return tt,
            {| files := files w; dirs := dirs w;
               screenshotModule := screenshotModule w;
               clock := clock w; trace := trace w ++ [ev] |}).

(** A query to the host: its number, and the counter moves on. *)
Definition tick : M nat :=
  fun w => (Return (clock w),
            {| files := files w; dirs := dirs w;
               screenshotModule := screenshotModule w;
               clock := S (clock w); trace := trace w |}).

Definition set_fs (fs : gmap string Buffer) (ds : gset string) : M unit :=
  fun w => (Return tt,
            {| files := fs; dirs := ds;
               screenshotModule := screenshotModule w;
               clock := clock w; trace := trace w |}).

Definition get_world : M World := fun w => (Return w, w).

Definition lift_outcome {A : Type} (o : outcome A) : M A :=
  match o with Return a => ret a | Throw e => throw e end.

(** *** File system

    Files and directories are stored under their [canonical] names.  The
    model decides what the state of the file system decides: [mkdir] with
    [recursive] makes the missing directories on the way, [writeFile] needs
    the directory it writes into, [readFile] needs the file.  A file system
    that refuses for other reasons (a regular file on the way of [mkdir], a
    directory where a file is to be written, permissions, a full disk) is
    outside the model; the statements about what is stored in a requested
    directory exclude the first two by hypothesis. *)

(** [l] is a directory. *)
Definition is_dir (w : World) (l : Location) : bool :=
  implicit l || bool_decide (spell l ∈ dirs w).

(** [l] is a regular file. *)
Definition is_file (w : World) (l : Location) : bool :=
  bool_decide (is_Some (files w !! spell l)).

(** The directories [mkdir(path, { recursive: true })] makes sure of. *)
Definition made_by_mkdir (path : string) : gset string :=
  list_to_set (map spell (chain (locate path))).

Definition existsSync (path : string) : M bool :=
  let* w := get_world in
  ret (is_dir w (locate path) || is_file w (locate path)).

(** [mkdir(path, { recursive: true })] *)
Definition mkdir (path : string) : M unit :=
  emit (EvMkdir path) ;;
  let* w := get_world in
  set_fs (files w) (made_by_mkdir path ∪ dirs w).

Definition writeFile (path : string) (data : Buffer) : M unit :=
  emit (EvWriteFile path data) ;;
  let* w := get_world in
  let l := locate path in
  if is_dir w (parent l)
  then set_fs (<[ spell l := data ]> (files w)) (dirs w)
  else if existsb (is_file w) (map (pair l.1) (inits (removelast l.2)))
       then throw (ENOTDIR path)
       else throw (ENOENT path).

Definition readFile (path : string) : M Buffer :=
  emit (EvReadFile path) ;;
  let* w := get_world in
  match files w !! canonical path with
  | Some data => ret data
  | None => throw (ENOENT path)
  end.

(** [rm(path, { recursive: true, force: true })] *)
Definition rm (path : string) : M unit :=
  emit (EvRm path) ;;
  let* w := get_world in
  set_fs (filter (fun kv => under path kv.1 = false) (files w))
         (filter (fun d => under path d = false) (dirs w)).

(** ** The program *)

Section Program.

Variable host : Host.

(** [new Date().toISOString()] *)
Definition now_iso : M string :=
  let* n := tick in ret (date_toISOString host n).

Definition randomUUID : M string :=
  let* n := tick in ret (crypto_randomUUID host n).

(** [new URL(url).hostname] *)
Definition new_URL_hostname (u : string) : M string :=
  match url_hostname host u with
  | Some h => ret h
  | None => throw (TypeErrorInvalidURL u)
  end.

(** [await execa(file, argv, { cwd })] *)
Definition execa (file : string) (argv : list string) (cwd : string)
    : M unit :=
  let* n := tick in
  let* w := get_world in
  match process_execa host n file argv cwd (files w) with
  | Throw e => emit (EvExeca file argv cwd (Some e)) ;; throw e
  | Return written =>
      emit (EvExeca file argv cwd None) ;;
      set_fs (foldl (fun fs kv => <[ kv.1 := kv.2 ]> fs) (files w) written)
             (dirs w)
  end.

(** [if (!screenshotModule) screenshotModule = await import(...)] *)
Definition loadScreenshotModule : M unit :=
  let* w := get_world in
  if screenshotModule w then ret tt
  else emit (EvImportModule) ;;
       (fun w' => (Return tt,
                   {| files := files w'; dirs := dirs w';
                      screenshotModule := true;
                      clock := clock w'; trace := trace w' |})).

Definition captureScreenshot (o : ScreenshotOptions) : M ScreenshotResult :=
  let* n := tick in
  emit (EvCaptureScreenshot o) ;;
  lift_outcome (engine_captureScreenshot host n o).

Definition captureScreencast (o : ScreencastOptions) : M ScreencastResult :=
  let* n := tick in
  emit (EvCaptureScreencast o) ;;
  lift_outcome (engine_captureScreencast host n o).

(** *** [generateFilename] (lines 227-237) *)

Definition frame_suffix (index : option nat) : string :=
  match index with
  | Some i => "_frame" +:+ pretty (i + 1)%nat
  | None => ""
  end.

Definition filename_of (prefix hostname timestamp suffix : string) : string :=
  prefix +:+ "_" +:+ hostname +:+ "_" +:+ timestamp +:+ suffix +:+ ".png".

Definition generateFilename (u : string) (index : option nat)
    (prefix : string) : M string :=
  let* h := new_URL_hostname u in
  let hostname := sanitize_hostname h in
  let* iso := now_iso in
  let timestamp := sanitize_timestamp iso in
  let suffix := frame_suffix index in
  ret (filename_of prefix hostname timestamp suffix).

(** *** [createAnimatedWebP] (lines 240-331) *)

Definition binaryName : string :=
  if String.eqb (process_platform host) "darwin"
  then "img2webp-darwin" else "img2webp-linux".

(** [join(__dirname, 'bin', binaryName)] *)
Definition IMG2WEBP : string :=
  join (join (module_dirname host) "bin") binaryName.

Definition frame_file (i : nat) : string := "f" +:+ pretty i +:+ ".png".

(** [Promise.all(uniqueFrames.map((frame, i) => writeFile(...)))]; the
    writes go to distinct paths and are taken in index order. *)
Fixpoint writeFrames (tempDir : string) (i : nat)
    (uniqueFrames : list UniqueFrame) : M unit :=
  match uniqueFrames with
  | [] => ret tt
  | frame :: rest =>
      writeFile (join tempDir (frame_file i)) (buf frame) ;;
      writeFrames tempDir (S i) rest
  end.

Definition quality_flag (quality : string) : string :=
  if String.eqb quality "high" then "90"
  else if String.eqb quality "medium" then "75" else "50".

(** The [args] array of the encoder call. *)
Definition encoder_args (uniqueFrames : list UniqueFrame)
    (quality : string) : list string :=
  ["-min_size"; "-mixed"; "-loop"; "0"; "-q"; quality_flag quality;
   "-m"; "6"]
  ++ concat (imap (fun i frame =>
                     ["-d"; String_number host (duration frame);
                      frame_file i]) uniqueFrames)
  ++ ["-o"; "out.webp"].

(** The name of the temporary directory, given the UUID drawn. *)
Definition tempDir_of (uuid : string) : string :=
  join (os_tmpdir host) ("webp-" +:+ uuid).

Definition createAnimatedWebP (frames : list Buffer) (delay : number)
    (endDelay : option number) (quality : string) : M Buffer :=
  let IMG2WEBP := IMG2WEBP in
  let* uuid := randomUUID in
  let tempDir := tempDir_of uuid in
  mkdir tempDir ;;
  try_catch
    (let uniqueFrames :=
       uniqueFramesOf (digest_sha1_hex host) frames delay endDelay in
     writeFrames tempDir 0 uniqueFrames ;;
     let argv := encoder_args uniqueFrames quality in
     execa IMG2WEBP argv tempDir ;;
     let* result := readFile (join tempDir "out.webp") in
     rm tempDir ;;
     ret result)
    (fun error =>
       try_catch (rm tempDir) (fun _ => ret tt) ;;
       throw error).

(** *** The [take_screenshot] handler (lines 339-471) *)

Definition screenshotOptions (args : Args) : ScreenshotOptions :=
  {| shot_url := url args;
     shot_viewport_width := Qmin (nullish (width args) 1072%Q) 1072%Q;
     shot_fullPage := nullish (fullPage args) true;
     shot_waitUntil := nullish (waitUntil args) "domcontentloaded";
     shot_waitFor := waitForMS args |}.

(** [if (!existsSync(dir)) await mkdir(dir, { recursive: true })] *)
Definition ensureDirectory (dir : string) : M unit :=
  let* present := existsSync dir in
  if present then ret tt else mkdir dir.

(** The loop over [tiledResult.tiles]. *)
Fixpoint saveTiles (u dir : string) (i : nat) (tiles : list Tile)
    (savedPaths : list string) : M (list string) :=
  match tiles with
  | [] => ret savedPaths
  | tile :: rest =>
      let* filename := generateFilename u (Some i) "screenshot" in
      let filepath := join dir filename in
      writeFile filepath (tile_screenshot tile) ;;
      saveTiles u dir (S i) rest (savedPaths ++ [filepath])
  end.

Definition size_text (w h : number) : string :=
  String_number host w +:+ "x" +:+ String_number host h.

Definition tiles_saved_text (tiles : list Tile) (savedPaths : list string)
    (fullWidth fullHeight tileSize : number) : string :=
  "✅ Saved " +:+ pretty (length tiles) +:+ " screenshot tiles to:" +:+ nl
  +:+ join_with nl savedPaths +:+ nl +:+ nl
  +:+ "Page size: " +:+ size_text fullWidth fullHeight +:+ " pixels" +:+ nl
  +:+ "Tile size: " +:+ size_text tileSize tileSize +:+ " pixels".

Definition screenshot_saved_text (filepath : string) (vp : Viewport)
    : string :=
  "✅ Screenshot saved to: " +:+ filepath +:+ nl +:+ nl
  +:+ "Dimensions: " +:+ size_text (vp_width vp) (vp_height vp)
  +:+ " pixels".

Definition tiles_captured_text (tiles : list Tile)
    (fullWidth fullHeight tileSize : number) : string :=
  "✅ Captured " +:+ pretty (length tiles) +:+ " tiles ("
  +:+ size_text tileSize tileSize +:+ " each) from page measuring "
  +:+ size_text fullWidth fullHeight +:+ " pixels".

Definition screenshot_captured_text (vp : Viewport) : string :=
  "✅ Screenshot captured: " +:+ size_text (vp_width vp) (vp_height vp)
  +:+ " pixels".

Definition png_image (data : Buffer) : ContentItem :=
  ImageContent (toString_base64 host data) "image/png".

(** Everything after [captureScreenshot] has resolved (lines 377-471). *)
Definition materializeScreenshot (args : Args) (result : ScreenshotResult)
    : M Response :=
  if truthy_opt_string (directory args) then
    let dir := nullish (directory args) "" in
    ensureDirectory dir ;;
    match result with
    | TiledScreenshot tiles fullWidth fullHeight tileSize =>
        let* savedPaths := saveTiles (url args) dir 0 tiles [] in
        ret {| content :=
                 [TextContent (tiles_saved_text tiles savedPaths
                                 fullWidth fullHeight tileSize)] |}
    | RegularScreenshot shot vp =>
        let* filename := generateFilename (url args) None "screenshot" in
        let filepath := join dir filename in
        writeFile filepath shot ;;
        ret {| content :=
                 [TextContent (screenshot_saved_text filepath vp)] |}
    end
  else
    match result with
    | TiledScreenshot tiles fullWidth fullHeight tileSize =>
        ret {| content :=
                 map (fun tile => png_image (tile_screenshot tile)) tiles
                 ++ [TextContent (tiles_captured_text tiles
                                    fullWidth fullHeight tileSize)] |}
    | RegularScreenshot shot vp =>
        ret {| content :=
                 [png_image shot;
                  TextContent (screenshot_captured_text vp)] |}
    end.

Definition take_screenshot (args : Args) : M Response :=
  try_catch
    (loadScreenshotModule ;;
     let* result := captureScreenshot (screenshotOptions args) in
     materializeScreenshot args result)
    (fun error => throw error).

(** *** The [take_screencast] handler (lines 472-676) *)

Definition format_error_message : string :=
  "The " +:+ dquote +:+ "format" +:+ dquote
  +:+ " parameter can only be used when " +:+ dquote +:+ "directory"
  +:+ dquote +:+ " parameter is specified".

(** [args.directory && format === 'webp'] *)
Definition willPersistAsAnimation (args : Args) : bool :=
  truthy_opt_string (directory args)
  && String.eqb (nullish (format args) "webp") "webp".

(** The value of [interval] after the ladder. *)
Definition interval_of (args : Args) : number :=
  decideScreencastInterval (nullish (duration_arg args) 10%Q)
                           (willPersistAsAnimation args).

Definition screencastOptions (args : Args) : ScreencastOptions :=
  {| cast_url := url args;
     cast_duration := nullish (duration_arg args) 10%Q;
     cast_interval := interval_of args;
     cast_viewport_width := Qmin (nullish (width args) 1072%Q) 1072%Q;
     cast_viewport_height := Qmin (nullish (height args) 1072%Q) 1072%Q;
     cast_waitUntil := nullish (waitUntil args) "domcontentloaded";
     cast_waitFor := None;
     cast_jsEvaluate := jsEvaluate args |}.

(** The loop of the [format === 'png'] branch (lines 564-580). *)
Fixpoint savePngFrames (u dir : string) (i : nat) (fs : list Frame)
    (framePaths : list string) : M (list string) :=
  match fs with
  | [] => ret framePaths
  | f :: rest =>
      let* frameFilename := generateFilename u (Some i) "frame" in
      let frameFilepath := join dir frameFilename in
      writeFile frameFilepath (screenshot f) ;;
      savePngFrames u dir (S i) rest (framePaths ++ [frameFilepath])
  end.

(** The loop of the fallback branch (lines 628-644). *)
Fixpoint fallbackPngFrames (u dir : string) (i : nat) (fs : list Frame)
    (framePaths : list string) : M (list string) :=
  match fs with
  | [] => ret framePaths
  | f :: rest =>
      let* frameFilename := generateFilename u (Some i) "frame" in
      let frameFilepath := join dir frameFilename in
      writeFile frameFilepath (screenshot f) ;;
      fallbackPngFrames u dir (S i) rest (framePaths ++ [frameFilepath])
  end.

(** The lines every directory response ends with. *)
Definition frames_summary (result : ScreencastResult) (interval : number)
    : string :=
  nl +:+ nl
  +:+ "Duration: " +:+ String_number host (result_duration result) +:+ "s"
  +:+ nl +:+ "Frames: " +:+ pretty (length (frames result))
  +:+ nl +:+ "Interval: " +:+ String_number host interval +:+ "s".

Definition png_frames_text (framePaths : list string)
    (result : ScreencastResult) (interval : number) : string :=
  "✅ Screencast saved as PNG frames:" +:+ nl
  +:+ join_with nl framePaths +:+ frames_summary result interval.

Definition fallback_banner : string :=
  "⚠️  WebP creation failed, saved as PNG frames:".

Definition fallback_text (framePaths : list string)
    (result : ScreencastResult) (interval : number) : string :=
  fallback_banner +:+ nl
  +:+ join_with nl framePaths +:+ frames_summary result interval.

Definition webp_saved_text (filepath : string) (result : ScreencastResult)
    (interval : number) (quality : string) : string :=
  "✅ Screencast saved as animated WebP: " +:+ filepath +:+ nl +:+ nl
  +:+ "Duration: " +:+ String_number host (result_duration result) +:+ "s"
  +:+ nl +:+ "Frames: " +:+ pretty (length (frames result))
  +:+ nl +:+ "Capture Interval: "
  +:+ String_number host (interval * 1000)%Q +:+ "ms (4s pause at end)"
  +:+ nl +:+ "Quality: " +:+ quality
  +:+ nl +:+ "Method: img2webp (optimized with frame deduplication)".

Definition frames_captured_text (result : ScreencastResult) : string :=
  "✅ Captured " +:+ pretty (length (frames result)) +:+ " frames over "
  +:+ String_number host (result_duration result) +:+ " seconds ("
  +:+ String_number host (result_interval result) +:+ "s interval)".

(** [try { webpBuffer = await createAnimatedWebP(...) } catch { webpBuffer = null }] *)
Definition tryCreateWebP (fs : list Buffer) (interval : number)
    (quality : string) : M (option Buffer) :=
  try_catch
    (let frameDelay := (interval * 1000)%Q in
     let* webpBuffer :=
       createAnimatedWebP fs frameDelay (Some 4000%Q) quality in
     ret (Some webpBuffer))
    (fun _ => ret None).

(** Everything after [captureScreencast] has resolved (lines 547-676). *)
Definition materializeScreencast (args : Args) (result : ScreencastResult)
    : M Response :=
  let format := nullish (format args) "webp" in
  let quality := nullish (quality args) "medium" in
  let interval := interval_of args in
  if truthy_opt_string (directory args) then
    let dir := nullish (directory args) "" in
    ensureDirectory dir ;;
    let fs := map screenshot (frames result) in
    if String.eqb format "png" then
      let* framePaths := savePngFrames (url args) dir 0 (frames result) [] in
      ret {| content :=
               [TextContent (png_frames_text framePaths result interval)] |}
    else
      let* webpBuffer := tryCreateWebP fs interval quality in
      match webpBuffer with
      | Some webp =>
          let* png_name := generateFilename (url args) None "screencast" in
          let filename := replace_first ".png" ".webp" png_name in
          let filepath := join dir filename in
          writeFile filepath webp ;;
          ret {| content :=
                   [TextContent (webp_saved_text filepath result interval
                                   quality)] |}
      | None =>
          let* framePaths :=
            fallbackPngFrames (url args) dir 0 (frames result) [] in
          ret {| content :=
                   [TextContent (fallback_text framePaths result interval)] |}
      end
  else
    ret {| content :=
             map (fun f => png_image (screenshot f)) (frames result)
             ++ [TextContent (frames_captured_text result)] |}.

Definition take_screencast (args : Args) : M Response :=
  try_catch
    (loadScreenshotModule ;;
     if truthy_opt_string (format args)
        && negb (truthy_opt_string (directory args))
     then throw (JsError format_error_message)
     else
       let* result := captureScreencast (screencastOptions args) in
       materializeScreencast args result)
    (fun error => throw error).

End Program.

(** ** Vocabulary of the statements *)

(** Running [m] only appends to the log, and what it appends satisfies [P]. *)
Definition emits {A : Type} (P : Event -> Prop) (m : M A) : Prop :=
  forall w, exists evs, trace (m w).2 = trace w ++ evs /\ Forall P evs.

(** Nothing lies in or below [dir]. *)
Definition absent_below (dir : string) (w : World) : Prop :=
  forall p, under dir p = true -> files w !! p = None /\ p ∉ dirs w.

Definition is_word_char (c : ascii) : bool :=
  is_alnum c || Ascii.eqb c "_"%char.

(** [e] writes a file in or below [dir]. *)
Definition is_write (dir : string) (e : Event) : Prop :=
  match e with EvWriteFile p _ => under dir p = true | _ => False end.

(** Like [emits], and a value that is returned satisfies [Q]. *)
Definition yields {A : Type} (Q : A -> Prop) (P : Event -> Prop) (m : M A)
    : Prop :=
  forall w, exists evs,
    trace (m w).2 = trace w ++ evs /\ Forall P evs
    /\ forall a, (m w).1 = Return a -> Q a.

(** [suffix] ends [s]. *)
Definition ends_with (suffix s : string) : bool :=
  String.eqb suffix
    (String.substring (String.length s - String.length suffix)
                      (String.length suffix) s).

Definition not_engine (e : Event) : Prop := is_engine_call e = false.

Section Vocabulary.

Variable host : Host.

(** The sanitised form of the [n]-th time stamp the host hands out. *)
Definition timestamp_at (n : nat) : string :=
  sanitize_timestamp (date_toISOString host n).

(** [name] is what [generateFilename] makes for some host name, at some
    moment, with the given frame index. *)
Definition generated_png (prefix : string) (index : option nat)
    (name : string) : Prop :=
  exists h n,
    name = filename_of prefix (sanitize_hostname h) (timestamp_at n)
             (frame_suffix index).

(** [name] is the name of an animated asset. *)
Definition generated_webp (name : string) : Prop :=
  exists h n,
    name = "screencast_" +:+ sanitize_hostname h +:+ "_" +:+ timestamp_at n
           +:+ ".webp".

(** An effect of the assembler on one of its temporary directories. *)
Definition temp_event (e : Event) : Prop :=
  exists n,
    let tempDir := tempDir_of host (crypto_randomUUID host n) in
    match e with
    | EvMkdir p | EvRm p => p = tempDir
    | EvWriteFile p _ | EvReadFile p => under tempDir p = true
    | EvExeca _ _ cwd _ => cwd = tempDir
    | _ => False
    end.

(** The time stamps of the host are free of [/], as an ISO time is. *)
Definition iso_timestamps : Prop :=
  forall n, slash_free (date_toISOString host n) = true.

(** [name] is a name one of the handlers generates. *)
Definition generated_name (name : string) : Prop :=
  (exists index, generated_png "screenshot" index name)
  \/ (exists i, generated_png "frame" (Some i) name)
  \/ generated_webp name.

(** [dir] can be made and written into: no regular file has its name or
    the name of a directory on the way to it, and no directory has the name
    of a file the handlers generate in it. *)
Definition writable (w : World) (dir : string) : Prop :=
  (forall a, a ∈ map (pair (locate dir).1) (inits (locate dir).2) ->
             is_file w a = false)
  /\ (forall name, generated_name name -> join dir name ∉ dirs w).

(** What [take_screenshot] may write: generated names in [dir]. *)
Definition screenshot_write (dir : string) (e : Event) : Prop :=
  forall p d, e = EvWriteFile p d ->
    exists index name,
      p = join dir name /\ generated_png "screenshot" index name.

(** What [take_screencast] may write: frames with generated names or the
    animated asset in [dir], and the assembler's temporary files. *)
Definition screencast_write (dir : string) (e : Event) : Prop :=
  forall p d, e = EvWriteFile p d ->
    (exists i name,
       p = join dir name /\ generated_png "frame" (Some i) name)
    \/ (exists name, p = join dir name /\ generated_webp name)
    \/ temp_event e.

End Vocabulary.

(** The width or height the engine gets for a requested value. *)
Definition effective (requested : option number) : number :=
  Qmin (nullish requested 1072%Q) 1072%Q.

(** Requests that differ in one property. *)
Definition with_width (args : Args) (w : option number) : Args :=
  {| url := url args; width := w; height := height args;
     fullPage := fullPage args; waitUntil := waitUntil args;
     waitForMS := waitForMS args; directory := directory args;
     duration_arg := duration_arg args; jsEvaluate := jsEvaluate args;
     format := format args; quality := quality args |}.

Definition with_height (args : Args) (h : option number) : Args :=
  {| url := url args; width := width args; height := h;
     fullPage := fullPage args; waitUntil := waitUntil args;
     waitForMS := waitForMS args; directory := directory args;
     duration_arg := duration_arg args; jsEvaluate := jsEvaluate args;
     format := format args; quality := quality args |}.

Definition with_waitForMS (args : Args) (ms : option number) : Args :=
  {| url := url args; width := width args; height := height args;
     fullPage := fullPage args; waitUntil := waitUntil args;
     waitForMS := ms; directory := directory args;
     duration_arg := duration_arg args; jsEvaluate := jsEvaluate args;
     format := format args; quality := quality args |}.

Definition no_dot (s : string) : bool :=
  string_forall (fun c => negb (Ascii.eqb c "."%char)) s.

(** ** Fixtures for the examples *)

(** A digest that is easy to compute by hand: the length of the buffer. *)
Definition toy_digest (b : Buffer) : string := pretty (length b).

Definition two_frames : ScreencastResult :=
  {| frames := [ {| screenshot := [Byte.x00] |};
                 {| screenshot := [Byte.x01; Byte.x02] |} ];
     result_duration := 10%Q;
     result_interval := 0.2%Q |}.

(** A host on [platform] whose engine captures [two_frames] and whose
    encoder either writes [out.webp] into its working directory or cannot
    be started. *)
Definition fixture_host (platform : string) (encoder_works : bool) : Host :=
  {| process_platform := platform;
     module_dirname := "/app/dist";
     os_tmpdir := "/tmp";
     url_hostname := fun u =>
       if String.eqb u "https://example.com/" then Some "example.com"
       else None;
     digest_sha1_hex := toy_digest;
     toString_base64 := fun b => pretty (length b);
     String_number := fun q => pretty (Qnum q) +:+ "/" +:+ pretty (Zpos (Qden q));
     date_toISOString := fun _ => "2025-01-02T03:04:05.678Z";
     crypto_randomUUID := fun _ => "0000";
     engine_captureScreenshot := fun _ o =>
       Return (RegularScreenshot [Byte.x00]
                 {| vp_width := shot_viewport_width o; vp_height := 800%Q |});
     engine_captureScreencast := fun _ _ => Return two_frames;
     process_execa := fun _ _ _ cwd _ =>
       if encoder_works then Return [(join cwd "out.webp", [Byte.x52])]
       else Throw (ExternalError "spawn ENOENT") |}.

Definition empty_world : World :=
  {| files := ∅; dirs := ∅; screenshotModule := false; clock := 0;
     trace := [] |}.

(** A world where the system's temporary directory is there. *)
Definition world_with_tmp : World :=
  {| files := ∅; dirs := {[ "/tmp" ]}; screenshotModule := false;
     clock := 0; trace := [] |}.

(** A world where [out] is a regular file. *)
Definition world_with_file : World :=
  {| files := {[ "out" := [Byte.xff] ]}; dirs := ∅;
     screenshotModule := false; clock := 0; trace := [] |}.

(** A request with only [url] and the given [directory] and [format]. *)
Definition request (dir fmt : option string) : Args :=
  {| url := "https://example.com/"; width := None; height := None;
     fullPage := None; waitUntil := None; waitForMS := None;
     directory := dir; duration_arg := None; jsEvaluate := None;
     format := fmt; quality := None |}.

(** ** More vocabulary: durations, digits *)

(** The playing time of a list of entries: the sum of their durations. *)
Definition total_duration (l : list UniqueFrame) : number :=
  fold_right (fun f acc => (duration f + acc)%Q) 0%Q l.

Definition is_digit (c : ascii) : bool := in_range 48 57 c.

Fixpoint string_to_list (s : string) : list ascii :=
  match s with
  | EmptyString => []
  | String c s' => c :: string_to_list s'
  end.


(** ** More vocabulary: what a computation leaves as it was *)

(** Whatever the start, [m] moves the world within [R], and a value that is
    returned satisfies [Q]. *)
Definition changes {A : Type} (R : relation World) (Q : A -> Prop) (m : M A)
    : Prop :=
  forall w, R w (m w).2 /\ forall a, (m w).1 = Return a -> Q a.

(** The paths in [keepf] hold the same file as before, and the paths in
    [keepd] are a directory or not as before. *)
Definition untouched (keepf keepd : string -> Prop) : relation World :=
  fun w w' =>
    (forall p, keepf p -> files w' !! p = files w !! p)
    /\ (forall p, keepd p -> (p ∈ dirs w' <-> p ∈ dirs w)).

(** A module that was loaded stays loaded. *)
Definition module_kept : relation World :=
  fun w w' => screenshotModule w = true -> screenshotModule w' = true.

(** Both. *)
Definition settled (keepf keepd : string -> Prop) : relation World :=
  fun w w' => untouched keepf keepd w w' /\ module_kept w w'.

(** The encoder process writes only in or below its working directory. *)
Definition encoder_confined (host : Host) : Prop :=
  forall n file argv cwd fs written,
    process_execa host n file argv cwd fs = Return written ->
    Forall (fun kv => under cwd kv.1 = true) written.

(** [p] is outside every temporary directory of the assembler. *)
Definition outside_temp (host : Host) (p : string) : Prop :=
  forall n, under (tempDir_of host (crypto_randomUUID host n)) p = false.

(** [p] is none of the directories [mkdir] makes for a temporary directory
    of the assembler. *)
Definition beside_temp (host : Host) (p : string) : Prop :=
  forall n, p ∉ made_by_mkdir (tempDir_of host (crypto_randomUUID host n)).

(** The names the host can hand out as UUIDs. *)
Definition is_uuid (host : Host) (u : string) : Prop :=
  exists n, u = crypto_randomUUID host n.

Definition anything {A : Type} (a : A) : Prop := True.

Definition not_import (e : Event) : Prop := e <> EvImportModule.


(** ** More vocabulary: the assembler's working files *)

(** The effect of writing the entries of [uniqueFrames] into [tempDir],
    numbered from [i]. *)
Definition frame_writes (tempDir : string) (i : nat)
    (uniqueFrames : list UniqueFrame) : list Event :=
  imap (fun k f => EvWriteFile (join tempDir (frame_file (i + k))) (buf f))
       uniqueFrames.

(** The files after these writes. *)
Definition with_frames (tempDir : string) (i : nat)
    (uniqueFrames : list UniqueFrame) (fs : gmap string Buffer)
    : gmap string Buffer :=
  foldl (fun fs kv => <[kv.1:=kv.2]> fs) fs
        (imap (fun k f => (join tempDir (frame_file (i + k)), buf f))
              uniqueFrames).

(** The fixed head of the encoder's arguments. *)
Definition encoder_flags (quality : string) : list string :=
  ["-min_size"; "-mixed"; "-loop"; "0"; "-q"; quality_flag quality;
   "-m"; "6"].

(** [e] is a start of the encoder process. *)
Definition starts_encoder (e : Event) : Prop :=
  match e with EvExeca _ _ _ _ => True | _ => False end.

#[export] Instance starts_encoder_dec (e : Event) :
  Decision (starts_encoder e).
Proof. destruct e; cbn; apply _. Defined.

(** [createAnimatedWebP] from the point where its temporary directory is
    named: [createAnimatedWebP] is [assembling] at the UUID drawn. *)
Definition assembling (host : Host) (uuid : string) (frames : list Buffer)
    (delay : number) (endDelay : option number) (quality : string)
    : M Buffer :=
  let tempDir := tempDir_of host uuid in
  let uniqueFrames :=
    uniqueFramesOf (digest_sha1_hex host) frames delay endDelay in
  mkdir tempDir ;;
  try_catch
    (writeFrames tempDir 0 uniqueFrames ;;
     execa host (IMG2WEBP host) (encoder_args host uniqueFrames quality)
       tempDir ;;
     let* result := readFile (join tempDir "out.webp") in
     rm tempDir ;;
     ret result)
    (fun error =>
       try_catch (rm tempDir) (fun _ => ret tt) ;;
       throw error).


Definition is_png_image (c : ContentItem) : Prop :=
  exists data, c = ImageContent data "image/png".

(** ** More fixtures *)

(** A host whose engine is down. *)
Definition broken_engine_host : Host :=
  {| process_platform := "linux";
     module_dirname := "/app/dist";
     os_tmpdir := "/tmp";
     url_hostname := url_hostname (fixture_host "linux" true);
     digest_sha1_hex := toy_digest;
     toString_base64 := toString_base64 (fixture_host "linux" true);
     String_number := String_number (fixture_host "linux" true);
     date_toISOString := date_toISOString (fixture_host "linux" true);
     crypto_randomUUID := crypto_randomUUID (fixture_host "linux" true);
     engine_captureScreenshot := fun _ _ =>
       Throw (ExternalError "net::ERR_NAME_NOT_RESOLVED");
     engine_captureScreencast := fun _ _ =>
       Throw (ExternalError "net::ERR_NAME_NOT_RESOLVED");
     process_execa := process_execa (fixture_host "linux" true) |}.

Definition two_tiles : list Tile :=
  [ {| tile_screenshot := [Byte.x00] |};
    {| tile_screenshot := [Byte.x01; Byte.x02] |} ].

(** A host whose engine returns a page in two tiles. *)
Definition tiling_host : Host :=
  {| process_platform := "linux";
     module_dirname := "/app/dist";
     os_tmpdir := "/tmp";
     url_hostname := url_hostname (fixture_host "linux" true);
     digest_sha1_hex := toy_digest;
     toString_base64 := toString_base64 (fixture_host "linux" true);
     String_number := String_number (fixture_host "linux" true);
     date_toISOString := date_toISOString (fixture_host "linux" true);
     crypto_randomUUID := crypto_randomUUID (fixture_host "linux" true);
     engine_captureScreenshot := fun _ _ =>
       Return (TiledScreenshot two_tiles 1072%Q 2000%Q 1072%Q);
     engine_captureScreencast := fun _ _ => Return two_frames;
     process_execa := process_execa (fixture_host "linux" true) |}.

(** * Properties *)

(** ** Frame deduplication *)

Lemma adj_distinct_lookup {A : Type} (l : list A) :
  adj_distinct l <->
  (forall i a b, l !! i = Some a -> l !! (S i) = Some b -> a <> b).
Proof.
  induction l as [|x t IH]; simpl.
  - split; [intros _ i a b H; discriminate | trivial].
  - rewrite IH. split.
    + intros [Hx Ht] [|i] a b Ha Hb; simpl in *.
      * destruct t as [|y t']; [discriminate|].
        simpl in Hb. congruence.
      * eapply Ht; eauto.
    + intros H. split.
      * destruct t as [|y t']; [trivial|]. apply (H 0%nat); reflexivity.
      * intros i a b Ha Hb. apply (H (S i)); assumption.
Qed.

(** ** Strings and paths *)

Lemma string_app_cons (x : ascii) (a b : string) :
  String x a +:+ b = String x (a +:+ b).
Proof. reflexivity. Qed.

Lemma string_app_nil_l (a : string) : "" +:+ a = a.
Proof. reflexivity. Qed.

Lemma string_app_assoc (a b c : string) : (a +:+ b) +:+ c = a +:+ (b +:+ c).
Proof.
  induction a as [|x a IH]; [reflexivity|].
  rewrite !string_app_cons, IH. reflexivity.
Qed.

Lemma string_app_nil_r (a : string) : a +:+ "" = a.
Proof.
  induction a as [|x a IH]; [reflexivity|].
  rewrite string_app_cons, IH. reflexivity.
Qed.

Lemma string_length_app (a b : string) :
  String.length (a +:+ b) = (String.length a + String.length b)%nat.
Proof.
  induction a as [|x a IH]; [reflexivity|].
  rewrite string_app_cons. simpl. rewrite IH. reflexivity.
Qed.

Lemma string_app_inv_tail (a b t : string) : a +:+ t = b +:+ t -> a = b.
Proof.
  revert b. induction a as [|x a IH]; intros [|y b] H.
  - reflexivity.
  - apply (f_equal String.length) in H.
    rewrite ?string_app_nil_l, ?string_app_cons in H.
    simpl in H. rewrite string_length_app in H. lia.
  - apply (f_equal String.length) in H.
    rewrite ?string_app_nil_l, ?string_app_cons in H.
    simpl in H. rewrite string_length_app in H. lia.
  - rewrite !string_app_cons in H. injection H as -> H. f_equal. apply IH, H.
Qed.

Lemma prefix_append (s t : string) : String.prefix s (s +:+ t) = true.
Proof.
  induction s as [|x s IH].
  - destruct t; reflexivity.
  - rewrite string_app_cons. simpl.
    destruct (ascii_dec x x); [exact IH|congruence].
Qed.

Lemma string_to_list_app (a b : string) :
  string_to_list (a +:+ b) = string_to_list a ++ string_to_list b.
Proof.
  induction a as [|c a IH]; [reflexivity|].
  rewrite string_app_cons. simpl. rewrite IH. reflexivity.
Qed.

Lemma string_to_list_inj (a b : string) :
  string_to_list a = string_to_list b -> a = b.
Proof.
  revert b. induction a as [|c a IH]; intros [|d b] H; simpl in H;
    try discriminate; [reflexivity|].
  injection H as -> H. f_equal. apply IH, H.
Qed.

Lemma pretty_N_char_digit (k : N) : is_digit (pretty_N_char k) = true.
Proof. unfold pretty_N_char. repeat case_match; reflexivity. Qed.

Lemma pretty_N_go_digits (x : N) :
  forall s, exists ds,
    string_to_list (pretty_N_go x s) = ds ++ string_to_list s
    /\ Forall (fun c => is_digit c = true) ds.
Proof.
  induction (N.lt_wf_0 x) as [x _ IH]. intros s.
  destruct (decide (x = 0)%N) as [->|Hx].
  - exists []. rewrite pretty_N_go_0. auto.
  - rewrite pretty_N_go_step by lia.
    destruct (IH (x `div` 10)%N) with
      (s := String (pretty_N_char (x `mod` 10)) s) as (ds & Hds & Hall).
    { apply N.div_lt; lia. }
    exists (ds ++ [pretty_N_char (x `mod` 10)%N]).
    rewrite Hds. simpl. rewrite <- app_assoc. split; [reflexivity|].
    apply Forall_app. split; [exact Hall|].
    constructor; [apply pretty_N_char_digit|constructor].
Qed.

Lemma pretty_nat_digits (n : nat) :
  Forall (fun c => is_digit c = true) (string_to_list (pretty n)).
Proof.
  unfold pretty, pretty_nat, pretty, pretty_N.
  destruct (decide (N.of_nat n = 0)%N).
  - repeat constructor.
  - destruct (pretty_N_go_digits (N.of_nat n) "") as (ds & Hds & Hall).
    rewrite Hds. simpl. rewrite app_nil_r. exact Hall.
Qed.

Lemma string_forall_app p (a b : string) :
  string_forall p (a +:+ b) = string_forall p a && string_forall p b.
Proof.
  induction a as [|x a IH]; [reflexivity|].
  rewrite string_app_cons. simpl. rewrite IH, andb_assoc. reflexivity.
Qed.

Lemma string_forall_map p f (s : string) :
  (forall c, p (f c) = true) -> string_forall p (string_map f s) = true.
Proof.
  intros H. induction s as [|x s IH]; simpl; [reflexivity|].
  rewrite H, IH. reflexivity.
Qed.

Lemma string_forall_list p (s : string) :
  string_forall p s = true <-> Forall (fun c => p c = true) (string_to_list s).
Proof.
  induction s as [|c s IH]; simpl.
  - split; [constructor|reflexivity].
  - rewrite andb_true_iff, IH. split.
    + intros [? ?]. constructor; assumption.
    + intros H. inversion H; subst. auto.
Qed.

Lemma string_forall_impl (p q : ascii -> bool) (s : string) :
  (forall c, p c = true -> q c = true) ->
  string_forall p s = true -> string_forall q s = true.
Proof.
  intros H. induction s as [|c s IH]; simpl; [reflexivity|].
  rewrite !andb_true_iff. intros [? ?]. auto.
Qed.

(** ** Paths *)

Lemma split_slash_nonempty (s : string) : split_slash s <> [].
Proof.
  destruct s as [|c s]; simpl; [discriminate|].
  destruct (is_slash c); [discriminate|].
  destruct (split_slash s); discriminate.
Qed.

Lemma split_slash_app (a b : string) :
  split_slash (a +:+ "/" +:+ b) = split_slash a ++ split_slash b.
Proof.
  induction a as [|c a IH]; [reflexivity|].
  rewrite string_app_cons. simpl. rewrite IH.
  destruct (is_slash c); [reflexivity|].
  destruct (split_slash a) as [|x l] eqn:E;
    [destruct (split_slash_nonempty a E)|reflexivity].
Qed.

Lemma split_slash_free (f : string) :
  slash_free f = true -> split_slash f = [f].
Proof.
  induction f as [|c f IH]; intros H; [reflexivity|].
  unfold slash_free in H. simpl in H. apply andb_prop in H as [Hc Hf].
  simpl. destruct (is_slash c); [discriminate|].
  rewrite (IH Hf). reflexivity.
Qed.

Lemma split_slash_segments (s : string) :
  Forall (fun x => slash_free x = true) (split_slash s).
Proof.
  induction s as [|c s IH]; simpl; [repeat constructor|].
  destruct (is_slash c) eqn:E; [constructor; [reflexivity|exact IH]|].
  destruct (split_slash s) as [|x l].
  - repeat constructor. unfold slash_free. simpl. rewrite E. reflexivity.
  - inversion IH as [|? ? Hx Hl]; subst. constructor; [|exact Hl].
    unfold slash_free in *. simpl. rewrite E. exact Hx.
Qed.

Lemma split_join_with (l : list string) :
  l <> [] -> Forall (fun x => slash_free x = true) l ->
  split_slash (join_with "/" l) = l.
Proof.
  induction l as [|x l IH]; [congruence|]. intros _ H.
  inversion H as [|? ? Hx Hl]; subst.
  destruct l as [|y l].
  - simpl. apply split_slash_free, Hx.
  - change (join_with "/" (x :: y :: l))
      with (x +:+ "/" +:+ join_with "/" (y :: l)).
    rewrite split_slash_app, (split_slash_free x Hx).
    rewrite IH; [reflexivity|discriminate|exact Hl].
Qed.

Lemma plain_facts (s : string) :
  plain s = true ->
  truthy_string s = true /\ String.eqb s "" = false
  /\ String.eqb s "." = false /\ String.eqb s ".." = false
  /\ slash_free s = true.
Proof.
  unfold plain. rewrite !andb_true_iff, !negb_true_iff.
  intros [[[Ht H1] H2] Hs]. repeat split; try assumption.
  destruct s; [discriminate Ht|reflexivity].
Qed.

Lemma plain_step allow res seg :
  plain seg = true -> normalize_step allow res seg = res ++ [seg].
Proof.
  intros H. destruct (plain_facts seg H) as (_ & H0 & H1 & H2 & _).
  unfold normalize_step. rewrite H0, H1, H2. reflexivity.
Qed.

Lemma normalize_plain allow (l : list string) :
  Forall (fun s => plain s = true) l ->
  forall res, fold_left (normalize_step allow) l res = res ++ l.
Proof.
  induction 1 as [|x l Hx Hl IH]; intros res; simpl.
  - rewrite app_nil_r. reflexivity.
  - rewrite (plain_step allow res x Hx), IH, <- app_assoc. reflexivity.
Qed.

Lemma last_replicate {A : Type} (x : A) (k : nat) :
  last (replicate (S k) x) = Some x.
Proof.
  induction k as [|k IH]; [reflexivity|].
  change (replicate (S (S k)) x) with (x :: replicate (S k) x).
  rewrite last_cons, IH. reflexivity.
Qed.

Lemma normalize_dotdots (k : nat) :
  forall j, fold_left (normalize_step true) (replicate k "..")
                      (replicate j "..")
            = replicate (j + k) "..".
Proof.
  induction k as [|k IH]; intros j; simpl.
  - rewrite Nat.add_0_r. reflexivity.
  - replace (j + S k)%nat with (S j + k)%nat by lia. rewrite <- IH.
    f_equal. unfold normalize_step. simpl.
    destruct j as [|j]; [reflexivity|].
    rewrite last_replicate. simpl.
    rewrite <- replicate_cons_app. reflexivity.
Qed.

Lemma normal_fixed allow (l : list string) :
  normal_segments allow l -> fold_left (normalize_step allow) l [] = l.
Proof.
  intros (k & rest & -> & Hrest & Hk). rewrite fold_left_app.
  destruct allow.
  - pose proof (normalize_dotdots k 0) as H. simpl in H. rewrite H.
    apply normalize_plain, Hrest.
  - rewrite Hk by reflexivity. simpl. apply (normalize_plain false rest Hrest).
Qed.

Lemma normal_snoc allow (l : list string) (f : string) :
  normal_segments allow l -> plain f = true -> normal_segments allow (l ++ [f]).
Proof.
  intros (k & rest & -> & Hrest & Hk) Hf.
  exists k, (rest ++ [f]). rewrite app_assoc. split; [reflexivity|].
  split; [|exact Hk]. apply Forall_app. split; [exact Hrest|].
  repeat constructor. exact Hf.
Qed.

Lemma normalize_step_normal allow res seg :
  normal_segments allow res -> slash_free seg = true ->
  normal_segments allow (normalize_step allow res seg).
Proof.
  intros Hres Hseg. unfold normalize_step.
  destruct (String.eqb seg "") eqn:E0; [exact Hres|].
  destruct (String.eqb seg ".") eqn:E1; [exact Hres|]. simpl.
  destruct (String.eqb seg "..") eqn:E2.
  - destruct Hres as (k & rest & -> & Hrest & Hk).
    destruct rest as [|x rest _] using rev_ind.
    + rewrite app_nil_r. destruct k as [|k].
      * simpl. destruct allow.
        -- exists 1%nat, []. repeat split; [constructor|discriminate].
        -- exists 0%nat, []. repeat split; constructor.
      * rewrite last_replicate. simpl. destruct allow.
        -- exists (S (S k)), []. rewrite app_nil_r.
           rewrite <- replicate_cons_app. repeat split; [constructor|discriminate].
        -- exists (S k), []. rewrite app_nil_r. repeat split; [constructor|exact Hk].
    + apply Forall_app in Hrest as [Hrest Hx].
      inversion Hx as [|? ? Hpx _]; subst.
      destruct (plain_facts x Hpx) as (_ & _ & _ & Hx2 & _).
      rewrite app_assoc, last_snoc, Hx2, removelast_last.
      exists k, rest. auto.
  - apply normal_snoc; [exact Hres|].
    unfold plain. rewrite E1, E2, Hseg. simpl.
    destruct seg; [discriminate E0|reflexivity].
Qed.

Lemma normalize_segments_normal allow (s : string) :
  normal_segments allow (normalize_segments allow s).
Proof.
  unfold normalize_segments.
  assert (H : forall l res,
            Forall (fun x => slash_free x = true) l ->
            normal_segments allow res ->
            normal_segments allow (fold_left (normalize_step allow) l res)).
  { induction l as [|x l IH]; intros res Hl Hres; [exact Hres|].
    inversion Hl; subst. simpl. apply IH; [assumption|].
    apply normalize_step_normal; assumption. }
  apply H; [apply split_slash_segments|].
  exists 0%nat, []. repeat split; constructor.
Qed.

Lemma locate_normal (s : string) : normal_location (locate s).
Proof. apply normalize_segments_normal. Qed.

Lemma normal_slash_free allow (l : list string) :
  normal_segments allow l -> Forall (fun x => slash_free x = true) l.
Proof.
  intros (k & rest & -> & Hrest & _). apply Forall_app. split.
  - apply Forall_replicate. reflexivity.
  - eapply Forall_impl; [exact Hrest|]. intros x Hx.
    apply (plain_facts x Hx).
Qed.

Lemma normal_head allow (x : string) (l : list string) :
  normal_segments allow (x :: l) ->
  truthy_string x = true /\ isAbsolute x = false.
Proof.
  intros (k & rest & E & Hrest & _). destruct k as [|k].
  - simpl in E. subst rest. inversion Hrest as [|? ? Hx _]; subst.
    destruct (plain_facts x Hx) as (Ht & _ & _ & _ & Hs).
    split; [exact Ht|]. destruct x as [|c x]; [reflexivity|].
    unfold slash_free in Hs. simpl in Hs. apply andb_prop in Hs as [Hc _].
    simpl. apply negb_true_iff in Hc. exact Hc.
  - simpl in E. injection E as -> _. split; reflexivity.
Qed.

Lemma isAbsolute_app (a b : string) :
  truthy_string a = true -> isAbsolute (a +:+ b) = isAbsolute a.
Proof. destruct a; [discriminate|reflexivity]. Qed.

Lemma join_with_cons (x : string) (l : list string) :
  join_with "/" (x :: l)
  = match l with [] => x | _ => x +:+ "/" +:+ join_with "/" l end.
Proof. destruct l; reflexivity. Qed.

Lemma split_slash_root (s : string) :
  split_slash (String "/" s) = "" :: split_slash s.
Proof. reflexivity. Qed.

Lemma locate_spell (l : Location) : normal_location l -> locate (spell l) = l.
Proof.
  destruct l as [abs segs]. unfold normal_location, spell. cbn [fst snd].
  intros Hn. pose proof (normal_slash_free _ _ Hn) as Hs.
  destruct abs; cbn [negb] in Hn.
  - unfold locate.
    change ("/" +:+ join_with "/" segs) with (String "/" (join_with "/" segs)).
    change (isAbsolute (String "/" (join_with "/" segs))) with true.
    f_equal. unfold normalize_segments.
    rewrite split_slash_root. cbn [fold_left negb].
    change (normalize_step false [] "") with (@nil string).
    destruct segs as [|x segs]; [reflexivity|].
    rewrite split_join_with by (discriminate || exact Hs).
    apply normal_fixed, Hn.
  - destruct segs as [|x segs]; [reflexivity|].
    destruct (normal_head _ _ _ Hn) as [Ht Ha].
    assert (Habs : isAbsolute (join_with "/" (x :: segs)) = false).
    { rewrite join_with_cons. destruct segs; [exact Ha|].
      rewrite isAbsolute_app by exact Ht. exact Ha. }
    unfold locate. rewrite Habs. cbn [negb]. f_equal.
    unfold normalize_segments.
    rewrite split_join_with by (discriminate || exact Hs).
    apply normal_fixed, Hn.
Qed.

Lemma ends_with_slash_app (a f : string) :
  truthy_string f = true -> slash_free f = true ->
  ends_with_slash (a +:+ f) = false.
Proof.
  intros Ht Hs. induction a as [|c a IH].
  - rewrite string_app_nil_l. clear Ht.
    induction f as [|c f IH]; [reflexivity|].
    unfold slash_free in Hs. simpl in Hs. apply andb_prop in Hs as [Hc Hf].
    simpl. destruct f; [apply negb_true_iff, Hc|]. apply IH, Hf.
  - rewrite string_app_cons. simpl.
    destruct (a +:+ f) eqn:E; [|exact IH].
    destruct a; [|discriminate E]. rewrite string_app_nil_l in E.
    subst f. discriminate Ht.
Qed.

Lemma join_with_snoc_truthy (l : list string) (f : string) :
  truthy_string f = true -> truthy_string (join_with "/" (l ++ [f])) = true.
Proof.
  intros Hf. induction l as [|x l IH]; [exact Hf|].
  cbn [app]. rewrite join_with_cons.
  destruct (l ++ [f]) eqn:E; [destruct l; discriminate E|].
  destruct x; reflexivity.
Qed.

(** Joining a plain name to a directory appends one segment. *)
Lemma join_plain (d f : string) :
  plain f = true ->
  join d f = spell ((locate d).1, (locate d).2 ++ [f]).
Proof.
  intros Hf. destruct (plain_facts f Hf) as (Ht & _ & _ & _ & Hs).
  assert (Hseg : forall allow res l,
            fold_left (normalize_step allow) (l ++ [f]) res
            = fold_left (normalize_step allow) l res ++ [f]).
  { intros allow res l. rewrite fold_left_app. simpl.
    apply plain_step, Hf. }
  unfold join. rewrite Ht.
  destruct d as [|c d].
  - cbn [truthy_string]. rewrite Ht. unfold normalize. rewrite Ht.
    assert (Ha : isAbsolute f = false).
    { destruct f as [|x f]; [reflexivity|]. unfold slash_free in Hs.
      simpl in Hs. apply andb_prop in Hs as [Hx _].
      apply negb_true_iff in Hx. exact Hx. }
    rewrite Ha. cbn [negb].
    unfold normalize_segments. rewrite (split_slash_free f Hs).
    cbn [fold_left]. rewrite (plain_step true [] f Hf). cbn [app join_with].
    rewrite Ht.
    pose proof (ends_with_slash_app "" f Ht Hs) as He.
    rewrite string_app_nil_l in He. rewrite He. reflexivity.
  - cbn [truthy_string].
    set (dd := String c d).
    assert (Hj : truthy_string (dd +:+ "/" +:+ f) = true) by reflexivity.
    rewrite Hj. unfold normalize. rewrite Hj.
    assert (Ha : isAbsolute (dd +:+ "/" +:+ f) = isAbsolute dd) by reflexivity.
    rewrite Ha.
    assert (He : ends_with_slash (dd +:+ "/" +:+ f) = false).
    { rewrite <- string_app_assoc. apply ends_with_slash_app; assumption. }
    rewrite He. unfold normalize_segments. rewrite split_slash_app.
    rewrite (split_slash_free f Hs), Hseg.
    rewrite join_with_snoc_truthy by exact Ht.
    unfold spell, locate, normalize_segments. cbn [fst snd].
    destruct (isAbsolute dd); [reflexivity|].
    destruct (fold_left (normalize_step (negb false)) (split_slash dd) []);
      reflexivity.
Qed.

Lemma locate_join (d f : string) :
  plain f = true ->
  locate (join d f) = ((locate d).1, (locate d).2 ++ [f]).
Proof.
  intros Hf. rewrite (join_plain d f Hf). apply locate_spell.
  unfold normal_location. cbn [fst snd].
  apply normal_snoc; [apply locate_normal|exact Hf].
Qed.

Lemma canonical_join (d f : string) :
  plain f = true -> canonical (join d f) = join d f.
Proof.
  intros Hf. unfold canonical. rewrite (locate_join d f Hf).
  symmetry. apply join_plain, Hf.
Qed.

Lemma parent_join (d f : string) :
  plain f = true -> parent (locate (join d f)) = locate d.
Proof.
  intros Hf. rewrite (locate_join d f Hf). unfold parent. cbn [fst snd].
  rewrite removelast_last. destruct (locate d); reflexivity.
Qed.

Lemma under_refl (d : string) : under d d = true.
Proof.
  unfold under. cbn zeta. rewrite eqb_reflx, firstn_all.
  rewrite bool_decide_eq_true_2 by reflexivity.
  rewrite drop_all. reflexivity.
Qed.

Lemma under_canonical (d p : string) : under d (canonical p) = under d p.
Proof.
  unfold under, canonical. rewrite locate_spell by apply locate_normal.
  reflexivity.
Qed.

Lemma under_join (d f : string) : plain f = true -> under d (join d f) = true.
Proof.
  intros Hf. unfold under. cbn zeta. rewrite (locate_join d f Hf).
  cbn [fst snd]. rewrite eqb_reflx, take_app_length, drop_app_length.
  rewrite bool_decide_eq_true_2 by reflexivity. cbn [head andb].
  destruct (plain_facts f Hf) as (_ & _ & _ & H2 & _).
  rewrite bool_decide_eq_false_2; [reflexivity|].
  intros [= ->]. discriminate H2.
Qed.

Lemma join_inj (d a b : string) :
  plain a = true -> plain b = true -> join d a = join d b -> a = b.
Proof.
  intros Ha Hb H. apply (f_equal locate) in H.
  rewrite (locate_join d a Ha), (locate_join d b Hb) in H.
  injection H as H. apply app_inj_tail in H as [_ H]. exact H.
Qed.

Lemma slash_free_digits (s : string) :
  Forall (fun c => is_digit c = true) (string_to_list s) ->
  slash_free s = true.
Proof.
  intros H. apply string_forall_list. eapply Forall_impl; [exact H|].
  intros c Hc. cbn beta.
  destruct (is_slash c) eqn:E; [|reflexivity].
  apply Ascii.eqb_eq in E. subst c. discriminate Hc.
Qed.

Lemma slash_free_app (a b : string) :
  slash_free (a +:+ b) = slash_free a && slash_free b.
Proof. apply string_forall_app. Qed.

(** A slash-free name that ends in an extension is plain. *)
Lemma plain_with_extension (a ext : string) :
  slash_free a = true -> slash_free ext = true ->
  (3 <= String.length ext)%nat -> plain (a +:+ ext) = true.
Proof.
  intros Ha He Hl. unfold plain.
  rewrite slash_free_app, Ha, He.
  assert (Hlen : (3 <= String.length (a +:+ ext))%nat)
    by (rewrite string_length_app; lia).
  destruct (a +:+ ext) as [|c1 [|c2 [|c3 s]]]; simpl in Hlen; try lia.
  cbn [truthy_string andb].
  rewrite !andb_true_r.
  assert (H1 : String.eqb (String c1 (String c2 (String c3 s))) "." = false).
  { apply String.eqb_neq. intros H. apply (f_equal String.length) in H.
    simpl in H. lia. }
  assert (H2 : String.eqb (String c1 (String c2 (String c3 s))) ".." = false).
  { apply String.eqb_neq. intros H. apply (f_equal String.length) in H.
    simpl in H. lia. }
  rewrite H1, H2. reflexivity.
Qed.

Lemma frame_file_plain (i : nat) : plain (frame_file i) = true.
Proof.
  unfold frame_file. rewrite <- string_app_assoc.
  apply plain_with_extension; [|reflexivity|simpl; lia].
  rewrite slash_free_app. apply andb_true_iff. split; [reflexivity|].
  apply slash_free_digits, pretty_nat_digits.
Qed.

Section DedupFacts.

Variable sha1_hex : Buffer -> string.
Variable delay : number.

Local Abbreviation step := (dedup_step sha1_hex delay).
Local Abbreviation from_entry := (dedup_from sha1_hex delay).

Lemma alter_last_snoc {A : Type} (f : A -> A) (acc : list A) (x : A) :
  alter f (length (acc ++ [x]) - 1) (acc ++ [x]) = acc ++ [f x].
Proof.
  rewrite length_app; simpl.
  replace (length acc + 1 - 1) with (length acc + 0) by lia.
  induction acc as [|a acc IH]; simpl; [reflexivity|].
  f_equal. exact IH.
Qed.

Lemma fold_dedup_from (frames : list Buffer) :
  forall acc cur,
    fold_left step frames (acc ++ [cur]) = acc ++ from_entry cur frames.
Proof.
  induction frames as [|b rest IH]; intros acc cur; simpl; [reflexivity|].
  unfold dedup_step at 2. rewrite last_snoc.
  destruct (String.eqb (sha1_hex b) (hash cur)).
  - rewrite alter_last_snoc. apply IH.
  - rewrite (IH (acc ++ [cur])). rewrite <- app_assoc. reflexivity.
Qed.

Lemma dedup_cons (b : Buffer) (rest : list Buffer) :
  dedup sha1_hex delay (b :: rest) =
  from_entry {| buf := b; duration := delay; hash := sha1_hex b |} rest.
Proof.
  unfold dedup. simpl. unfold dedup_step at 2. simpl.
  apply (fold_dedup_from rest []).
Qed.

Lemma dedup_from_hash_hd cur frames :
  exists f tl, from_entry cur frames = f :: tl /\ hash f = hash cur.
Proof.
  revert cur. induction frames as [|b rest IH]; intros cur; simpl.
  - eauto.
  - destruct (String.eqb (sha1_hex b) (hash cur)).
    + destruct (IH (set_duration (duration cur + delay)%Q cur))
        as (f & tl & -> & Hf). eauto.
    + eauto.
Qed.

Lemma dedup_from_adjacent cur frames :
  adj_distinct (map hash (from_entry cur frames)).
Proof.
  revert cur. induction frames as [|b rest IH]; intros cur; simpl.
  - auto.
  - destruct (String.eqb (sha1_hex b) (hash cur)) eqn:E.
    + apply IH.
    + simpl. split; [|apply IH].
      destruct (dedup_from_hash_hd
                  {| buf := b; duration := delay; hash := sha1_hex b |} rest)
        as (f & tl & -> & Hf).
      simpl. rewrite Hf. simpl.
      apply String.eqb_neq in E. congruence.
Qed.

Lemma dedup_from_length_le cur frames :
  length (from_entry cur frames) <= S (length frames).
Proof.
  revert cur. induction frames as [|b rest IH]; intros cur; simpl; [lia|].
  destruct (String.eqb (sha1_hex b) (hash cur)).
  - specialize (IH (set_duration (duration cur + delay)%Q cur)). lia.
  - simpl.
    specialize (IH {| buf := b; duration := delay; hash := sha1_hex b |}).
    lia.
Qed.

Lemma dedup_from_length_eq cur frames :
  length (from_entry cur frames) = S (length frames) <->
  adj_distinct (hash cur :: map sha1_hex frames).
Proof.
  revert cur. induction frames as [|b rest IH]; intros cur.
  - simpl. tauto.
  - cbn [dedup_from].
    destruct (String.eqb (sha1_hex b) (hash cur)) eqn:E.
    + apply String.eqb_eq in E. split.
      * intros H.
        pose proof (dedup_from_length_le
                      (set_duration (duration cur + delay)%Q cur) rest).
        simpl in H. lia.
      * simpl. intros [H _]. congruence.
    + apply String.eqb_neq in E.
      specialize (IH {| buf := b; duration := delay; hash := sha1_hex b |}).
      cbn [length map]. cbn [hash] in IH.
      split.
      * intros H. split; [congruence|]. apply IH. lia.
      * intros [_ H]. apply IH in H. lia.
Qed.

Local Abbreviation entry := (run_entry sha1_hex delay).
Local Abbreviation cut_from := (runs_from sha1_hex).
Local Abbreviation cut := (runs sha1_hex).

Lemma accumulated_succ n :
  accumulated delay (S (S n)) = (accumulated delay (S n) + delay)%Q.
Proof. reflexivity. Qed.

Lemma accumulated_mult n :
  (accumulated delay n == delay * inject_Z (Z.of_nat n))%Q.
Proof.
  induction n as [|[|n] IH].
  - simpl. ring.
  - simpl. unfold inject_Z. simpl. ring.
  - rewrite accumulated_succ, IH.
    rewrite (Nat2Z.inj_succ (S n)). unfold Z.succ.
    rewrite inject_Z_plus. ring.
Qed.

Lemma dedup_from_runs rest :
  forall first more,
    from_entry (entry (first :: more)) rest =
    map entry (cut_from first more rest).
Proof.
  induction rest as [|b rest IH]; intros first more; [reflexivity|].
  cbn [dedup_from runs_from].
  cbn [hash run_entry List.hd].
  destruct (String.eqb (sha1_hex b) (sha1_hex first)).
  - rewrite <- IH. f_equal.
    unfold run_entry, set_duration. cbn [buf hash duration List.hd].
    f_equal. cbn [length]. rewrite length_app. cbn [length].
    rewrite Nat.add_1_r. reflexivity.
  - cbn [map]. f_equal. apply (IH b []).
Qed.

(** The loop computes one entry per run, in order. *)
Lemma dedup_runs frames :
  dedup sha1_hex delay frames = map entry (cut frames).
Proof.
  destruct frames as [|b rest]; [reflexivity|].
  rewrite dedup_cons. apply (dedup_from_runs rest b []).
Qed.

(** [cut] cuts the sequence: nothing is lost, nothing reordered. *)
Lemma runs_from_concat rest :
  forall first more,
    concat (cut_from first more rest) = first :: more ++ rest.
Proof.
  induction rest as [|b rest IH]; intros first more; simpl.
  - rewrite !app_nil_r. reflexivity.
  - destruct (String.eqb (sha1_hex b) (sha1_hex first)).
    + rewrite IH. rewrite <- app_assoc. reflexivity.
    + simpl. rewrite IH. simpl. reflexivity.
Qed.

Lemma runs_concat frames : concat (cut frames) = frames.
Proof.
  destruct frames as [|b rest]; [reflexivity|].
  simpl. apply (runs_from_concat rest b []).
Qed.

Lemma runs_from_uniform rest :
  forall first more,
    Forall (fun x => sha1_hex x = sha1_hex first) more ->
    Forall (uniform_run sha1_hex) (cut_from first more rest).
Proof.
  induction rest as [|b rest IH]; intros first more Hm; simpl.
  - constructor; [|constructor]. split; [discriminate|].
    constructor; [reflexivity|exact Hm].
  - destruct (String.eqb (sha1_hex b) (sha1_hex first)) eqn:E.
    + apply IH. apply Forall_app. split; [exact Hm|].
      constructor; [|constructor]. apply String.eqb_eq. exact E.
    + constructor.
      * split; [discriminate|]. constructor; [reflexivity|exact Hm].
      * apply IH. constructor.
Qed.

Lemma runs_uniform frames : Forall (uniform_run sha1_hex) (cut frames).
Proof.
  destruct frames as [|b rest]; [constructor|].
  apply runs_from_uniform. constructor.
Qed.

(** Runs are maximal: neighbouring cut have different hashes. *)
Lemma runs_maximal frames :
  adj_distinct (map (fun g => sha1_hex (List.hd [] g)) (cut frames)).
Proof.
  destruct frames as [|b rest]; [exact I|].
  pose proof (dedup_from_adjacent
                {| buf := b; duration := delay; hash := sha1_hex b |} rest)
    as H.
  change {| buf := b; duration := delay; hash := sha1_hex b |}
    with (entry [b]) in H.
  rewrite dedup_from_runs in H. rewrite map_map in H. exact H.
Qed.

Lemma dedup_length_le frames :
  length (dedup sha1_hex delay frames) <= length frames.
Proof.
  destruct frames as [|b rest]; [reflexivity|].
  rewrite dedup_cons. apply dedup_from_length_le.
Qed.

Lemma dedup_length_eq frames :
  length (dedup sha1_hex delay frames) = length frames <->
  adj_distinct (map sha1_hex frames).
Proof.
  destruct frames as [|b rest]; [simpl; tauto|].
  rewrite dedup_cons. apply dedup_from_length_eq.
Qed.

Lemma dedup_adjacent frames :
  adj_distinct (map hash (dedup sha1_hex delay frames)).
Proof.
  destruct frames as [|b rest]; [exact I|].
  rewrite dedup_cons. apply dedup_from_adjacent.
Qed.

Lemma dedup_nonempty frames :
  frames <> [] -> dedup sha1_hex delay frames <> [].
Proof.
  destruct frames as [|b rest]; [congruence|]. intros _.
  rewrite dedup_cons.
  destruct (dedup_from_hash_hd
              {| buf := b; duration := delay; hash := sha1_hex b |} rest)
    as (f & tl & -> & _).
  discriminate.
Qed.

(** Stamping the end delay touches neither the number of entries nor
    their hashes. *)
Lemma alter_set_duration_hash (g : UniqueFrame -> number) i l :
  map hash (alter (fun f => set_duration (g f) f) i l) = map hash l.
Proof.
  revert i. induction l as [|x l IH]; intros [|i]; simpl; try reflexivity.
  f_equal. apply IH.
Qed.

Lemma applyEndDelay_length endDelay l :
  length (applyEndDelay endDelay l) = length l.
Proof.
  unfold applyEndDelay. destruct endDelay as [e|]; [|reflexivity].
  destruct (truthy_number e && (0 <? length l)%nat); [|reflexivity].
  apply length_alter.
Qed.

Lemma applyEndDelay_hash endDelay l :
  map hash (applyEndDelay endDelay l) = map hash l.
Proof.
  unfold applyEndDelay. destruct endDelay as [e|]; [|reflexivity].
  destruct (truthy_number e && (0 <? length l)%nat); [|reflexivity].
  apply (alter_set_duration_hash (fun _ => e)).
Qed.

Lemma consecutive_hashes frames :
  adj_distinct (map sha1_hex frames) ->
  no_consecutive_identical frames.
Proof.
  intros H i a b Ha Hb Hab. rewrite adj_distinct_lookup in H.
  apply (H i (sha1_hex a) (sha1_hex b)).
  - rewrite list_lookup_fmap, Ha. reflexivity.
  - rewrite list_lookup_fmap, Hb. reflexivity.
  - congruence.
Qed.

Lemma consecutive_identical frames :
  no_consecutive_collision sha1_hex frames ->
  no_consecutive_identical frames ->
  adj_distinct (map sha1_hex frames).
Proof.
  intros Hc Hn. apply adj_distinct_lookup. intros i x y Hx Hy Hxy.
  rewrite list_lookup_fmap in Hx, Hy.
  destruct (frames !! i) as [a|] eqn:Ea; [|discriminate].
  destruct (frames !! S i) as [b|] eqn:Eb; [|discriminate].
  simpl in Hx, Hy. injection Hx as <-. injection Hy as <-.
  apply (Hn i a b Ea Eb). apply (Hc i a b Ea Eb Hxy).
Qed.

End DedupFacts.

(** [path.normalize], [path.join] and the reading of paths on some inputs,
    the first one from the documentation of Node. *)
Example path_examples :
  normalize "/foo/bar//baz/asdf/quux/.." = "/foo/bar/baz/asdf"
  /\ normalize "" = "." /\ normalize "./" = "./" /\ normalize "a/../.." = ".."
  /\ normalize "/.." = "/" /\ normalize "out/" = "out/"
  /\ join "out/" "a.png" = "out/a.png" /\ join "out" "../x" = "x"
  /\ join "" "a" = "a" /\ join "" "" = "." /\ join "/tmp" "webp-1" = "/tmp/webp-1"
  /\ canonical "out/" = "out" /\ canonical "./out//shots/." = "out/shots"
  /\ under "out/" "out/a.png" = true /\ under "out" "outside/a.png" = false
  /\ under "out" "out" = true /\ under "a/b" "a" = false
  /\ under "out" "out/../x" = false /\ under "." ".." = false.
Proof. repeat split. Qed.

(** ** The effect monad *)

Section MonadFacts.

Lemma emits_mono {A : Type} (P Q : Event -> Prop) (m : M A) :
  (forall e, P e -> Q e) -> emits P m -> emits Q m.
Proof.
  intros HPQ Hm w. destruct (Hm w) as (evs & Ht & HP).
  exists evs. split; [exact Ht|]. eapply Forall_impl; eauto.
Qed.

Lemma emits_ret {A : Type} P (a : A) : emits P (ret a).
Proof. intros w. exists []. simpl. rewrite app_nil_r. auto. Qed.

Lemma emits_throw {A : Type} P e : emits P (@throw A e).
Proof. intros w. exists []. simpl. rewrite app_nil_r. auto. Qed.

Lemma emits_bind {A B : Type} P (m : M A) (k : A -> M B) :
  emits P m -> (forall a, emits P (k a)) -> emits P (bind m k).
Proof.
  intros Hm Hk w. unfold bind.
  destruct (Hm w) as (evs1 & Ht1 & HP1).
  destruct (m w) as [[a|e] w1]; simpl in *.
  - destruct (Hk a w1) as (evs2 & Ht2 & HP2).
    exists (evs1 ++ evs2). rewrite Ht2, Ht1, app_assoc.
    split; [reflexivity|]. apply Forall_app; auto.
  - exists evs1. auto.
Qed.

Lemma emits_try_catch {A : Type} P (m : M A) (h : Error -> M A) :
  emits P m -> (forall e, emits P (h e)) -> emits P (try_catch m h).
Proof.
  intros Hm Hh w. unfold try_catch.
  destruct (Hm w) as (evs1 & Ht1 & HP1).
  destruct (m w) as [[a|e] w1]; simpl in *.
  - exists evs1. auto.
  - destruct (Hh e w1) as (evs2 & Ht2 & HP2).
    exists (evs1 ++ evs2). rewrite Ht2, Ht1, app_assoc.
    split; [reflexivity|]. apply Forall_app; auto.
Qed.

Lemma emits_emit (P : Event -> Prop) ev : P ev -> emits P (emit ev).
Proof. intros H w. exists [ev]. simpl. auto. Qed.

Lemma emits_tick P : emits P tick.
Proof. intros w. exists []. simpl. rewrite app_nil_r. auto. Qed.

Lemma emits_get_world P : emits P get_world.
Proof. intros w. exists []. simpl. rewrite app_nil_r. auto. Qed.

Lemma emits_set_fs P fs ds : emits P (set_fs fs ds).
Proof. intros w. exists []. simpl. rewrite app_nil_r. auto. Qed.

Lemma emits_lift_outcome {A : Type} P (o : outcome A) :
  emits P (lift_outcome o).
Proof. destruct o; [apply emits_ret | apply emits_throw]. Qed.

Lemma emits_existsSync P path : emits P (existsSync path).
Proof.
  apply emits_bind; [apply emits_get_world|]. intros w. apply emits_ret.
Qed.

Lemma emits_mkdir (P : Event -> Prop) path :
  P (EvMkdir path) -> emits P (mkdir path).
Proof.
  intros H. apply emits_bind; [apply emits_emit, H|]. intros _.
  apply emits_bind; [apply emits_get_world|]. intros w. apply emits_set_fs.
Qed.

Lemma emits_writeFile (P : Event -> Prop) path data :
  P (EvWriteFile path data) -> emits P (writeFile path data).
Proof.
  intros H. apply emits_bind; [apply emits_emit, H|]. intros _.
  apply emits_bind; [apply emits_get_world|]. intros w. cbv zeta.
  destruct (is_dir w _); [apply emits_set_fs|].
  destruct (existsb _ _); apply emits_throw.
Qed.

Lemma emits_readFile (P : Event -> Prop) path :
  P (EvReadFile path) -> emits P (readFile path).
Proof.
  intros H. apply emits_bind; [apply emits_emit, H|]. intros _.
  apply emits_bind; [apply emits_get_world|]. intros w.
  destruct (files w !! canonical path); [apply emits_ret | apply emits_throw].
Qed.

Lemma emits_rm (P : Event -> Prop) path :
  P (EvRm path) -> emits P (rm path).
Proof.
  intros H. apply emits_bind; [apply emits_emit, H|]. intros _.
  apply emits_bind; [apply emits_get_world|]. intros w. apply emits_set_fs.
Qed.

Lemma rm_run (path : string) (w : World) :
  rm path w =
  (Return tt,
   {| files := filter (fun kv => under path kv.1 = false) (files w);
      dirs := filter (fun d => under path d = false) (dirs w);
      screenshotModule := screenshotModule w; clock := clock w;
      trace := trace w ++ [EvRm path] |}).
Proof. reflexivity. Qed.

(** [rm] leaves nothing in or below its argument. *)
Lemma rm_absent_below path w : absent_below path (rm path w).2.
Proof.
  intros p Hp. cbn. split.
  - apply map_lookup_filter_None. right. intros x _. simpl. congruence.
  - rewrite elem_of_filter. intros [H _]. congruence.
Qed.

(** *** Directories and the files written into them *)

Lemma is_dir_mono (w w' : World) (l : Location) :
  dirs w ⊆ dirs w' -> is_dir w l = true -> is_dir w' l = true.
Proof.
  unfold is_dir. intros Hsub H. apply orb_true_iff in H as [H|H].
  - rewrite H. reflexivity.
  - apply bool_decide_eq_true in H. apply orb_true_iff. right.
    apply bool_decide_eq_true, Hsub, H.
Qed.

Lemma inits_self {A : Type} (l : list A) : l ∈ inits l.
Proof.
  induction l as [|x l IH]; simpl; [apply list_elem_of_here|].
  apply list_elem_of_further, list_elem_of_fmap_2, IH.
Qed.

Lemma inits_prefix {A : Type} (l pre : list A) :
  pre ∈ inits l -> exists rest, l = pre ++ rest.
Proof.
  revert pre. induction l as [|x l IH]; simpl; intros pre H.
  - apply list_elem_of_singleton in H as ->. exists []. reflexivity.
  - apply elem_of_cons in H as [->|H]; [exists (x :: l); reflexivity|].
    apply list_elem_of_fmap in H as (pre' & -> & H).
    destruct (IH _ H) as (rest & ->). exists rest. reflexivity.
Qed.

Lemma normal_segments_prefix allow (pre rest : list string) :
  normal_segments allow (pre ++ rest) -> normal_segments allow pre.
Proof.
  intros (k & r & E & Hr & Hk).
  assert (Hpre : pre = take (length pre) (replicate k ".." ++ r)).
  { rewrite <- E, take_app_length. reflexivity. }
  rewrite take_app, take_replicate, length_replicate in Hpre.
  exists (length pre `min` k)%nat, (take (length pre - k) r).
  split; [exact Hpre|]. split; [apply Forall_take, Hr|].
  intros H. rewrite (Hk H). lia.
Qed.

Lemma implicit_replicate (abs : bool) (k : nat) :
  implicit (abs, replicate k "..") = true.
Proof. unfold implicit. cbn [snd]. induction k; simpl; auto. Qed.

(** [mkdir] with [recursive] makes the directory and directories it lies
    in, nothing else. *)
Lemma made_by_mkdir_above (dir d : string) :
  d ∈ made_by_mkdir dir -> under d dir = true /\ canonical d = d.
Proof.
  unfold made_by_mkdir. rewrite elem_of_list_to_set.
  intros H. apply list_elem_of_fmap in H as (a & -> & H).
  unfold chain in H. apply list_elem_of_filter in H as [Hi H].
  apply list_elem_of_fmap in H as (pre & -> & H).
  apply inits_prefix in H as (rest & E).
  pose proof (locate_normal dir) as Hn. unfold normal_location in Hn.
  rewrite E in Hn.
  assert (Ha : locate (spell ((locate dir).1, pre)) = ((locate dir).1, pre)).
  { apply locate_spell. eapply normal_segments_prefix, Hn. }
  split; [|unfold canonical; rewrite Ha; reflexivity].
  unfold under. cbn zeta. rewrite Ha. cbn [fst snd].
  rewrite eqb_reflx, E, take_app_length, drop_app_length.
  rewrite bool_decide_eq_true_2 by reflexivity. cbn [andb].
  apply negb_true_iff, bool_decide_eq_false_2. intros Hh.
  destruct Hn as (k & r & E' & Hr & _).
  destruct (decide (length pre <= k)%nat) as [Hle|Hgt].
  - assert (Hpre : pre = take (length pre) (replicate k ".." ++ r)).
    { rewrite <- E', take_app_length. reflexivity. }
    rewrite take_app, take_replicate, length_replicate in Hpre.
    replace (length pre - k)%nat with 0%nat in Hpre by lia.
    rewrite take_0, app_nil_r in Hpre.
    rewrite Hpre, implicit_replicate in Hi. discriminate.
  - assert (Hrest : rest = drop (length pre) (replicate k ".." ++ r)).
    { rewrite <- E', drop_app_length. reflexivity. }
    rewrite drop_app, length_replicate, drop_replicate in Hrest.
    replace (k - length pre)%nat with 0%nat in Hrest by lia.
    cbn [replicate app] in Hrest.
    destruct rest as [|x rest]; [discriminate|]. cbn [head] in Hh.
    injection Hh as ->.
    assert (Hx : plain ".." = true).
    { pose proof (Forall_drop _ (length pre - k) _ Hr) as Hd.
      rewrite <- Hrest in Hd. exact (Forall_inv Hd). }
    discriminate.
Qed.

Lemma mkdir_run (path : string) (w : World) :
  mkdir path w =
  (Return tt,
   {| files := files w; dirs := made_by_mkdir path ∪ dirs w;
      screenshotModule := screenshotModule w; clock := clock w;
      trace := trace w ++ [EvMkdir path] |}).
Proof. reflexivity. Qed.

(** After [mkdir] the path is a directory. *)
Lemma mkdir_is_dir (path : string) (w : World) :
  is_dir (mkdir path w).2 (locate path) = true.
Proof.
  rewrite mkdir_run. unfold is_dir. cbn [snd dirs].
  destruct (implicit (locate path)) eqn:E; [reflexivity|].
  apply bool_decide_eq_true, elem_of_union_l.
  unfold made_by_mkdir. apply elem_of_list_to_set.
  apply (list_elem_of_fmap_2 spell). unfold chain.
  apply list_elem_of_filter. split; [exact E|].
  destruct (locate path) as [abs segs]. cbn [fst snd].
  apply (list_elem_of_fmap_2 (pair abs)), inits_self.
Qed.

(** Writing a plain name into a directory that is there. *)
Lemma writeFile_run (d f : string) (data : Buffer) (w : World) :
  plain f = true -> is_dir w (locate d) = true ->
  writeFile (join d f) data w =
  (Return tt,
   {| files := <[join d f := data]> (files w); dirs := dirs w;
      screenshotModule := screenshotModule w; clock := clock w;
      trace := trace w ++ [EvWriteFile (join d f) data] |}).
Proof.
  intros Hf Hd. cbv [writeFile bind emit get_world set_fs].
  rewrite (parent_join d f Hf).
  change (spell (locate (join d f))) with (canonical (join d f)).
  rewrite (canonical_join d f Hf).
  unfold is_dir in *. cbn [dirs files screenshotModule clock trace].
  rewrite Hd. reflexivity.
Qed.

(** Writing where the directory is missing fails and stores nothing. *)
Lemma writeFile_refused (path : string) (data : Buffer) (w : World) :
  is_dir w (parent (locate path)) = false ->
  exists e,
    writeFile path data w =
    (Throw e,
     {| files := files w; dirs := dirs w;
        screenshotModule := screenshotModule w; clock := clock w;
        trace := trace w ++ [EvWriteFile path data] |}).
Proof.
  intros Hd. cbv [writeFile bind emit get_world set_fs throw].
  unfold is_dir in *. cbn [dirs files screenshotModule clock trace].
  rewrite Hd. destruct (existsb _ _); eauto.
Qed.

(** Writing into what is a regular file, not a directory, fails so. *)
Lemma writeFile_below_file (d f : string) (data : Buffer) (w : World) :
  plain f = true ->
  is_dir w (locate d) = false -> is_file w (locate d) = true ->
  writeFile (join d f) data w =
  (Throw (ENOTDIR (join d f)),
   {| files := files w; dirs := dirs w;
      screenshotModule := screenshotModule w; clock := clock w;
      trace := trace w ++ [EvWriteFile (join d f) data] |}).
Proof.
  intros Hf Hd Hfile. cbv [writeFile bind emit get_world set_fs throw].
  rewrite (locate_join d f Hf). unfold parent. cbn [fst snd].
  rewrite removelast_last.
  destruct (locate d) as [abs segs]. cbn [fst snd].
  unfold is_dir, is_file in *. cbn [dirs files] in *. rewrite Hd.
  assert (He : existsb
                 (fun l => bool_decide (is_Some (files w !! spell l)))
                 (map (pair abs) (inits segs)) = true).
  { apply existsb_exists. exists (abs, segs). split; [|exact Hfile].
    apply in_map, list_elem_of_In, inits_self. }
  rewrite He. reflexivity.
Qed.

End MonadFacts.

(** ** Claims on the deduplication pass *)

(** C1.  For every frame sequence the assembler keeps at most as many runs
    as there are frames; it keeps exactly as many only if no two consecutive
    frames are byte-identical, and (when no two consecutive frames collide
    under SHA-1) whenever no two consecutive frames are byte-identical; the
    content hashes of two adjacent runs always differ. *)
Theorem dedup_run_count (sha1_hex : Buffer -> string) (frames : list Buffer)
    (delay : number) (endDelay : option number) :
  let kept := uniqueFramesOf sha1_hex frames delay endDelay in
  length kept <= length frames
  /\ (length kept = length frames -> no_consecutive_identical frames)
  /\ (no_consecutive_collision sha1_hex frames ->
      no_consecutive_identical frames -> length kept = length frames)
  /\ (forall i r1 r2,
        kept !! i = Some r1 -> kept !! (S i) = Some r2 -> hash r1 <> hash r2).
Proof.
  cbv zeta. unfold uniqueFramesOf. rewrite applyEndDelay_length.
  repeat split.
  - apply dedup_length_le.
  - intros H. apply (consecutive_hashes sha1_hex).
    apply (dedup_length_eq sha1_hex delay). exact H.
  - intros Hc Hn. apply (dedup_length_eq sha1_hex delay).
    apply consecutive_identical; assumption.
  - intros i r1 r2 H1 H2.
    pose proof (dedup_adjacent sha1_hex delay frames) as Hadj.
    rewrite <- (applyEndDelay_hash endDelay) in Hadj.
    rewrite adj_distinct_lookup in Hadj.
    apply (Hadj i); rewrite list_lookup_fmap.
    + rewrite H1. reflexivity.
    + rewrite H2. reflexivity.
Qed.

Lemma dedup_run_count_witness :
  length (uniqueFramesOf toy_digest
            [[Byte.x00]; [Byte.x01; Byte.x02]] 100%Q (Some 4000%Q)) = 2%nat
  /\ no_consecutive_identical [[Byte.x00]; [Byte.x01; Byte.x02]].
Proof.
  pose proof (dedup_run_count toy_digest
                [[Byte.x00]; [Byte.x01; Byte.x02]] 100%Q (Some 4000%Q))
    as (_ & Honly & Hif & _).
  assert (Hn : no_consecutive_identical [[Byte.x00]; [Byte.x01; Byte.x02]]).
  { intros [|[|i]] a b Ha Hb; simpl in Ha, Hb; try discriminate.
    injection Ha as <-. injection Hb as <-. discriminate. }
  assert (Hc : no_consecutive_collision toy_digest
                 [[Byte.x00]; [Byte.x01; Byte.x02]]).
  { intros [|[|i]] a b Ha Hb; simpl in Ha, Hb; try discriminate.
    injection Ha as <-. injection Hb as <-. vm_compute. discriminate. }
  split; [exact (Hif Hc Hn) | exact (Honly (Hif Hc Hn))].
Defined.

Lemma last_alter_last {A : Type} (f : A -> A) (l : list A) :
  last (alter f (length l - 1) l) = f <$> last l.
Proof.
  destruct l as [|x l] using rev_ind; [reflexivity|].
  rewrite alter_last_snoc, !last_snoc. reflexivity.
Qed.

(** Three frames, the first two alike: two runs; the first lasts two base
    delays, the last the end delay. *)
Example dedup_collapses_duplicates :
  map (fun f => (buf f, duration f))
      (uniqueFramesOf toy_digest
         [[Byte.x00]; [Byte.x00]; [Byte.x01; Byte.x02]] 100%Q (Some 4000%Q))
  = [([Byte.x00], (100 + 100)%Q); ([Byte.x01; Byte.x02], 4000%Q)].
Proof. reflexivity. Qed.

(** ** Claims on the interval policy *)

(** C3.  The sampling interval is 2 seconds when the output is not an
    animated asset on disk (no directory, or format png); otherwise 0.1 for
    a duration of at most 5, 0.2 above 5 and up to 10, 0.5 above 10. *)
Theorem screencast_interval_policy :
  (forall d, decideScreencastInterval d false = 2%Q)
  /\ (forall d, (d <= 5)%Q -> decideScreencastInterval d true = 0.1%Q)
  /\ (forall d, (5 < d)%Q -> (d <= 10)%Q ->
        decideScreencastInterval d true = 0.2%Q)
  /\ (forall d, (10 < d)%Q -> decideScreencastInterval d true = 0.5%Q)
  /\ decideScreencastInterval 5 true = 0.1%Q
  /\ decideScreencastInterval 10 true = 0.2%Q
  /\ decideScreencastInterval 11 true = 0.5%Q
  /\ (forall args,
        cast_interval (screencastOptions args) =
        decideScreencastInterval (nullish (duration_arg args) 10%Q)
                                 (willPersistAsAnimation args))
  /\ (forall args,
        truthy_opt_string (directory args) = false \/ format args = Some "png" ->
        willPersistAsAnimation args = false)
  /\ (forall args,
        truthy_opt_string (directory args) = true ->
        format args = None \/ format args = Some "webp" ->
        willPersistAsAnimation args = true).
Proof.
  assert (Hle : forall a b, (a <= b)%Q -> Qle_bool a b = true)
    by (intros a b; apply Qle_bool_iff).
  assert (Hgt : forall a b, (b < a)%Q -> Qle_bool a b = false).
  { intros a b H. destruct (Qle_bool a b) eqn:E; [|reflexivity].
    apply Qle_bool_iff in E. exfalso. eapply Qlt_not_le; eauto. }
  repeat split; try reflexivity.
  - intros d H. unfold decideScreencastInterval. rewrite (Hle _ _ H).
    reflexivity.
  - intros d H5 H10. unfold decideScreencastInterval.
    rewrite (Hgt _ _ H5), (Hle _ _ H10). reflexivity.
  - intros d H. unfold decideScreencastInterval.
    rewrite (Hgt d 10%Q H).
    rewrite (Hgt d 5%Q); [reflexivity|].
    eapply Qlt_trans; [|exact H]. reflexivity.
  - intros args [H | H]; unfold willPersistAsAnimation.
    + rewrite H. reflexivity.
    + rewrite H. simpl. apply andb_false_r.
  - intros args Hd [H | H]; unfold willPersistAsAnimation;
      rewrite Hd, H; reflexivity.
Qed.

Lemma screencast_interval_policy_witness :
  decideScreencastInterval 3 true = 0.1%Q
  /\ decideScreencastInterval 7.5 true = 0.2%Q
  /\ decideScreencastInterval 60 true = 0.5%Q.
Proof.
  pose proof screencast_interval_policy as (_ & H5 & H10 & Hbig & _).
  split; [|split].
  - apply H5. discriminate.
  - apply H10; [reflexivity | discriminate].
  - apply Hbig. reflexivity.
Defined.

(** ** The assembler, step by step *)

Section AssemblerFacts.

Variable host : Host.

Lemma frame_writes_cons tempDir i f (rest : list UniqueFrame) :
  frame_writes tempDir i (f :: rest)
  = EvWriteFile (join tempDir (frame_file i)) (buf f)
    :: frame_writes tempDir (S i) rest.
Proof.
  unfold frame_writes. cbn [imap]. rewrite Nat.add_0_r. f_equal.
  apply imap_ext. intros k x _. cbn. rewrite Nat.add_succ_r. reflexivity.
Qed.

Lemma with_frames_cons tempDir i f (rest : list UniqueFrame) fs :
  with_frames tempDir i (f :: rest) fs
  = with_frames tempDir (S i) rest
      (<[join tempDir (frame_file i) := buf f]> fs).
Proof.
  unfold with_frames. cbn [imap foldl fst snd]. rewrite Nat.add_0_r. f_equal.
  apply imap_ext. intros k x _. cbn. rewrite Nat.add_succ_r. reflexivity.
Qed.

Lemma frame_writes_in_temp tempDir (ufs : list UniqueFrame) :
  forall i, Forall (is_write tempDir) (frame_writes tempDir i ufs).
Proof.
  induction ufs as [|f rest IH]; intros i; [constructor|].
  rewrite frame_writes_cons. constructor; [|apply IH].
  apply under_join, frame_file_plain.
Qed.

(** The frame files are written into a directory that is there. *)
Lemma writeFrames_exact tempDir (ufs : list UniqueFrame) :
  forall i w,
    is_dir w (locate tempDir) = true ->
    writeFrames tempDir i ufs w =
    (Return tt,
     {| files := with_frames tempDir i ufs (files w);
        dirs := dirs w;
        screenshotModule := screenshotModule w;
        clock := clock w;
        trace := trace w ++ frame_writes tempDir i ufs |}).
Proof.
  induction ufs as [|f rest IH]; intros i w Hd.
  - cbn. rewrite app_nil_r. destruct w; reflexivity.
  - rewrite frame_writes_cons, with_frames_cons.
    cbn [writeFrames]. unfold bind at 1.
    rewrite (writeFile_run tempDir (frame_file i) (buf f) w
               (frame_file_plain i) Hd).
    rewrite IH by exact Hd.
    cbn [files dirs clock trace screenshotModule].
    rewrite <- app_assoc. reflexivity.
Qed.

(** The run of the assembler: the world [w1] when the frame files are
    written, the world [w_last] before the temporary directory is removed,
    and the result. *)
Lemma createAnimatedWebP_run frames delay endDelay quality w :
  let tempDir := tempDir_of host (crypto_randomUUID host (clock w)) in
  let ufs := uniqueFramesOf (digest_sha1_hex host) frames delay endDelay in
  let argv := encoder_args host ufs quality in
  exists w1 w_last r,
    createAnimatedWebP host frames delay endDelay quality w
    = (r, (rm tempDir w_last).2)
    /\ files w1 = with_frames tempDir 0 ufs (files w)
    /\ trace w1 = trace w ++ EvMkdir tempDir :: frame_writes tempDir 0 ufs
    /\ dirs w_last = made_by_mkdir tempDir ∪ dirs w
    /\ screenshotModule w_last = screenshotModule w
    /\ match process_execa host (S (clock w)) (IMG2WEBP host) argv tempDir
               (files w1) with
       | Throw e =>
           r = Throw e
           /\ files w_last = files w1
           /\ trace w_last =
              trace w1 ++ [EvExeca (IMG2WEBP host) argv tempDir (Some e)]
       | Return written =>
           files w_last = foldl (fun fs kv => <[kv.1:=kv.2]> fs)
                                (files w1) written
           /\ trace w_last =
              trace w1 ++ [EvExeca (IMG2WEBP host) argv tempDir None;
                           EvReadFile (join tempDir "out.webp")]
           /\ match files w_last !! join tempDir "out.webp" with
              | Some data => r = Return data
              | None => r = Throw (ENOENT (join tempDir "out.webp"))
              end
       end.
Proof.
  intros tempDir ufs argv. unfold createAnimatedWebP.
  fold tempDir ufs argv.
  cbv [bind randomUUID tick ret try_catch].
  cbn [clock files dirs trace screenshotModule]. fold tempDir.
  match goal with |- context [mkdir tempDir ?W] =>
    pose proof (mkdir_is_dir tempDir W) as Hd;
    rewrite (mkdir_run tempDir W) in Hd |- * end.
  cbn [snd clock files dirs trace screenshotModule] in Hd |- *.
  rewrite (writeFrames_exact tempDir ufs 0 _ Hd).
  cbv [execa bind tick ret get_world emit set_fs throw readFile try_catch].
  cbn [clock files dirs trace screenshotModule fst snd].
  assert (Hc : canonical (join tempDir "out.webp") = join tempDir "out.webp")
    by (apply canonical_join; reflexivity).
  rewrite Hc.
  pose (w1 := {| files := with_frames tempDir 0 ufs (files w);
                 dirs := made_by_mkdir tempDir ∪ dirs w;
                 screenshotModule := screenshotModule w;
                 clock := S (clock w);
                 trace := (trace w ++ [EvMkdir tempDir])
                          ++ frame_writes tempDir 0 ufs |}).
  assert (Ht1 : trace w1
                = trace w ++ EvMkdir tempDir :: frame_writes tempDir 0 ufs).
  { subst w1. cbn [trace]. rewrite <- app_assoc. reflexivity. }
  exists w1.
  change (files w1) with (with_frames tempDir 0 ufs (files w)).
  destruct (process_execa host (S (clock w)) (IMG2WEBP host) argv tempDir
              (with_frames tempDir 0 ufs (files w))) as [written|e] eqn:Ex.
  - cbn [clock files dirs trace screenshotModule fst snd].
    pose (fs2 := foldl (fun (fs : gmap string Buffer)
                            (kv : string * Buffer) => <[kv.1:=kv.2]> fs)
                       (with_frames tempDir 0 ufs (files w)) written).
    pose (w2 := {| files := fs2;
                   dirs := made_by_mkdir tempDir ∪ dirs w;
                   screenshotModule := screenshotModule w;
                   clock := S (S (clock w));
                   trace := (trace w1
                             ++ [EvExeca (IMG2WEBP host) argv tempDir None])
                            ++ [EvReadFile (join tempDir "out.webp")] |}).
    assert (Ht2 : trace w2 =
                  trace w1 ++ [EvExeca (IMG2WEBP host) argv tempDir None;
                               EvReadFile (join tempDir "out.webp")]).
    { subst w2. cbn [trace]. rewrite <- app_assoc. reflexivity. }
    fold fs2.
    destruct (fs2 !! join tempDir "out.webp") as [data|] eqn:Er.
    + exists w2, (Return data). change (files w2) with fs2. rewrite Er.
      repeat split; try reflexivity; assumption.
    + exists w2, (Throw (ENOENT (join tempDir "out.webp"))).
      change (files w2) with fs2. rewrite Er.
      repeat split; try reflexivity; assumption.
  - cbn [clock files dirs trace screenshotModule fst snd].
    exists {| files := files w1; dirs := dirs w1;
              screenshotModule := screenshotModule w1;
              clock := S (S (clock w));
              trace := trace w1 ++
                       [EvExeca (IMG2WEBP host) argv tempDir (Some e)] |},
           (Throw e).
    cbn [clock files dirs trace screenshotModule].
    repeat split; try reflexivity; assumption.
Qed.

(** The directories the assembler leaves: those it found and those
    [mkdir] made on the way, less the temporary directory. *)
Lemma createAnimatedWebP_dirs frames delay endDelay quality w :
  let tempDir := tempDir_of host (crypto_randomUUID host (clock w)) in
  dirs (createAnimatedWebP host frames delay endDelay quality w).2
  = filter (fun d => under tempDir d = false)
           (made_by_mkdir tempDir ∪ dirs w).
Proof.
  intros tempDir.
  destruct (createAnimatedWebP_run frames delay endDelay quality w)
    as (w1 & w_last & r & Hrun & _ & _ & Hdl & _).
  fold tempDir in Hrun, Hdl. rewrite Hrun. cbn. rewrite Hdl. reflexivity.
Qed.

(** The same run, by its effects only. *)
Lemma createAnimatedWebP_steps frames delay endDelay quality w :
  let tempDir := tempDir_of host (crypto_randomUUID host (clock w)) in
  let ufs := uniqueFramesOf (digest_sha1_hex host) frames delay endDelay in
  let argv := encoder_args host ufs quality in
  exists w1 writes w_last r,
    createAnimatedWebP host frames delay endDelay quality w
    = (r, (rm tempDir w_last).2)
    /\ trace w1 = trace w ++ EvMkdir tempDir :: writes
    /\ Forall (is_write tempDir) writes
    /\ match process_execa host (S (clock w)) (IMG2WEBP host) argv tempDir
               (files w1) with
       | Throw e =>
           r = Throw e
           /\ trace w_last =
              trace w1 ++ [EvExeca (IMG2WEBP host) argv tempDir (Some e)]
       | Return written =>
           trace w_last =
           trace w1 ++ [EvExeca (IMG2WEBP host) argv tempDir None;
                        EvReadFile (join tempDir "out.webp")]
           /\ match files w_last !! join tempDir "out.webp" with
              | Some data => r = Return data
              | None => r = Throw (ENOENT (join tempDir "out.webp"))
              end
       end.
Proof.
  intros tempDir ufs argv.
  destruct (createAnimatedWebP_run frames delay endDelay quality w)
    as (w1 & w_last & r & Hrun & _ & Ht1 & _ & _ & Hcase).
  fold tempDir ufs argv in Hrun, Ht1, Hcase.
  exists w1, (frame_writes tempDir 0 ufs), w_last, r.
  split; [exact Hrun|]. split; [exact Ht1|].
  split; [apply frame_writes_in_temp|].
  destruct (process_execa host (S (clock w)) (IMG2WEBP host) argv tempDir
              (files w1)) as [written|e].
  - destruct Hcase as (_ & Ht2 & Hr). auto.
  - destruct Hcase as (Hr & _ & Ht2). auto.
Qed.

End AssemblerFacts.

(** The effects of the assembler, in order. *)
Lemma createAnimatedWebP_trace (host : Host) (frames : list Buffer)
    (delay : number) (endDelay : option number) (quality : string)
    (w : World) :
  let tempDir := tempDir_of host (crypto_randomUUID host (clock w)) in
  let argv :=
    encoder_args host
      (uniqueFramesOf (digest_sha1_hex host) frames delay endDelay) quality in
  exists writes failure reads,
    trace (createAnimatedWebP host frames delay endDelay quality w).2 =
      trace w ++ EvMkdir tempDir :: writes
      ++ EvExeca (IMG2WEBP host) argv tempDir failure :: reads
      ++ [EvRm tempDir]
    /\ Forall (is_write tempDir) writes
    /\ (reads = [] \/ reads = [EvReadFile (join tempDir "out.webp")]).
Proof.
  intros tempDir argv.
  destruct (createAnimatedWebP_steps host frames delay endDelay quality w)
    as (w1 & writes & w_last & r & Hrun & Ht1 & Hw & Hcase).
  fold tempDir argv in Hrun, Ht1, Hcase. rewrite Hrun.
  cbv [rm bind emit get_world set_fs]. cbn [snd trace].
  exists writes.
  destruct (process_execa host (S (clock w)) (IMG2WEBP host) argv tempDir
              (files w1)) as [written|e].
  - destruct Hcase as [Ht2 _].
    exists None, [EvReadFile (join tempDir "out.webp")].
    rewrite Ht2, Ht1, <- !app_assoc. auto.
  - destruct Hcase as [_ Ht2].
    exists (Some e), []. rewrite Ht2, Ht1, <- !app_assoc. auto.
Qed.

(** ** Claims on the assembler's temporary storage *)

(** C6.  Whatever the encoder does, [createAnimatedWebP] ends by removing
    the temporary directory it created: nothing is left in or below it, the
    removal is the last effect, and a failure of the encoder is the error
    the caller gets. *)
Theorem assembler_cleans_up (host : Host) (frames : list Buffer)
    (delay : number) (endDelay : option number) (quality : string)
    (w : World) :
  let tempDir := tempDir_of host (crypto_randomUUID host (clock w)) in
  let argv :=
    encoder_args host
      (uniqueFramesOf (digest_sha1_hex host) frames delay endDelay) quality in
  let out := createAnimatedWebP host frames delay endDelay quality w in
  absent_below tempDir out.2
  /\ exists writes failure reads,
       trace out.2 =
         trace w ++ EvMkdir tempDir :: writes
         ++ EvExeca (IMG2WEBP host) argv tempDir failure :: reads
         ++ [EvRm tempDir]
       /\ Forall (is_write tempDir) writes
       /\ match failure with
          | Some e => out.1 = Throw e /\ reads = []
          | None =>
              reads = [EvReadFile (join tempDir "out.webp")]
              /\ ((exists data, out.1 = Return data)
                  \/ out.1 = Throw (ENOENT (join tempDir "out.webp")))
          end.
Proof.
  intros tempDir argv out.
  destruct (createAnimatedWebP_steps host frames delay endDelay quality w)
    as (w1 & writes & w_last & r & Hrun & Ht1 & Hw & Hcase).
  fold tempDir argv in Hrun, Ht1, Hcase. subst out. rewrite Hrun.
  cbn [fst snd]. split; [apply rm_absent_below|].
  destruct (process_execa host (S (clock w)) (IMG2WEBP host) argv tempDir
              (files w1)) as [written|e].
  - destruct Hcase as [Ht2 Hr].
    exists writes, None, [EvReadFile (join tempDir "out.webp")].
    split; [|split; [exact Hw|split; [reflexivity|]]].
    + cbn [rm bind emit get_world set_fs snd trace].
      cbv [rm bind emit get_world set_fs]. cbn [snd trace].
      rewrite Ht2, Ht1, <- !app_assoc. reflexivity.
    + destruct (files w_last !! join tempDir "out.webp") as [data|];
        [left; eauto | right; exact Hr].
  - destruct Hcase as [Hr Ht2].
    exists writes, (Some e), [].
    split; [|split; [exact Hw|split; [exact Hr|reflexivity]]].
    cbv [rm bind emit get_world set_fs]. cbn [snd trace].
    rewrite Ht2, Ht1, <- !app_assoc. reflexivity.
Qed.

(** C7, as the code has it.  The encoder binary is chosen from
    [process.platform] when the assembler is called: [img2webp-darwin] on
    darwin, [img2webp-linux] on every other platform.  No platform is
    refused: on each the assembler first creates its temporary directory,
    writes the frame files and runs the chosen binary there.  When that
    attempt fails, its error is what the caller gets, nothing more is done
    but the removal of the temporary directory, and nothing is left in or
    below it. *)
Theorem encoder_binary_by_platform (host : Host) (frames : list Buffer)
    (delay : number) (endDelay : option number) (quality : string)
    (w : World) :
  (process_platform host = "darwin" ->
   IMG2WEBP host = join (join (module_dirname host) "bin") "img2webp-darwin")
  /\ (process_platform host <> "darwin" ->
      IMG2WEBP host = join (join (module_dirname host) "bin") "img2webp-linux")
  /\ let tempDir := tempDir_of host (crypto_randomUUID host (clock w)) in
     let ufs := uniqueFramesOf (digest_sha1_hex host) frames delay endDelay in
     let argv := encoder_args host ufs quality in
     let out := createAnimatedWebP host frames delay endDelay quality w in
     exists writes failure reads,
       trace out.2 =
         trace w ++ EvMkdir tempDir :: writes
         ++ EvExeca (IMG2WEBP host) argv tempDir failure :: reads
         ++ [EvRm tempDir]
       /\ Forall (is_write tempDir) writes
       /\ match failure with
          | Some e => out.1 = Throw e /\ reads = []
          | None => reads = [EvReadFile (join tempDir "out.webp")]
          end
       /\ (forall e,
             process_execa host (S (clock w)) (IMG2WEBP host) argv tempDir
               (with_frames tempDir 0 ufs (files w)) = Throw e ->
             failure = Some e)
       /\ absent_below tempDir out.2.
Proof.
  split; [|split].
  - intros H. unfold IMG2WEBP, binaryName. rewrite H. reflexivity.
  - intros H. unfold IMG2WEBP, binaryName.
    apply String.eqb_neq in H. rewrite H. reflexivity.
  - intros tempDir ufs argv out. subst out.
    destruct (createAnimatedWebP_run host frames delay endDelay quality w)
      as (w1 & w_last & r & Hrun & Hf1 & Ht1 & _ & _ & Hcase).
    fold tempDir ufs argv in Hrun, Hf1, Ht1, Hcase. rewrite Hrun, Hf1 in *.
    exists (frame_writes tempDir 0 ufs).
    destruct (process_execa host (S (clock w)) (IMG2WEBP host) argv tempDir
                (with_frames tempDir 0 ufs (files w))) as [written|e].
    + destruct Hcase as (_ & Ht2 & _).
      exists None, [EvReadFile (join tempDir "out.webp")].
      split; [|split; [apply frame_writes_in_temp|split; [reflexivity|]]].
      * cbv [rm bind emit get_world set_fs]. cbn [snd trace].
        rewrite Ht2, Ht1, <- !app_assoc. reflexivity.
      * split; [discriminate|apply rm_absent_below].
    + destruct Hcase as (Hr & _ & Ht2).
      exists (Some e), [].
      split; [|split; [apply frame_writes_in_temp|split; [auto|]]].
      * cbv [rm bind emit get_world set_fs]. cbn [snd trace].
        rewrite Ht2, Ht1, <- !app_assoc. reflexivity.
      * split; [intros e' [= <-]; reflexivity|apply rm_absent_below].
Qed.

(** ** Returned values and effects, compositionally *)

Section YieldFacts.

Lemma yields_emits {A : Type} Q P (m : M A) : yields Q P m -> emits P m.
Proof.
  intros H w. destruct (H w) as (evs & Ht & HP & _). exists evs. auto.
Qed.

Lemma emits_yields {A : Type} P (m : M A) :
  emits P m -> yields (fun _ => True) P m.
Proof.
  intros H w. destruct (H w) as (evs & Ht & HP). exists evs. auto.
Qed.

Lemma yields_ret {A : Type} (Q : A -> Prop) P (a : A) :
  Q a -> yields Q P (ret a).
Proof.
  intros H w. exists []. simpl. rewrite app_nil_r.
  split; [reflexivity|]. split; [constructor|].
  intros a' [= <-]. exact H.
Qed.

Lemma yields_throw {A : Type} (Q : A -> Prop) P e : yields Q P (throw e).
Proof.
  intros w. exists []. simpl. rewrite app_nil_r.
  split; [reflexivity|]. split; [constructor|]. discriminate.
Qed.

Lemma yields_bind {A B : Type} (Q : A -> Prop) (R : B -> Prop) P
    (m : M A) (k : A -> M B) :
  yields Q P m -> (forall a, Q a -> yields R P (k a)) ->
  yields R P (bind m k).
Proof.
  intros Hm Hk w. unfold bind.
  destruct (Hm w) as (evs1 & Ht1 & HP1 & Ha).
  destruct (m w) as [[a|e] w1]; simpl in *.
  - destruct (Hk a (Ha a eq_refl) w1) as (evs2 & Ht2 & HP2 & Hb).
    exists (evs1 ++ evs2). rewrite Ht2, Ht1, app_assoc.
    split; [reflexivity|]. split; [apply Forall_app; auto|exact Hb].
  - exists evs1. split; [exact Ht1|]. split; [exact HP1|discriminate].
Qed.

Lemma yields_try_catch {A : Type} (Q : A -> Prop) P (m : M A)
    (h : Error -> M A) :
  yields Q P m -> (forall e, yields Q P (h e)) -> yields Q P (try_catch m h).
Proof.
  intros Hm Hh w. unfold try_catch.
  destruct (Hm w) as (evs1 & Ht1 & HP1 & Ha).
  destruct (m w) as [[a|e] w1]; simpl in *.
  - exists evs1. auto.
  - destruct (Hh e w1) as (evs2 & Ht2 & HP2 & Hb).
    exists (evs1 ++ evs2). rewrite Ht2, Ht1, app_assoc.
    split; [reflexivity|]. split; [apply Forall_app; auto|exact Hb].
Qed.

End YieldFacts.

(** ** The handlers, step by step *)

Section HandlerFacts.

Variable host : Host.

Lemma generateFilename_run u index prefix w h :
  url_hostname host u = Some h ->
  generateFilename host u index prefix w =
  (Return (filename_of prefix (sanitize_hostname h)
             (timestamp_at host (clock w)) (frame_suffix index)),
   (tick w).2).
Proof.
  intros H. unfold generateFilename, new_URL_hostname. rewrite H.
  reflexivity.
Qed.

Lemma yields_generateFilename P u index prefix :
  yields (generated_png host prefix index) P
         (generateFilename host u index prefix).
Proof.
  intros w. exists []. rewrite app_nil_r.
  unfold generateFilename, new_URL_hostname.
  destruct (url_hostname host u) as [h|]; cbn.
  - split; [reflexivity|]. split; [constructor|].
    intros a [= <-]. exists h, (clock w). reflexivity.
  - split; [reflexivity|]. split; [constructor|]. discriminate.
Qed.

Lemma loadScreenshotModule_run w :
  exists w1 evs,
    loadScreenshotModule w = (Return tt, w1)
    /\ trace w1 = trace w ++ evs /\ Forall not_engine evs
    /\ clock w1 = clock w.
Proof.
  unfold loadScreenshotModule. cbv [bind get_world ret emit].
  destruct (screenshotModule w).
  - exists w, []. rewrite app_nil_r. auto.
  - eexists _, [EvImportModule]. cbn.
    split; [reflexivity|]. split; [reflexivity|].
    split; [|reflexivity]. constructor; [reflexivity|constructor].
Qed.

Lemma loadScreenshotModule_fs w :
  exists w1, loadScreenshotModule w = (Return tt, w1)
             /\ files w1 = files w /\ dirs w1 = dirs w
             /\ clock w1 = clock w.
Proof.
  unfold loadScreenshotModule. cbv [bind get_world ret emit].
  destruct (screenshotModule w); eexists; split; try reflexivity; auto.
Qed.


Lemma captureScreenshot_run o w :
  captureScreenshot host o w =
  (engine_captureScreenshot host (clock w) o,
   {| files := files w; dirs := dirs w;
      screenshotModule := screenshotModule w; clock := S (clock w);
      trace := trace w ++ [EvCaptureScreenshot o] |}).
Proof.
  unfold captureScreenshot. cbv [bind tick emit lift_outcome ret throw].
  cbn [clock files dirs trace screenshotModule].
  destruct (engine_captureScreenshot host (clock w) o); reflexivity.
Qed.


Lemma captureScreencast_run o w :
  captureScreencast host o w =
  (engine_captureScreencast host (clock w) o,
   {| files := files w; dirs := dirs w;
      screenshotModule := screenshotModule w; clock := S (clock w);
      trace := trace w ++ [EvCaptureScreencast o] |}).
Proof.
  unfold captureScreencast. cbv [bind tick emit lift_outcome ret throw].
  cbn [clock files dirs trace screenshotModule].
  destruct (engine_captureScreencast host (clock w) o); reflexivity.
Qed.


Lemma emits_loadScreenshotModule (P : Event -> Prop) :
  P EvImportModule -> emits P loadScreenshotModule.
Proof.
  intros H. unfold loadScreenshotModule.
  apply emits_bind; [apply emits_get_world|]. intros w.
  destruct (screenshotModule w); [apply emits_ret|].
  apply emits_bind; [apply emits_emit, H|]. intros _ w'.
  exists []. cbn. rewrite app_nil_r. auto.
Qed.

Lemma ensureDirectory_returns dir w : (ensureDirectory dir w).1 = Return tt.
Proof.
  unfold ensureDirectory. cbv [bind existsSync get_world ret].
  destruct (is_dir _ _ || is_file _ _); reflexivity.
Qed.

Lemma ensureDirectory_run dir w :
  let present := is_dir w (locate dir) || is_file w (locate dir) in
  ensureDirectory dir w =
  (Return tt,
   {| files := files w;
      dirs := if present then dirs w else made_by_mkdir dir ∪ dirs w;
      screenshotModule := screenshotModule w; clock := clock w;
      trace := if present then trace w else trace w ++ [EvMkdir dir] |}).
Proof.
  unfold ensureDirectory. cbv [bind existsSync get_world ret].
  destruct (is_dir _ _ || is_file _ _); [destruct w|]; reflexivity.
Qed.

(** Unless a regular file has its name, the directory is there afterwards. *)
Lemma ensureDirectory_is_dir dir w :
  is_file w (locate dir) = false ->
  is_dir (ensureDirectory dir w).2 (locate dir) = true.
Proof.
  intros Hf. unfold ensureDirectory. cbv [bind existsSync get_world ret].
  rewrite Hf, orb_false_r.
  destruct (is_dir w (locate dir)) eqn:Hd; [exact Hd|].
  apply mkdir_is_dir.
Qed.

Lemma emits_ensureDirectory (P : Event -> Prop) dir :
  P (EvMkdir dir) -> emits P (ensureDirectory dir).
Proof.
  intros H. unfold ensureDirectory.
  apply emits_bind; [apply emits_existsSync|]. intros [|];
    [apply emits_ret | apply emits_mkdir, H].
Qed.

Lemma emits_captureScreenshot (P : Event -> Prop) o :
  P (EvCaptureScreenshot o) -> emits P (captureScreenshot host o).
Proof.
  intros H. unfold captureScreenshot.
  apply emits_bind; [apply emits_tick|]. intros n.
  apply emits_bind; [apply emits_emit, H|]. intros _.
  apply emits_lift_outcome.
Qed.

Lemma emits_captureScreencast (P : Event -> Prop) o :
  P (EvCaptureScreencast o) -> emits P (captureScreencast host o).
Proof.
  intros H. unfold captureScreencast.
  apply emits_bind; [apply emits_tick|]. intros n.
  apply emits_bind; [apply emits_emit, H|]. intros _.
  apply emits_lift_outcome.
Qed.

(** The assembler only touches its own temporary directory. *)
Lemma emits_createAnimatedWebP frames delay endDelay quality :
  emits (temp_event host)
        (createAnimatedWebP host frames delay endDelay quality).
Proof.
  intros w.
  destruct (createAnimatedWebP_trace host frames delay endDelay quality w)
    as (writes & failure & reads & Ht & Hw & Hreads).
  cbv zeta in Ht.
  eexists. split; [exact Ht|].
  set (n := clock w) in *.
  constructor; [exists n; reflexivity|].
  apply Forall_app. split.
  - eapply Forall_impl; [exact Hw|]. intros [] He; try contradiction.
    exists n. exact He.
  - constructor; [exists n; reflexivity|].
    apply Forall_app. split.
    + destruct Hreads as [-> | ->]; [constructor|].
      constructor; [|constructor]. exists n. apply under_join. reflexivity.
    + constructor; [exists n; reflexivity|constructor].
Qed.

End HandlerFacts.

(** ** File names *)

Lemma sanitize_hostname_word h :
  string_forall is_word_char (sanitize_hostname h) = true.
Proof.
  apply string_forall_map. intros c. unfold is_word_char.
  destruct (is_alnum c) eqn:E; [rewrite E|]; reflexivity.
Qed.

Lemma sanitize_hostname_no_dot h : no_dot (sanitize_hostname h) = true.
Proof.
  apply string_forall_map. intros c.
  destruct (is_alnum c) eqn:E; [|reflexivity].
  destruct (Ascii.eqb_spec c "."%char) as [->|]; [discriminate E|reflexivity].
Qed.

Lemma sanitize_timestamp_no_dot iso : no_dot (sanitize_timestamp iso) = true.
Proof.
  apply string_forall_map. intros c.
  destruct (Ascii.eqb c ".") eqn:E.
  - rewrite orb_true_r. reflexivity.
  - rewrite orb_false_r. destruct (Ascii.eqb c ":"); [reflexivity|].
    rewrite E. reflexivity.
Qed.

(** With no dot before it, the extension is the first [".png"]. *)
Lemma replace_first_extension (s rep : string) :
  no_dot s = true -> replace_first ".png" rep (s +:+ ".png") = s +:+ rep.
Proof.
  induction s as [|c s IH]; intros H.
  - rewrite !string_app_nil_l. simpl. rewrite string_app_nil_r. reflexivity.
  - simpl in H. apply andb_prop in H as [Hc Hs].
    rewrite !string_app_cons.
    cbn [replace_first String.prefix].
    destruct (ascii_dec "." c) as [<-|_]; [discriminate Hc|].
    f_equal. apply IH, Hs.
Qed.

Lemma filename_of_inj_timestamp prefix h t1 t2 suffix :
  filename_of prefix h t1 suffix = filename_of prefix h t2 suffix -> t1 = t2.
Proof.
  unfold filename_of. intros H.
  do 4 apply String.app_inj in H.
  apply string_app_inv_tail in H. exact H.
Qed.

Section NameFacts.

Variable host : Host.

Lemma webp_name name :
  generated_png host "screencast" None name ->
  generated_webp host (replace_first ".png" ".webp" name).
Proof.
  intros (h & n & ->). exists h, n.
  unfold filename_of, frame_suffix.
  rewrite string_app_nil_l.
  rewrite <- !string_app_assoc.
  rewrite replace_first_extension; [reflexivity|].
  unfold no_dot. rewrite !string_forall_app.
  fold (no_dot (sanitize_hostname h)).
  fold (no_dot (timestamp_at host n)).
  unfold timestamp_at.
  rewrite sanitize_hostname_no_dot, sanitize_timestamp_no_dot.
  reflexivity.
Qed.

End NameFacts.

(** ** What the handlers emit *)

Section HandlerEffects.

Variable host : Host.
Variable P : Event -> Prop.

Lemma emits_saveTiles u dir (tiles : list Tile) :
  (forall i name d, generated_png host "screenshot" (Some i) name ->
                    P (EvWriteFile (join dir name) d)) ->
  forall i acc, emits P (saveTiles host u dir i tiles acc).
Proof.
  intros HP. induction tiles as [|t rest IH]; intros i acc.
  - apply emits_ret.
  - cbn [saveTiles]. eapply yields_emits.
    eapply yields_bind; [apply yields_generateFilename|].
    intros name Hname. apply emits_yields.
    apply emits_bind; [apply emits_writeFile, (HP i), Hname|].
    intros _. apply IH.
Qed.

Lemma emits_savePngFrames u dir (fs : list Frame) :
  (forall i name d, generated_png host "frame" (Some i) name ->
                    P (EvWriteFile (join dir name) d)) ->
  forall i acc, emits P (savePngFrames host u dir i fs acc).
Proof.
  intros HP. induction fs as [|f rest IH]; intros i acc.
  - apply emits_ret.
  - cbn [savePngFrames]. eapply yields_emits.
    eapply yields_bind; [apply yields_generateFilename|].
    intros name Hname. apply emits_yields.
    apply emits_bind; [apply emits_writeFile, (HP i), Hname|].
    intros _. apply IH.
Qed.

(** The fallback loop is the loop of the png branch. *)
Lemma fallbackPngFrames_eq u dir (fs : list Frame) :
  forall i acc w,
    fallbackPngFrames host u dir i fs acc w
    = savePngFrames host u dir i fs acc w.
Proof.
  induction fs as [|f rest IH]; intros i acc w; [reflexivity|].
  cbn [fallbackPngFrames savePngFrames]. unfold bind.
  destruct (generateFilename host u (Some i) "frame" w) as [[name|e] w1];
    [|reflexivity].
  destruct (writeFile (join dir name) (screenshot f) w1) as [[[]|e] w2];
    [|reflexivity].
  apply IH.
Qed.

Lemma emits_fallbackPngFrames u dir (fs : list Frame) :
  (forall i name d, generated_png host "frame" (Some i) name ->
                    P (EvWriteFile (join dir name) d)) ->
  forall i acc, emits P (fallbackPngFrames host u dir i fs acc).
Proof.
  intros HP i acc w. rewrite fallbackPngFrames_eq.
  apply emits_savePngFrames, HP.
Qed.

Lemma emits_materializeScreenshot args result :
  let dir := nullish (directory args) "" in
  P (EvMkdir dir) ->
  (forall index name d, generated_png host "screenshot" index name ->
                        P (EvWriteFile (join dir name) d)) ->
  emits P (materializeScreenshot host args result).
Proof.
  intros dir Hm Hw. unfold materializeScreenshot.
  destruct (truthy_opt_string (directory args)).
  - apply emits_bind; [apply emits_ensureDirectory, Hm|]. intros _.
    destruct result as [shot vp|tiles fw fh ts].
    + eapply yields_emits.
      eapply yields_bind; [apply yields_generateFilename|].
      intros name Hname. apply emits_yields.
      apply emits_bind; [apply emits_writeFile, (Hw None), Hname|].
      intros _. apply emits_ret.
    + apply emits_bind; [|intros paths; apply emits_ret].
      apply emits_saveTiles. intros i name d. apply Hw.
  - destruct result; apply emits_ret.
Qed.

Lemma emits_take_screenshot args :
  let dir := nullish (directory args) "" in
  P EvImportModule ->
  P (EvCaptureScreenshot (screenshotOptions args)) ->
  P (EvMkdir dir) ->
  (forall index name d, generated_png host "screenshot" index name ->
                        P (EvWriteFile (join dir name) d)) ->
  emits P (take_screenshot host args).
Proof.
  intros dir Hi Hc Hm Hw. unfold take_screenshot.
  apply emits_try_catch; [|intros e; apply emits_throw].
  apply emits_bind; [apply emits_loadScreenshotModule, Hi|]. intros _.
  apply emits_bind; [apply emits_captureScreenshot, Hc|]. intros result.
  apply emits_materializeScreenshot; assumption.
Qed.

Lemma emits_materializeScreencast args result :
  let dir := nullish (directory args) "" in
  P (EvMkdir dir) ->
  (forall i name d, generated_png host "frame" (Some i) name ->
                    P (EvWriteFile (join dir name) d)) ->
  (forall name d, generated_webp host name ->
                  P (EvWriteFile (join dir name) d)) ->
  (forall e, temp_event host e -> P e) ->
  emits P (materializeScreencast host args result).
Proof.
  intros dir Hm Hf Hwebp Ht. unfold materializeScreencast.
  destruct (truthy_opt_string (directory args)); [|apply emits_ret].
  apply emits_bind; [apply emits_ensureDirectory, Hm|]. intros _.
  destruct (String.eqb (nullish (format args) "webp") "png").
  - apply emits_bind; [|intros paths; apply emits_ret].
    apply emits_savePngFrames, Hf.
  - apply emits_bind.
    + unfold tryCreateWebP.
      apply emits_try_catch; [|intros e; apply emits_ret].
      apply emits_bind; [|intros b; apply emits_ret].
      eapply emits_mono; [exact Ht|]. apply emits_createAnimatedWebP.
    + intros [webp|].
      * eapply yields_emits.
        eapply yields_bind; [apply yields_generateFilename|].
        intros name Hname. apply emits_yields.
        apply emits_bind; [|intros _; apply emits_ret].
        apply emits_writeFile, Hwebp, webp_name, Hname.
      * apply emits_bind; [|intros paths; apply emits_ret].
        apply emits_fallbackPngFrames, Hf.
Qed.

Lemma emits_take_screencast args :
  let dir := nullish (directory args) "" in
  P EvImportModule ->
  P (EvCaptureScreencast (screencastOptions args)) ->
  P (EvMkdir dir) ->
  (forall i name d, generated_png host "frame" (Some i) name ->
                    P (EvWriteFile (join dir name) d)) ->
  (forall name d, generated_webp host name ->
                  P (EvWriteFile (join dir name) d)) ->
  (forall e, temp_event host e -> P e) ->
  emits P (take_screencast host args).
Proof.
  intros dir Hi Hc Hm Hf Hwebp Ht. unfold take_screencast.
  apply emits_try_catch; [|intros e; apply emits_throw].
  apply emits_bind; [apply emits_loadScreenshotModule, Hi|]. intros _.
  destruct (truthy_opt_string (format args)
            && negb (truthy_opt_string (directory args)));
    [apply emits_throw|].
  apply emits_bind; [apply emits_captureScreencast, Hc|]. intros result.
  apply emits_materializeScreencast; assumption.
Qed.

End HandlerEffects.

(** ** Frame numbers in names *)

(** Two runs of digits followed by something that is no digit: the runs
    are the same. *)
Lemma digit_run_unique (x y u v : list ascii) (c d : ascii) :
  Forall (fun a => is_digit a = true) x ->
  Forall (fun a => is_digit a = true) y ->
  is_digit c = false -> is_digit d = false ->
  x ++ c :: u = y ++ d :: v -> x = y.
Proof.
  intros Hx. revert y. induction Hx as [|a x Ha Hx IH]; intros y Hy Hc Hd H.
  - destruct Hy as [|b y Hb Hy]; [reflexivity|].
    simpl in H. injection H as -> _. congruence.
  - destruct Hy as [|b y Hb Hy].
    + simpl in H. injection H as -> _. congruence.
    + simpl in H. injection H as -> H. f_equal. eapply IH; eauto.
Qed.

Lemma frame_number_unique (a b : string) (n m : nat) :
  a +:+ "_frame" +:+ pretty n = b +:+ "_frame" +:+ pretty m -> n = m.
Proof.
  intros H. apply (f_equal string_to_list) in H.
  rewrite !string_to_list_app in H.
  apply (f_equal (@rev ascii)) in H. rewrite !rev_app_distr in H.
  cbn [string_to_list rev app] in H. rewrite <- !app_assoc in H.
  cbn [app] in H.
  apply digit_run_unique in H; try reflexivity.
  - apply (f_equal (@rev ascii)) in H. rewrite !rev_involutive in H.
    apply string_to_list_inj in H.
    apply (inj pretty) in H. exact H.
  - apply Forall_rev, pretty_nat_digits.
  - apply Forall_rev, pretty_nat_digits.
Qed.

Lemma filename_of_frame_index (p1 h1 t1 p2 h2 t2 : string) (i j : nat) :
  filename_of p1 h1 t1 (frame_suffix (Some i))
  = filename_of p2 h2 t2 (frame_suffix (Some j)) ->
  i = j.
Proof.
  unfold filename_of, frame_suffix. intros H.
  rewrite <- !string_app_assoc in H. apply string_app_inv_tail in H.
  rewrite !string_app_assoc in H.
  rewrite <- !(string_app_assoc _ _ ("_frame" +:+ _)) in H.
  apply frame_number_unique in H. lia.
Qed.

(** ** The fallback *)

Section FallbackFacts.

Variable host : Host.

Lemma sanitize_timestamp_slash_free iso :
  slash_free iso = true -> slash_free (sanitize_timestamp iso) = true.
Proof.
  unfold slash_free, sanitize_timestamp.
  induction iso as [|c iso IH]; [reflexivity|]. simpl.
  rewrite !andb_true_iff. intros [Hc Hi]. split; [|apply IH, Hi].
  destruct (Ascii.eqb c ":" || Ascii.eqb c "."); [reflexivity|exact Hc].
Qed.

Lemma sanitize_hostname_slash_free h :
  slash_free (sanitize_hostname h) = true.
Proof.
  apply (string_forall_impl is_word_char); [|apply sanitize_hostname_word].
  intros c Hc. destruct (is_slash c) eqn:E; [|reflexivity].
  apply Ascii.eqb_eq in E. subst c. discriminate Hc.
Qed.

Lemma slash_free_digits_of (n : nat) : slash_free (pretty n) = true.
Proof. apply slash_free_digits, pretty_nat_digits. Qed.

Lemma frame_suffix_slash_free index : slash_free (frame_suffix index) = true.
Proof.
  destruct index as [i|]; [|reflexivity]. unfold frame_suffix.
  rewrite slash_free_app, slash_free_digits_of. reflexivity.
Qed.

(** With ISO time stamps a generated name is one plain segment. *)
Lemma generated_png_plain prefix index name :
  iso_timestamps host -> slash_free prefix = true ->
  generated_png host prefix index name -> plain name = true.
Proof.
  intros Hiso Hp (h & n & ->). unfold filename_of.
  rewrite <- !string_app_assoc.
  apply plain_with_extension; [|reflexivity|simpl; lia].
  rewrite !slash_free_app, Hp, sanitize_hostname_slash_free,
    frame_suffix_slash_free.
  unfold timestamp_at. rewrite sanitize_timestamp_slash_free by apply Hiso.
  reflexivity.
Qed.

Lemma generated_webp_plain name :
  iso_timestamps host -> generated_webp host name -> plain name = true.
Proof.
  intros Hiso (h & n & ->).
  rewrite <- !string_app_assoc.
  apply plain_with_extension; [|reflexivity|simpl; lia].
  rewrite !slash_free_app, sanitize_hostname_slash_free.
  unfold timestamp_at. rewrite sanitize_timestamp_slash_free by apply Hiso.
  reflexivity.
Qed.

Lemma generated_frames_differ dir i j name1 name2 :
  iso_timestamps host -> i <> j ->
  generated_png host "frame" (Some i) name1 ->
  generated_png host "frame" (Some j) name2 ->
  join dir name1 <> join dir name2.
Proof.
  intros Hiso Hij H1 H2 H.
  apply join_inj in H;
    [|exact (generated_png_plain "frame" (Some i) name1 Hiso eq_refl H1)
     |exact (generated_png_plain "frame" (Some j) name2 Hiso eq_refl H2)].
  destruct H1 as (h1 & n1 & ->), H2 as (h2 & n2 & ->).
  apply Hij. exact (filename_of_frame_index _ _ _ _ _ _ i j H).
Qed.

(** With a URL the parser accepts and a directory that is there, the png
    loop writes every frame, in order, under a generated name, and returns
    the paths; each file holds its frame, and only such files change. *)
Lemma savePngFrames_run u dir h (fs : list Frame) :
  url_hostname host u = Some h ->
  iso_timestamps host ->
  forall i acc w,
    is_dir w (locate dir) = true ->
    exists paths w',
      savePngFrames host u dir i fs acc w = (Return (acc ++ paths), w')
      /\ length paths = length fs
      /\ trace w' =
         trace w
         ++ zip_with (fun p f => EvWriteFile p (screenshot f)) paths fs
      /\ dirs w' = dirs w
      /\ (forall k f, fs !! k = Some f ->
            exists name,
              paths !! k = Some (join dir name)
              /\ generated_png host "frame" (Some (i + k)) name
              /\ files w' !! join dir name = Some (screenshot f))
      /\ (forall q,
            (forall name j, i <= j ->
                            generated_png host "frame" (Some j) name ->
                            q <> join dir name) ->
            files w' !! q = files w !! q).
Proof.
  intros Hu Hiso. induction fs as [|f rest IH]; intros i acc w Hd.
  - exists [], w. cbn. rewrite !app_nil_r.
    repeat split; auto. intros k f Hk. discriminate.
  - cbn [savePngFrames]. unfold bind at 1.
    rewrite (generateFilename_run host u (Some i) "frame" w h Hu).
    set (name := filename_of "frame" (sanitize_hostname h)
                   (timestamp_at host (clock w)) (frame_suffix (Some i))).
    assert (Hname : generated_png host "frame" (Some i) name)
      by (exists h, (clock w); reflexivity).
    assert (Hplain : plain name = true)
      by exact (generated_png_plain "frame" (Some i) name Hiso eq_refl Hname).
    unfold bind at 1.
    rewrite (writeFile_run dir name (screenshot f) (tick w).2 Hplain Hd).
    cbn [tick snd clock files dirs trace screenshotModule].
    match goal with |- context [savePngFrames host u dir (S i) rest _ ?W] =>
      destruct (IH (S i) (acc ++ [join dir name]) W Hd)
        as (paths & w' & Hrun & Hlen & Ht & Hdirs & Hp & Hq) end.
    cbn [files dirs trace] in Ht, Hdirs, Hq.
    exists (join dir name :: paths), w'.
    rewrite Hrun, <- app_assoc. cbn [app length zip_with].
    split; [reflexivity|]. split; [rewrite Hlen; reflexivity|].
    split; [rewrite Ht, <- app_assoc; reflexivity|].
    split; [exact Hdirs|]. split.
    + intros [|k] f' Hk; cbn in Hk.
      * injection Hk as <-. exists name. rewrite Nat.add_0_r.
        split; [reflexivity|]. split; [exact Hname|].
        rewrite Hq; [apply lookup_insert_eq|].
        intros name' j Hj Hg.
        apply (generated_frames_differ dir i j); [exact Hiso|lia|
          exact Hname|exact Hg].
      * destruct (Hp k f' Hk) as (nm & Hpk & Hg & Hfile). exists nm.
        replace (i + S k)%nat with (S i + k)%nat by lia. auto.
    + intros q Hcond. rewrite Hq.
      * apply lookup_insert_ne. intros E.
        exact (Hcond name i (le_n i) Hname (eq_sym E)).
      * intros name' j Hj. apply Hcond. lia.
Qed.

(** Where a regular file has the name of the directory the first frame is
    refused, and nothing is stored. *)
Lemma savePngFrames_refused u dir h f (fs : list Frame) i acc w :
  url_hostname host u = Some h ->
  iso_timestamps host ->
  is_dir w (locate dir) = false -> is_file w (locate dir) = true ->
  exists p w', savePngFrames host u dir i (f :: fs) acc w
               = (Throw (ENOTDIR p), w')
               /\ files w' = files w /\ dirs w' = dirs w.
Proof.
  intros Hu Hiso Hd Hfile. cbn [savePngFrames]. unfold bind at 1.
  rewrite (generateFilename_run host u (Some i) "frame" w h Hu).
  set (name := filename_of "frame" (sanitize_hostname h)
                 (timestamp_at host (clock w)) (frame_suffix (Some i))).
  assert (Hplain : plain name = true).
  { apply (generated_png_plain "frame" (Some i) name Hiso eq_refl).
    exists h, (clock w). reflexivity. }
  unfold bind at 1.
  rewrite (writeFile_below_file dir name (screenshot f) (tick w).2
             Hplain Hd Hfile).
  eauto.
Qed.

Lemma take_screencast_accepted args w result w_cap :
  truthy_opt_string (directory args) = true ->
  captureScreencast host (screencastOptions args)
    (loadScreenshotModule w).2 = (Return result, w_cap) ->
  take_screencast host args w = materializeScreencast host args result w_cap.
Proof.
  intros Hd Hcap. unfold take_screencast, try_catch. unfold bind at 1.
  destruct (loadScreenshotModule_run w) as (w1 & evs & Hl & _).
  rewrite Hl in *. cbn [snd] in Hcap. rewrite Hd. cbn [negb andb].
  rewrite andb_false_r. unfold bind at 1. rewrite Hcap.
  destruct (materializeScreencast host args result w_cap) as [[a|e] w'];
    reflexivity.
Qed.

End FallbackFacts.

(** ** The engine call *)

Section EngineCall.

Variable host : Host.

Lemma temp_event_not_engine e : temp_event host e -> not_engine e.
Proof. intros [n H]. destruct e; try reflexivity; contradiction. Qed.

Lemma materializeScreencast_no_engine args result :
  emits not_engine (materializeScreencast host args result).
Proof.
  apply emits_materializeScreencast; try reflexivity.
  apply temp_event_not_engine.
Qed.

Lemma materializeScreenshot_no_engine args result :
  emits not_engine (materializeScreenshot host args result).
Proof. apply emits_materializeScreenshot; reflexivity. Qed.

(** A request that passes the format check reaches the engine once, with
    [screencastOptions args]. *)
Lemma take_screencast_engine_call args w :
  truthy_opt_string (format args)
  && negb (truthy_opt_string (directory args)) = false ->
  exists evs rest,
    trace (take_screencast host args w).2 =
      trace w ++ evs ++ EvCaptureScreencast (screencastOptions args) :: rest
    /\ Forall not_engine evs /\ Forall not_engine rest.
Proof.
  intros Hg. unfold take_screencast, try_catch. unfold bind at 1.
  destruct (loadScreenshotModule_run w) as (w1 & evs & Hl & Ht & He & _).
  rewrite Hl, Hg. exists evs.
  cbv [bind captureScreencast tick emit lift_outcome ret throw].
  cbn [clock files dirs trace screenshotModule].
  destruct (engine_captureScreencast host (clock w1)
              (screencastOptions args)) as [result|e].
  - match goal with |- context [materializeScreencast host args result ?W] =>
      destruct (materializeScreencast_no_engine args result W)
        as (rest & Hr & Hrest);
      destruct (materializeScreencast host args result W) as [[a|e] w2]
    end; cbn [snd trace] in *; exists rest;
      rewrite Hr, Ht, <- !app_assoc; auto.
  - exists []. cbn [snd trace]. rewrite Ht, <- app_assoc. auto.
Qed.

Lemma take_screenshot_engine_call args w :
  exists evs rest,
    trace (take_screenshot host args w).2 =
      trace w ++ evs ++ EvCaptureScreenshot (screenshotOptions args) :: rest
    /\ Forall not_engine evs /\ Forall not_engine rest.
Proof.
  unfold take_screenshot, try_catch. unfold bind at 1.
  destruct (loadScreenshotModule_run w) as (w1 & evs & Hl & Ht & He & _).
  rewrite Hl. exists evs.
  cbv [bind captureScreenshot tick emit lift_outcome ret throw].
  cbn [clock files dirs trace screenshotModule].
  destruct (engine_captureScreenshot host (clock w1)
              (screenshotOptions args)) as [result|e].
  - match goal with |- context [materializeScreenshot host args result ?W] =>
      destruct (materializeScreenshot_no_engine args result W)
        as (rest & Hr & Hrest);
      destruct (materializeScreenshot host args result W) as [[a|e] w2]
    end; cbn [snd trace] in *; exists rest;
      rewrite Hr, Ht, <- !app_assoc; auto.
  - exists []. cbn [snd trace]. rewrite Ht, <- app_assoc. auto.
Qed.

(** A rejected request never reaches the engine. *)
Lemma take_screencast_rejected args w :
  truthy_opt_string (format args)
  && negb (truthy_opt_string (directory args)) = true ->
  (take_screencast host args w).1 = Throw (JsError format_error_message)
  /\ exists evs,
       trace (take_screencast host args w).2 = trace w ++ evs
       /\ Forall not_engine evs.
Proof.
  intros Hg.
  destruct (loadScreenshotModule_run w) as (w1 & evs & Hl & Ht & He & _).
  assert (Hrun : take_screencast host args w =
                 (Throw (JsError format_error_message), w1)).
  { unfold take_screencast, try_catch. unfold bind at 1.
    rewrite Hl, Hg. reflexivity. }
  rewrite Hrun. split; [reflexivity|]. exists evs. auto.
Qed.

End EngineCall.

(** ** Claims on the handlers *)

(** A directory that is there stays there when the assembler has run,
    unless it lies in the assembler's temporary directory. *)
Lemma is_dir_after_assembler (host : Host) frames delay endDelay quality
    (w : World) (dir : string) :
  under (tempDir_of host (crypto_randomUUID host (clock w))) dir = false ->
  is_dir w (locate dir) = true ->
  is_dir (createAnimatedWebP host frames delay endDelay quality w).2
         (locate dir) = true.
Proof.
  intros Hout Hd. unfold is_dir in *.
  apply orb_true_iff in Hd as [Hd|Hd]; [rewrite Hd; reflexivity|].
  apply bool_decide_eq_true in Hd. apply orb_true_iff. right.
  apply bool_decide_eq_true.
  rewrite createAnimatedWebP_dirs. apply elem_of_filter. split.
  - change (spell (locate dir)) with (canonical dir).
    rewrite under_canonical. exact Hout.
  - apply elem_of_union_r, Hd.
Qed.



(** C5, as the code has it.  A request whose [format] is any non-empty
    string, the default ["webp"] included, and whose [directory] is missing
    or empty is refused with an error before the engine is called; a
    request with no [format], or with a [directory], passes this check and
    reaches the engine. *)
Theorem format_requires_directory (host : Host) (args : Args) (w : World) :
  (truthy_opt_string (format args) = true ->
   truthy_opt_string (directory args) = false ->
   (take_screencast host args w).1 = Throw (JsError format_error_message)
   /\ exists evs,
        trace (take_screencast host args w).2 = trace w ++ evs
        /\ Forall not_engine evs)
  /\ (truthy_opt_string (format args) = false
      \/ truthy_opt_string (directory args) = true ->
      exists evs rest,
        trace (take_screencast host args w).2 =
          trace w ++ evs
          ++ EvCaptureScreencast (screencastOptions args) :: rest
        /\ Forall not_engine evs /\ Forall not_engine rest).
Proof.
  split.
  - intros Hf Hd. apply take_screencast_rejected. rewrite Hf, Hd. reflexivity.
  - intros H. apply take_screencast_engine_call.
    destruct H as [-> | ->]; [reflexivity|apply andb_false_r].
Qed.

Lemma format_requires_directory_witness :
  (take_screencast (fixture_host "linux" true) (request None (Some "png"))
     empty_world).1 = Throw (JsError format_error_message)
  /\ exists evs rest,
       trace (take_screencast (fixture_host "linux" true) (request None None)
                empty_world).2 =
         trace empty_world ++ evs
         ++ EvCaptureScreencast (screencastOptions (request None None)) :: rest
       /\ Forall not_engine evs /\ Forall not_engine rest.
Proof.
  split.
  - refine (proj1 (proj1 (format_requires_directory
                            (fixture_host "linux" true)
                            (request None (Some "png")) empty_world) _ _));
      reflexivity.
  - refine (proj2 (format_requires_directory (fixture_host "linux" true)
                     (request None None) empty_world) _).
    left. reflexivity.
Defined.

(** C5 as stated fails: the default format, given explicitly without a
    directory, is refused like any other. *)
Lemma explicit_webp_without_directory_rejected :
  (take_screencast (fixture_host "linux" true) (request None (Some "webp"))
     empty_world).1 = Throw (JsError format_error_message).
Proof. vm_compute. reflexivity. Qed.

(** C8, as the code has it.  A generated name is
    [<prefix>_<host>_<time><suffix>.png]: the host name with every
    character that is not a letter or digit turned into [_], the ISO time of
    the moment of generation with [:] and [.] turned into [-], and the
    suffix [_frame<index+1>] when an index is given.  Every file
    [take_screenshot] writes has such a name with prefix [screenshot] in the
    requested directory.  Every file [take_screencast] writes is a frame
    with such a name and prefix [frame], or the animated asset
    [screencast_<host>_<time>.webp], or a temporary file of the assembler.
    Names generated at different times differ. *)
Theorem generated_file_names (host : Host) (args : Args) :
  let dir := nullish (directory args) "" in
  (forall u index prefix w h,
     url_hostname host u = Some h ->
     (generateFilename host u index prefix w).1 =
     Return (prefix +:+ "_" +:+ sanitize_hostname h +:+ "_"
             +:+ sanitize_timestamp (date_toISOString host (clock w))
             +:+ frame_suffix index +:+ ".png"))
  /\ (forall i, frame_suffix (Some i) = "_frame" +:+ pretty (i + 1)%nat)
  /\ frame_suffix None = ""
  /\ (forall h, string_forall is_word_char (sanitize_hostname h) = true)
  /\ (forall iso, no_dot (sanitize_timestamp iso) = true)
  /\ emits (screenshot_write host dir) (take_screenshot host args)
  /\ emits (screencast_write host dir) (take_screencast host args)
  /\ (forall prefix h t1 t2 suffix,
        t1 <> t2 ->
        filename_of prefix h t1 suffix <> filename_of prefix h t2 suffix).
Proof.
  intros dir. repeat split.
  - intros u index prefix w h Hu.
    rewrite (generateFilename_run host u index prefix w h Hu). reflexivity.
  - apply sanitize_hostname_word.
  - apply sanitize_timestamp_no_dot.
  - apply emits_take_screenshot; try (intros p d; discriminate).
    intros index name d Hg p d' [= <- <-]. exists index, name. auto.
  - apply emits_take_screencast; try (intros p d; discriminate).
    + intros i name d Hg p d' [= <- <-]. left. exists i, name. auto.
    + intros name d Hg p d' [= <- <-]. right. left. exists name. auto.
    + intros e He p d ->. right. right. exact He.
  - intros prefix h t1 t2 suffix Hne Heq.
    apply Hne. eapply filename_of_inj_timestamp, Heq.
Qed.

Lemma generated_file_names_witness :
  (generateFilename (fixture_host "linux" true) "https://example.com/"
     (Some 0%nat) "frame" empty_world).1
  = Return "frame_example_com_2025-01-02T03-04-05-678Z_frame1.png"
  /\ filename_of "frame" "example_com" "2025-01-02T03-04-05-678Z" ""
     <> filename_of "frame" "example_com" "2025-01-02T03-04-05-679Z" "".
Proof.
  pose proof (generated_file_names (fixture_host "linux" true)
                (request (Some "out") None)) as (Hname & _ & _ & _ & _ & _ & _ & Hdiff).
  split.
  - rewrite (Hname "https://example.com/" (Some 0%nat) "frame" empty_world
               "example.com"); reflexivity.
  - apply Hdiff. discriminate.
Defined.

(** C8 as stated fails: the animated asset of a screencast is a file
    written by the materialisation and its name ends in [.webp]. *)
Lemma animated_asset_is_not_png :
  EvWriteFile "out/screencast_example_com_2025-01-02T03-04-05-678Z.webp"
              [Byte.x52]
  ∈ trace (take_screencast (fixture_host "linux" true)
             (request (Some "out") None) empty_world).2
  /\ ends_with ".png"
       "out/screencast_example_com_2025-01-02T03-04-05-678Z.webp" = false.
Proof.
  split; [|reflexivity]. vm_compute.
  repeat (first [apply list_elem_of_here | apply list_elem_of_further]).
Qed.

(** ** Claims on the options handed to the engine *)

Lemma Qmin_cap_above (x : number) : (1072 < x)%Q -> Qmin x 1072 = 1072%Q.
Proof.
  intros H. unfold Qmin, GenericMinMax.gmin.
  apply Qgt_alt in H. rewrite H. reflexivity.
Qed.

Lemma Qmin_cap_below (x : number) : (x <= 1072)%Q -> Qmin x 1072 = x.
Proof.
  intros H. unfold Qmin, GenericMinMax.gmin.
  destruct (x ?= 1072)%Q eqn:E; [reflexivity|reflexivity|].
  exfalso. apply (Qlt_not_le 1072 x); [apply Qgt_alt; exact E | exact H].
Qed.

Lemma Qmin_cap_le (x : number) : (Qmin x 1072 <= 1072)%Q.
Proof. apply Q.le_min_r. Qed.

(** C9.  The viewport width of a screenshot, and the width and height of a
    screencast, are the requested value when it is at most 1072 and 1072
    when it is larger or missing; the engine is called with these values;
    and a request for more than 1072 is answered exactly as the same request
    for 1072, so nothing in the answer tells that a value was capped. *)
Theorem viewport_capped_silently (host : Host) (args : Args) :
  shot_viewport_width (screenshotOptions args) = effective (width args)
  /\ cast_viewport_width (screencastOptions args) = effective (width args)
  /\ cast_viewport_height (screencastOptions args) = effective (height args)
  /\ (forall r, (effective r <= 1072)%Q)
  /\ effective None = 1072%Q
  /\ (forall x, (x <= 1072)%Q -> effective (Some x) = x)
  /\ (forall x, (1072 < x)%Q -> effective (Some x) = 1072%Q)
  /\ emits (fun e => forall o, e = EvCaptureScreenshot o ->
                               o = screenshotOptions args)
           (take_screenshot host args)
  /\ emits (fun e => forall o, e = EvCaptureScreencast o ->
                               o = screencastOptions args)
           (take_screencast host args)
  /\ (forall x, (1072 < x)%Q ->
        take_screenshot host (with_width args (Some x))
        = take_screenshot host (with_width args (Some 1072%Q)))
  /\ (forall x, (1072 < x)%Q ->
        take_screencast host (with_width args (Some x))
        = take_screencast host (with_width args (Some 1072%Q)))
  /\ (forall y, (1072 < y)%Q ->
        take_screencast host (with_height args (Some y))
        = take_screencast host (with_height args (Some 1072%Q))).
Proof.
  repeat split.
  - intros r. apply Qmin_cap_le.
  - intros x. apply Qmin_cap_below.
  - intros x. apply Qmin_cap_above.
  - apply emits_take_screenshot; try (intros o; discriminate).
    intros o [= <-]. reflexivity.
  - apply emits_take_screencast; try (intros o; discriminate).
    + intros o [= <-]. reflexivity.
    + intros e [n He] o ->. contradiction.
  - intros x Hx. unfold take_screenshot, screenshotOptions.
    cbn [width with_width nullish]. rewrite (Qmin_cap_above x Hx).
    reflexivity.
  - intros x Hx. unfold take_screencast, screencastOptions.
    cbn [width with_width nullish]. rewrite (Qmin_cap_above x Hx).
    reflexivity.
  - intros y Hy. unfold take_screencast, screencastOptions.
    cbn [height with_height nullish]. rewrite (Qmin_cap_above y Hy).
    reflexivity.
Qed.

Lemma viewport_capped_silently_witness :
  effective (Some 800%Q) = 800%Q
  /\ effective (Some 4000%Q) = 1072%Q
  /\ take_screenshot (fixture_host "linux" true)
       (with_width (request None None) (Some 4000%Q))
     = take_screenshot (fixture_host "linux" true)
         (with_width (request None None) (Some 1072%Q)).
Proof.
  pose proof (viewport_capped_silently (fixture_host "linux" true)
                (request None None))
    as (_ & _ & _ & _ & _ & Hbelow & Habove & _ & _ & Hshot & _).
  split; [|split].
  - apply Hbelow. discriminate.
  - apply Habove. reflexivity.
  - apply Hshot. reflexivity.
Defined.

(** C10.  Every call [take_screencast] makes to [captureScreencast] has
    [waitFor] undefined, and a [waitForMS] in the request changes nothing:
    the handler behaves as without it.  [take_screenshot] calls
    [captureScreenshot] with [waitFor] set to the request's [waitForMS]. *)
Theorem screencast_wait_ignored (host : Host) (args : Args) :
  emits (fun e => forall o, e = EvCaptureScreencast o -> cast_waitFor o = None)
        (take_screencast host args)
  /\ (forall ms,
        take_screencast host (with_waitForMS args ms)
        = take_screencast host args)
  /\ (forall w,
        truthy_opt_string (format args)
        && negb (truthy_opt_string (directory args)) = false ->
        exists evs rest o,
          trace (take_screencast host args w).2 =
            trace w ++ evs ++ EvCaptureScreencast o :: rest
          /\ cast_waitFor o = None)
  /\ emits (fun e => forall o, e = EvCaptureScreenshot o ->
                               shot_waitFor o = waitForMS args)
           (take_screenshot host args)
  /\ (forall w, exists evs rest o,
        trace (take_screenshot host args w).2 =
          trace w ++ evs ++ EvCaptureScreenshot o :: rest
        /\ shot_waitFor o = waitForMS args).
Proof.
  repeat split.
  - apply emits_take_screencast; try (intros o; discriminate).
    + intros o [= <-]. reflexivity.
    + intros e [n He] o ->. contradiction.
  - intros w Hg.
    destruct (take_screencast_engine_call host args w Hg)
      as (evs & rest & Ht & _).
    exists evs, rest, (screencastOptions args). auto.
  - apply emits_take_screenshot; try (intros o; discriminate).
    intros o [= <-]. reflexivity.
  - intros w.
    destruct (take_screenshot_engine_call host args w)
      as (evs & rest & Ht & _).
    exists evs, rest, (screenshotOptions args). auto.
Qed.

Lemma screencast_wait_ignored_witness :
  exists evs rest o,
    trace (take_screencast (fixture_host "linux" true)
             (with_waitForMS (request (Some "out") None) (Some 5000%Q))
             empty_world).2 =
      trace empty_world ++ evs ++ EvCaptureScreencast o :: rest
    /\ cast_waitFor o = None.
Proof.
  refine (proj1 (proj2 (proj2
    (screencast_wait_ignored (fixture_host "linux" true)
       (with_waitForMS (request (Some "out") None) (Some 5000%Q))))) 
    empty_world _).
  reflexivity.
Defined.

(** ** Examples for the platform claim *)

Lemma encoder_binary_by_platform_witness :
  IMG2WEBP (fixture_host "darwin" true) = "/app/dist/bin/img2webp-darwin"
  /\ IMG2WEBP (fixture_host "win32" true) = "/app/dist/bin/img2webp-linux"
  /\ exists writes reads,
       trace (createAnimatedWebP (fixture_host "win32" false) [[Byte.x00]]
                100%Q None "medium" empty_world).2
       = EvMkdir "/tmp/webp-0000" :: writes
         ++ EvExeca "/app/dist/bin/img2webp-linux"
              (encoder_args (fixture_host "win32" false)
                 (uniqueFramesOf toy_digest [[Byte.x00]] 100%Q None) "medium")
              "/tmp/webp-0000" (Some (ExternalError "spawn ENOENT"))
            :: reads ++ [EvRm "/tmp/webp-0000"].
Proof.
  split; [|split].
  - refine (proj1 (encoder_binary_by_platform (fixture_host "darwin" true)
                     [] 100%Q None "medium" empty_world) _).
    reflexivity.
  - refine (proj1 (proj2 (encoder_binary_by_platform
                            (fixture_host "win32" true)
                            [] 100%Q None "medium" empty_world)) _).
    discriminate.
  - destruct (proj2 (proj2 (encoder_binary_by_platform
                              (fixture_host "win32" false)
                              [[Byte.x00]] 100%Q None "medium" empty_world)))
      as (writes & failure & reads & Ht & _ & _ & Hfail & _).
    rewrite (Hfail (ExternalError "spawn ENOENT") eq_refl) in Ht.
    exists writes, reads. exact Ht.
Defined.

(** C7 as stated fails: on a platform with no binary of its own the
    assembler raises no error of its own; it creates its temporary
    directory, tries the linux binary, and what the caller gets is the
    failure of that attempt. *)
Lemma unsupported_platform_creates_temp_dir :
  createAnimatedWebP (fixture_host "win32" false) [[Byte.x00]] 100%Q None
    "medium" empty_world
  = (Throw (ExternalError "spawn ENOENT"),
     {| files := ∅; dirs := {[ "/tmp" ]}; screenshotModule := false;
        clock := 2;
        trace :=
          [EvMkdir "/tmp/webp-0000";
           EvWriteFile "/tmp/webp-0000/f0.png" [Byte.x00];
           EvExeca "/app/dist/bin/img2webp-linux"
             ["-min_size"; "-mixed"; "-loop"; "0"; "-q"; "75"; "-m"; "6";
              "-d"; "100/1"; "f0.png"; "-o"; "out.webp"]
             "/tmp/webp-0000" (Some (ExternalError "spawn ENOENT"));
           EvRm "/tmp/webp-0000"] |}).
Proof. vm_compute. reflexivity. Qed.

(** * Further properties of the code *)

(** ** The deduplication loop and the runs of the input *)

(** X1.  The loop of [createAnimatedWebP] computes the decomposition of the
    frame sequence into maximal runs of equal digest: one entry per run, in
    order, holding the first buffer of the run and the base delay added up
    once per frame; the runs put end to end are the input, none is empty,
    all frames of a run share its digest and neighbouring runs differ. *)
Theorem dedup_is_run_decomposition (sha1_hex : Buffer -> string)
    (delay : number) (frames : list Buffer) :
  dedup sha1_hex delay frames
  = map (run_entry sha1_hex delay) (runs sha1_hex frames)
  /\ concat (runs sha1_hex frames) = frames
  /\ Forall (uniform_run sha1_hex) (runs sha1_hex frames)
  /\ adj_distinct (map (fun g => sha1_hex (List.hd [] g))
                       (runs sha1_hex frames)).
Proof.
  split; [apply dedup_runs|]. split; [apply runs_concat|].
  split; [apply runs_uniform|]. apply (runs_maximal sha1_hex delay).
Qed.

Lemma total_duration_app (l1 l2 : list UniqueFrame) :
  (total_duration (l1 ++ l2) == total_duration l1 + total_duration l2)%Q.
Proof.
  induction l1 as [|f l1 IH]; simpl.
  - ring.
  - rewrite IH. ring.
Qed.

Lemma total_duration_entries (sha1_hex : Buffer -> string) (delay : number)
    (rs : list (list Buffer)) :
  (total_duration (map (run_entry sha1_hex delay) rs)
   == delay * inject_Z (Z.of_nat (length (concat rs))))%Q.
Proof.
  induction rs as [|g rs IH]; simpl.
  - ring.
  - rewrite IH, accumulated_mult, length_app, Nat2Z.inj_add, inject_Z_plus.
    ring.
Qed.

(** X2.  Deduplication keeps the playing time.  With no end delay, or an
    end delay of zero, the durations handed to the encoder add up to the
    base delay times the number of input frames.  With an end delay that is
    not zero the frames of the last run count for the end delay instead. *)
Theorem dedup_keeps_playing_time (sha1_hex : Buffer -> string)
    (frames : list Buffer) (delay : number) :
  (total_duration (uniqueFramesOf sha1_hex frames delay None)
   == delay * inject_Z (Z.of_nat (length frames)))%Q
  /\ (forall e, truthy_number e = false ->
        (total_duration (uniqueFramesOf sha1_hex frames delay (Some e))
         == delay * inject_Z (Z.of_nat (length frames)))%Q)
  /\ (forall e g, truthy_number e = true ->
        last (runs sha1_hex frames) = Some g ->
        (total_duration (uniqueFramesOf sha1_hex frames delay (Some e))
         == delay * inject_Z (Z.of_nat (length frames - length g)) + e)%Q).
Proof.
  assert (Hplain : (total_duration (dedup sha1_hex delay frames)
                    == delay * inject_Z (Z.of_nat (length frames)))%Q).
  { rewrite dedup_runs, total_duration_entries, runs_concat. reflexivity. }
  split; [exact Hplain|]. split.
  - intros e He. unfold uniqueFramesOf, applyEndDelay. rewrite He.
    exact Hplain.
  - intros e g He Hg. unfold uniqueFramesOf, applyEndDelay. rewrite He.
    rewrite dedup_runs.
    pose proof (runs_concat sha1_hex frames) as Hc.
    destruct (runs sha1_hex frames) as [|g' rs] using rev_ind;
      [discriminate Hg|].
    rewrite last_snoc in Hg. injection Hg as ->.
    rewrite map_app. cbn [map].
    assert (Hpos : (0 <? length (map (run_entry sha1_hex delay) rs
                                 ++ [run_entry sha1_hex delay g]))%nat = true).
    { apply Nat.ltb_lt. rewrite length_app. simpl. lia. }
    rewrite Hpos. cbn [andb]. rewrite alter_last_snoc.
    rewrite total_duration_app, total_duration_entries.
    rewrite <- Hc, concat_app, length_app. cbn [concat length].
    rewrite app_nil_r.
    replace (length (concat rs) + length g - length g)%nat
      with (length (concat rs)) by lia.
    simpl. ring.
Qed.

Lemma dedup_keeps_playing_time_witness :
  (total_duration (uniqueFramesOf toy_digest
                     [[Byte.x00]; [Byte.x00]; [Byte.x01; Byte.x02];
                      [Byte.x03; Byte.x04]] 100%Q (Some 4000%Q))
   == 100 * 2 + 4000)%Q.
Proof.
  refine (proj2 (proj2 (dedup_keeps_playing_time toy_digest
            [[Byte.x00]; [Byte.x00]; [Byte.x01; Byte.x02];
             [Byte.x03; Byte.x04]] 100%Q)) 4000%Q
            [[Byte.x01; Byte.x02]; [Byte.x03; Byte.x04]] _ _);
    reflexivity.
Defined.

(** X3.  Two names generated with different frame indices differ, whatever
    the prefixes, host names and times: the files of the tiles of one
    screenshot, and of the frames of one screencast, cannot overwrite each
    other even when they are written within the same millisecond. *)
Theorem frame_names_distinct (p1 h1 t1 p2 h2 t2 : string) (i j : nat) :
  i <> j ->
  filename_of p1 h1 t1 (frame_suffix (Some i))
  <> filename_of p2 h2 t2 (frame_suffix (Some j)).
Proof.
  intros Hij H. unfold filename_of, frame_suffix in H.
  rewrite <- !string_app_assoc in H. apply string_app_inv_tail in H.
  rewrite !string_app_assoc in H.
  rewrite <- !(string_app_assoc _ _ ("_frame" +:+ _)) in H.
  apply frame_number_unique in H. lia.
Qed.

Lemma frame_names_distinct_witness :
  filename_of "frame" "example_com" "2025-01-02T03-04-05-678Z"
    (frame_suffix (Some 0%nat))
  <> filename_of "frame" "example_com" "2025-01-02T03-04-05-678Z"
       (frame_suffix (Some 10%nat)).
Proof. apply frame_names_distinct. discriminate. Defined.

(** ** What a computation leaves as it was *)

Section Changes.

Context {R : relation World} `{!PreOrder R}.

Lemma changes_ret {A : Type} (Q : A -> Prop) (a : A) :
  Q a -> changes R Q (ret a).
Proof. intros H w. split; [reflexivity|]. intros a' [= <-]. exact H. Qed.

Lemma changes_throw {A : Type} (Q : A -> Prop) e : changes R Q (throw e).
Proof. intros w. split; [reflexivity|discriminate]. Qed.

Lemma changes_bind {A B : Type} (Q : A -> Prop) (Q' : B -> Prop)
    (m : M A) (k : A -> M B) :
  changes R Q m -> (forall a, Q a -> changes R Q' (k a)) ->
  changes R Q' (bind m k).
Proof.
  intros Hm Hk w. unfold bind. destruct (Hm w) as [HR Ha].
  destruct (m w) as [[a|e] w1]; cbn [fst snd] in *.
  - destruct (Hk a (Ha a eq_refl) w1) as [HR' Hb].
    split; [etransitivity; eassumption|exact Hb].
  - split; [exact HR|discriminate].
Qed.

Lemma changes_try_catch {A : Type} (Q : A -> Prop) (m : M A)
    (h : Error -> M A) :
  changes R Q m -> (forall e, changes R Q (h e)) ->
  changes R Q (try_catch m h).
Proof.
  intros Hm Hh w. unfold try_catch. destruct (Hm w) as [HR Ha].
  destruct (m w) as [[a|e] w1]; cbn [fst snd] in *.
  - split; [exact HR|exact Ha].
  - destruct (Hh e w1) as [HR' Hb].
    split; [etransitivity; eassumption|exact Hb].
Qed.

Lemma changes_any {A : Type} (Q : A -> Prop) (m : M A) :
  changes R Q m -> changes R anything m.
Proof. intros H w. split; [apply H|]. intros; exact I. Qed.

(** What only reads, counts or logs is as good as nothing. *)
Lemma changes_step {A : Type} (m : M A) :
  (forall w, R w (m w).2) -> changes R anything m.
Proof. intros H w. split; [apply H|]. intros; exact I. Qed.

End Changes.

(** ** Files outside the output directory *)

#[export] Instance untouched_preorder (keepf keepd : string -> Prop) :
  PreOrder (untouched keepf keepd).
Proof.
  split.
  - intros w. split; intros p _; reflexivity.
  - intros w1 w2 w3 [Hf12 Hd12] [Hf23 Hd23]. split; intros p Hp.
    + rewrite (Hf23 p Hp). apply Hf12, Hp.
    + rewrite (Hd23 p Hp). apply Hd12, Hp.
Qed.

#[export] Instance settled_preorder (keepf keepd : string -> Prop) :
  PreOrder (settled keepf keepd).
Proof.
  split.
  - intros w. split; [reflexivity|]. intros H. exact H.
  - intros w1 w2 w3 [Hu12 Hm12] [Hu23 Hm23].
    split; [etransitivity; eassumption|]. intros H. auto.
Qed.

Lemma under_neq_join (d name p : string) :
  plain name = true -> under d p = false -> p <> join d name.
Proof. intros Hn H ->. rewrite (under_join d name Hn) in H. discriminate. Qed.

Lemma lookup_foldl_insert_other (written : list (string * Buffer)) p :
  forall fs : gmap string Buffer,
    Forall (fun kv => kv.1 <> p) written ->
    foldl (fun fs kv => <[kv.1:=kv.2]> fs) fs written !! p = fs !! p.
Proof.
  induction written as [|kv rest IH]; intros fs H; [reflexivity|].
  apply Forall_cons in H as [Hkv Hrest]. cbn [foldl].
  rewrite IH by exact Hrest. apply lookup_insert_ne. exact Hkv.
Qed.

Section Confinement.

Variable host : Host.
Variable dir : string.
Variables keepf keepd : string -> Prop.
Hypothesis keepf_dir : forall p, keepf p -> under dir p = false.
Hypothesis keepd_dir : forall p, keepd p -> p ∉ made_by_mkdir dir.
Hypothesis keepf_temp : forall p, keepf p -> outside_temp host p.
Hypothesis keepd_temp :
  forall p, keepd p -> outside_temp host p /\ beside_temp host p.
Hypothesis confined : (exists p, keepf p) -> encoder_confined host.
Hypothesis named : (exists p, keepf p) -> iso_timestamps host.

Local Abbreviation U := (settled keepf keepd).

Lemma untouched_same_fs w w' :
  files w' = files w -> dirs w' = dirs w ->
  (screenshotModule w = true -> screenshotModule w' = true) -> U w w'.
Proof.
  intros Hf Hd Hm. split; [|exact Hm].
  split; intros p _; [rewrite Hf|rewrite Hd]; reflexivity.
Qed.

Lemma untouched_fs w w' :
  untouched keepf keepd w w' ->
  screenshotModule w' = screenshotModule w -> U w w'.
Proof. intros Hu Hm. split; [exact Hu|]. intros H. congruence. Qed.

Lemma untouched_emit ev : changes U anything (emit ev).
Proof. apply changes_step. intros w. apply untouched_same_fs; auto. Qed.

Lemma untouched_tick : changes U anything tick.
Proof. apply changes_step. intros w. apply untouched_same_fs; auto. Qed.

Lemma untouched_get_world : changes U anything get_world.
Proof. apply changes_step. intros w. reflexivity. Qed.

Lemma untouched_mkdir d :
  (forall p, keepd p -> p ∉ made_by_mkdir d) ->
  changes U anything (mkdir d).
Proof.
  intros H. apply changes_step. intros w. rewrite mkdir_run.
  apply untouched_fs; [|reflexivity]. cbn [snd].
  split; intros p Hp; cbn [files dirs]; [reflexivity|].
  specialize (H p Hp). rewrite elem_of_union. tauto.
Qed.

Lemma untouched_writeFile path data :
  (forall p, keepf p -> p <> canonical path) ->
  changes U anything (writeFile path data).
Proof.
  intros H. apply changes_step. intros w.
  cbv [writeFile bind emit get_world set_fs throw].
  cbn [files dirs screenshotModule clock trace].
  destruct (is_dir _ _); [|destruct (existsb _ _);
                            apply untouched_same_fs; auto].
  apply untouched_fs; [|reflexivity]. cbn [snd].
  split; intros p Hp; cbn [files dirs]; [|reflexivity].
  apply lookup_insert_ne. specialize (H p Hp). unfold canonical in H.
  congruence.
Qed.

Lemma untouched_readFile path : changes U anything (readFile path).
Proof.
  apply changes_step. intros w.
  unfold readFile. cbv [bind emit get_world]. cbn [files].
  destruct (files w !! canonical path); apply untouched_same_fs; auto.
Qed.

Lemma untouched_rm d :
  (forall p, keepf p -> under d p = false) ->
  (forall p, keepd p -> under d p = false) ->
  changes U anything (rm d).
Proof.
  intros Hf Hd. apply changes_step. intros w. rewrite rm_run.
  apply untouched_fs; [|reflexivity]. cbn [snd].
  split; intros p Hp; cbn [files dirs].
  - specialize (Hf p Hp). destruct (files w !! p) as [x|] eqn:E.
    + apply map_lookup_filter_Some. auto.
    + apply map_lookup_filter_None. left. exact E.
  - specialize (Hd p Hp). rewrite elem_of_filter. tauto.
Qed.

Lemma untouched_execa file argv cwd :
  (forall p, keepf p -> under cwd p = false) ->
  changes U anything (execa host file argv cwd).
Proof using confined.
  intros H. apply changes_step. intros w.
  unfold execa. cbv [bind tick get_world]. cbn [clock files].
  destruct (process_execa host (clock w) file argv cwd (files w))
    as [written|e] eqn:Ex.
  - apply untouched_fs; [|reflexivity].
    cbv [bind emit set_fs]. cbn [snd files dirs].
    split; intros p Hp; cbn [files dirs]; [|reflexivity].
    apply lookup_foldl_insert_other.
    eapply Forall_impl;
      [exact (confined (ex_intro _ p Hp) _ _ _ _ _ _ Ex)|].
    intros kv Hkv Heq. cbn beta in Hkv.
    rewrite Heq, (H _ Hp) in Hkv. discriminate.
  - apply untouched_same_fs; auto.
Qed.

Lemma untouched_ensureDirectory : changes U anything (ensureDirectory dir).
Proof using keepd_dir.
  unfold ensureDirectory. eapply changes_bind.
  - apply changes_step. intros w. reflexivity.
  - intros [|] _; [apply changes_ret; exact I|].
    apply untouched_mkdir, keepd_dir.
Qed.

Lemma untouched_generateFilename u index prefix :
  changes U (generated_png host prefix index)
          (generateFilename host u index prefix).
Proof.
  intros w. unfold generateFilename, new_URL_hostname.
  destruct (url_hostname host u) as [h|]; cbn.
  - split; [apply untouched_same_fs; auto|].
    intros a [= <-]. exists h, (clock w). reflexivity.
  - split; [apply untouched_same_fs; auto|]. discriminate.
Qed.

Lemma untouched_write_in_dir name data :
  ((exists p, keepf p) -> plain name = true) ->
  changes U anything (writeFile (join dir name) data).
Proof using keepf_dir.
  intros Hn. apply untouched_writeFile. intros p Hp.
  assert (Hplain : plain name = true) by (apply Hn; eauto).
  rewrite (canonical_join dir name Hplain).
  apply under_neq_join; [exact Hplain|apply keepf_dir, Hp].
Qed.

Lemma untouched_write_generated prefix index name data :
  slash_free prefix = true ->
  generated_png host prefix index name ->
  changes U anything (writeFile (join dir name) data).
Proof using keepf_dir named.
  intros Hp Hg. apply untouched_write_in_dir. intros Hex.
  exact (generated_png_plain host prefix index name (named Hex) Hp Hg).
Qed.

Lemma untouched_saveTiles u (tiles : list Tile) :
  forall i acc, changes U anything (saveTiles host u dir i tiles acc).
Proof using keepf_dir named.
  induction tiles as [|t rest IH]; intros i acc; cbn [saveTiles].
  - apply changes_ret. exact I.
  - eapply changes_bind; [apply untouched_generateFilename|]. intros name Hg.
    eapply changes_bind;
      [eapply untouched_write_generated; [|exact Hg]; reflexivity|].
    intros _ _. apply IH.
Qed.

Lemma untouched_savePngFrames u (fs : list Frame) :
  forall i acc, changes U anything (savePngFrames host u dir i fs acc).
Proof using keepf_dir named.
  induction fs as [|f rest IH]; intros i acc; cbn [savePngFrames].
  - apply changes_ret. exact I.
  - eapply changes_bind; [apply untouched_generateFilename|]. intros name Hg.
    eapply changes_bind;
      [eapply untouched_write_generated; [|exact Hg]; reflexivity|].
    intros _ _. apply IH.
Qed.

Lemma untouched_fallbackPngFrames u (fs : list Frame) i acc :
  changes U anything (fallbackPngFrames host u dir i fs acc).
Proof using keepf_dir named.
  intros w. rewrite fallbackPngFrames_eq. apply untouched_savePngFrames.
Qed.

Lemma untouched_writeFrames tempDir (ufs : list UniqueFrame) :
  (forall p, keepf p -> under tempDir p = false) ->
  forall i, changes U anything (writeFrames tempDir i ufs).
Proof.
  intros H. induction ufs as [|f rest IH]; intros i; cbn [writeFrames].
  - apply changes_ret. exact I.
  - eapply changes_bind; [|intros _ _; apply IH].
    apply untouched_writeFile. intros p Hp.
    rewrite (canonical_join tempDir _ (frame_file_plain i)).
    apply under_neq_join; [apply frame_file_plain|apply H, Hp].
Qed.

Lemma untouched_randomUUID : changes U (is_uuid host) (randomUUID host).
Proof.
  intros w. split; [apply untouched_same_fs; auto|].
  intros a [= <-]. exists (clock w). reflexivity.
Qed.

(** The assembler once its temporary directory is chosen. *)
Lemma untouched_assembling uuid frames delay endDelay quality :
  (forall p, keepf p -> under (tempDir_of host uuid) p = false) ->
  (forall p, keepd p -> under (tempDir_of host uuid) p = false
                        /\ p ∉ made_by_mkdir (tempDir_of host uuid)) ->
  changes U anything (assembling host uuid frames delay endDelay quality).
Proof using confined.
  intros Hf Hd. unfold assembling. cbv zeta.
  assert (Hrm : changes U anything (rm (tempDir_of host uuid))).
  { apply untouched_rm; [exact Hf|]. intros p Hp. apply Hd, Hp. }
  eapply changes_bind.
  { apply untouched_mkdir. intros p Hp. apply Hd, Hp. }
  intros _ _. apply changes_try_catch.
  - eapply changes_bind; [apply untouched_writeFrames, Hf|]. intros _ _.
    eapply changes_bind; [apply untouched_execa, Hf|]. intros _ _.
    eapply changes_bind; [apply untouched_readFile|]. intros data _.
    eapply changes_bind; [exact Hrm|]. intros _ _.
    apply changes_ret. exact I.
  - intros e. eapply changes_bind; [|intros _ _; apply changes_throw].
    apply changes_try_catch; [exact Hrm|].
    intros _. apply changes_ret. exact I.
Qed.

Lemma untouched_createAnimatedWebP frames delay endDelay quality :
  changes U anything (createAnimatedWebP host frames delay endDelay quality).
Proof using keepf_temp keepd_temp confined.
  unfold createAnimatedWebP.
  eapply changes_bind; [apply untouched_randomUUID|]. intros uuid [n ->].
  apply untouched_assembling.
  - intros p Hp. apply keepf_temp, Hp.
  - intros p Hp. destruct (keepd_temp p Hp) as [H1 H2]. split; [apply H1|apply H2].
Qed.

Lemma untouched_loadScreenshotModule : changes U anything loadScreenshotModule.
Proof.
  apply changes_step. intros w. unfold loadScreenshotModule.
  cbv [bind get_world]. destruct (screenshotModule w);
    apply untouched_same_fs; auto.
Qed.

Lemma untouched_captureScreenshot o :
  changes U anything (captureScreenshot host o).
Proof.
  apply changes_step. intros w. unfold captureScreenshot.
  cbv [bind tick emit lift_outcome]. cbn [clock].
  destruct (engine_captureScreenshot host (clock w) o);
    apply untouched_same_fs; auto.
Qed.

Lemma untouched_captureScreencast o :
  changes U anything (captureScreencast host o).
Proof.
  apply changes_step. intros w. unfold captureScreencast.
  cbv [bind tick emit lift_outcome]. cbn [clock].
  destruct (engine_captureScreencast host (clock w) o);
    apply untouched_same_fs; auto.
Qed.

Lemma untouched_take_screenshot args :
  dir = nullish (directory args) "" ->
  changes U anything (take_screenshot host args).
Proof using keepf_dir keepd_dir named.
  intros Hdir. unfold take_screenshot.
  apply changes_try_catch; [|intros e; apply changes_throw].
  eapply changes_bind; [apply untouched_loadScreenshotModule|]. intros _ _.
  eapply changes_bind; [apply untouched_captureScreenshot|]. intros result _.
  unfold materializeScreenshot. rewrite <- Hdir.
  destruct (truthy_opt_string (directory args)).
  - eapply changes_bind; [apply untouched_ensureDirectory|]. intros _ _.
    destruct result as [shot vp|tiles fw fh ts].
    + eapply changes_bind; [apply untouched_generateFilename|]. intros name Hg.
      eapply changes_bind;
        [eapply untouched_write_generated; [|exact Hg]; reflexivity|].
      intros _ _. apply changes_ret. exact I.
    + eapply changes_bind; [apply untouched_saveTiles|]. intros paths _.
      apply changes_ret. exact I.
  - destruct result; apply changes_ret; exact I.
Qed.

Lemma untouched_take_screencast args :
  dir = nullish (directory args) "" ->
  changes U anything (take_screencast host args).
Proof using keepf_dir keepd_dir keepf_temp keepd_temp confined named.
  intros Hdir. unfold take_screencast.
  apply changes_try_catch; [|intros e; apply changes_throw].
  eapply changes_bind; [apply untouched_loadScreenshotModule|]. intros _ _.
  destruct (truthy_opt_string (format args)
            && negb (truthy_opt_string (directory args)));
    [apply changes_throw|].
  eapply changes_bind; [apply untouched_captureScreencast|]. intros result _.
  unfold materializeScreencast. rewrite <- Hdir.
  destruct (truthy_opt_string (directory args));
    [|apply changes_ret; exact I].
  eapply changes_bind; [apply untouched_ensureDirectory|]. intros _ _.
  destruct (String.eqb (nullish (format args) "webp") "png").
  - eapply changes_bind; [apply untouched_savePngFrames|]. intros paths _.
    apply changes_ret. exact I.
  - eapply changes_bind with (Q := anything).
    + unfold tryCreateWebP.
      apply changes_try_catch; [|intros e; apply changes_ret; exact I].
      eapply changes_bind; [apply untouched_createAnimatedWebP|].
      intros b _. apply changes_ret. exact I.
    + intros [webp|] _.
      * eapply changes_bind; [apply untouched_generateFilename|].
        intros name Hg.
        eapply changes_bind; [|intros _ _; apply changes_ret; exact I].
        apply untouched_write_in_dir. intros Hex.
        apply (generated_webp_plain host _ (named Hex)).
        apply webp_name, Hg.
      * eapply changes_bind; [apply untouched_fallbackPngFrames|].
        intros paths _. apply changes_ret. exact I.
Qed.

End Confinement.





(** ** The lazily loaded module *)

Section ModuleCache.

Variable host : Host.

Lemma loadScreenshotModule_noop w :
  screenshotModule w = true -> loadScreenshotModule w = (Return tt, w).
Proof.
  intros H. unfold loadScreenshotModule. cbv [bind get_world ret].
  rewrite H. reflexivity.
Qed.

Lemma screenshotModule_after_load w :
  screenshotModule (loadScreenshotModule w).2 = true.
Proof.
  unfold loadScreenshotModule. cbv [bind get_world ret emit].
  destruct (screenshotModule w) eqn:E; [exact E|reflexivity].
Qed.

Lemma loadScreenshotModule_twice w :
  loadScreenshotModule (loadScreenshotModule w).2
  = (Return tt, (loadScreenshotModule w).2).
Proof. apply loadScreenshotModule_noop, screenshotModule_after_load. Qed.

Lemma loadScreenshotModule_pair w :
  loadScreenshotModule w = (Return tt, (loadScreenshotModule w).2).
Proof.
  destruct (loadScreenshotModule_run w) as (w1 & evs & H & _).
  rewrite H. reflexivity.
Qed.

(** A handler behaves as if the module had been loaded just before. *)
Lemma take_screenshot_after_load args w :
  take_screenshot host args w
  = take_screenshot host args (loadScreenshotModule w).2.
Proof.
  unfold take_screenshot, try_catch. unfold bind at 1 3.
  rewrite loadScreenshotModule_twice, (loadScreenshotModule_pair w).
  reflexivity.
Qed.

Lemma take_screencast_after_load args w :
  take_screencast host args w
  = take_screencast host args (loadScreenshotModule w).2.
Proof.
  unfold take_screencast, try_catch. unfold bind at 1 3.
  rewrite loadScreenshotModule_twice, (loadScreenshotModule_pair w).
  reflexivity.
Qed.

Lemma nothing_kept (P : string -> Prop) : forall p : string, False -> P p.
Proof. intros p []. Qed.

Lemma nothing_kept_ex (Q : Prop) : (exists p : string, False) -> Q.
Proof. intros [p []]. Qed.

Lemma temp_event_not_import e : temp_event host e -> not_import e.
Proof. intros [n H] ->. exact H. Qed.

(** X6.  The capture module is imported at most once: after any call of
    [take_screenshot] or [take_screencast], successful or not, the module is
    cached, and a call made when it is cached imports nothing. *)
Theorem module_imported_once (args : Args) :
  (forall w, screenshotModule (take_screenshot host args w).2 = true)
  /\ (forall w, screenshotModule (take_screencast host args w).2 = true)
  /\ (forall w, screenshotModule w = true ->
        exists evs,
          trace (take_screenshot host args w).2 = trace w ++ evs
          /\ Forall not_import evs)
  /\ (forall w, screenshotModule w = true ->
        exists evs,
          trace (take_screencast host args w).2 = trace w ++ evs
          /\ Forall not_import evs).
Proof.
  split; [|split; [|split]].
  - intros w. rewrite take_screenshot_after_load.
    destruct (untouched_take_screenshot host (nullish (directory args) "")
                (fun _ => False) (fun _ => False)
                (nothing_kept _) (nothing_kept _) (nothing_kept_ex _)
                args eq_refl (loadScreenshotModule w).2) as [[_ Hm] _].
    apply Hm, screenshotModule_after_load.
  - intros w. rewrite take_screencast_after_load.
    destruct (untouched_take_screencast host (nullish (directory args) "")
                (fun _ => False) (fun _ => False)
                (nothing_kept _) (nothing_kept _) (nothing_kept _)
                (nothing_kept _) (nothing_kept_ex _) (nothing_kept_ex _)
                args eq_refl (loadScreenshotModule w).2) as [[_ Hm] _].
    apply Hm, screenshotModule_after_load.
  - intros w Hw.
    assert (Hrest : emits not_import
              (try_catch
                 (let* result := captureScreenshot host (screenshotOptions args)
                  in materializeScreenshot host args result)
                 (fun error => throw error))).
    { apply emits_try_catch; [|intros e; apply emits_throw].
      apply emits_bind; [apply emits_captureScreenshot; discriminate|].
      intros result. apply emits_materializeScreenshot; discriminate. }
    destruct (Hrest w) as (evs & Ht & He). exists evs.
    split; [|exact He]. rewrite <- Ht.
    unfold take_screenshot, try_catch. unfold bind at 1.
    rewrite (loadScreenshotModule_noop w Hw). reflexivity.
  - intros w Hw.
    assert (Hrest : emits not_import
              (try_catch
                 (if truthy_opt_string (format args)
                     && negb (truthy_opt_string (directory args))
                  then throw (JsError format_error_message)
                  else
                    let* result :=
                      captureScreencast host (screencastOptions args) in
                    materializeScreencast host args result)
                 (fun error => throw error))).
    { apply emits_try_catch; [|intros e; apply emits_throw].
      destruct (truthy_opt_string (format args)
                && negb (truthy_opt_string (directory args)));
        [apply emits_throw|].
      apply emits_bind; [apply emits_captureScreencast; discriminate|].
      intros result. apply emits_materializeScreencast; try discriminate.
      apply temp_event_not_import. }
    destruct (Hrest w) as (evs & Ht & He). exists evs.
    split; [|exact He]. rewrite <- Ht.
    unfold take_screencast, try_catch. unfold bind at 1.
    rewrite (loadScreenshotModule_noop w Hw). reflexivity.
Qed.

End ModuleCache.

Lemma module_imported_once_witness :
  exists evs,
    trace (take_screencast (fixture_host "linux" true)
             (request (Some "out") None)
             (take_screenshot (fixture_host "linux" true)
                (request None None) empty_world).2).2
    = trace (take_screenshot (fixture_host "linux" true)
               (request None None) empty_world).2 ++ evs
      /\ Forall not_import evs.
Proof.
  refine (proj2 (proj2 (proj2
    (module_imported_once (fixture_host "linux" true)
       (request (Some "out") None)))) _ _).
  exact (proj1 (module_imported_once (fixture_host "linux" true)
                  (request None None)) empty_world).
Defined.

(** ** The assembler and the encoder *)

Section AssemblerExact.

Variable host : Host.

(** The run of the assembler, with the frame files spelled out. *)
Lemma createAnimatedWebP_exact frames delay endDelay quality w :
  let tempDir := tempDir_of host (crypto_randomUUID host (clock w)) in
  let ufs := uniqueFramesOf (digest_sha1_hex host) frames delay endDelay in
  let argv := encoder_args host ufs quality in
  let ready := with_frames tempDir 0 ufs (files w) in
  let out := createAnimatedWebP host frames delay endDelay quality w in
  exists failure reads,
    trace out.2 =
      trace w ++ EvMkdir tempDir :: frame_writes tempDir 0 ufs
      ++ EvExeca (IMG2WEBP host) argv tempDir failure :: reads
      ++ [EvRm tempDir]
    /\ match process_execa host (S (clock w)) (IMG2WEBP host) argv tempDir
               ready with
       | Throw e => failure = Some e /\ reads = [] /\ out.1 = Throw e
       | Return written =>
           failure = None
           /\ reads = [EvReadFile (join tempDir "out.webp")]
           /\ out.1 =
              match foldl (fun fs kv => <[kv.1:=kv.2]> fs) ready written
                    !! join tempDir "out.webp" with
              | Some data => Return data
              | None => Throw (ENOENT (join tempDir "out.webp"))
              end
       end.
Proof.
  intros tempDir ufs argv ready out. subst out.
  destruct (createAnimatedWebP_run host frames delay endDelay quality w)
    as (w1 & w_last & r & Hrun & Hf1 & Ht1 & _ & _ & Hcase).
  fold tempDir ufs argv in Hrun, Hf1, Ht1, Hcase.
  rewrite Hf1 in Hcase. fold ready in Hcase. rewrite Hrun, rm_run.
  cbn [fst snd trace].
  destruct (process_execa host (S (clock w)) (IMG2WEBP host) argv tempDir
              ready) as [written|e].
  - destruct Hcase as (Hfl & Ht2 & Hr).
    exists None, [EvReadFile (join tempDir "out.webp")].
    rewrite Ht2, Ht1, <- !app_assoc. split; [reflexivity|].
    split; [reflexivity|]. split; [reflexivity|].
    rewrite Hfl in Hr.
    destruct (foldl _ ready written !! join tempDir "out.webp"); exact Hr.
  - destruct Hcase as (Hr & _ & Ht2).
    exists (Some e), []. rewrite Ht2, Ht1, <- !app_assoc. auto.
Qed.

Lemma frame_writes_start_nothing tempDir i (ufs : list UniqueFrame) :
  filter starts_encoder (frame_writes tempDir i ufs) = [].
Proof.
  revert i. induction ufs as [|f rest IH]; intros i; [reflexivity|].
  rewrite frame_writes_cons, filter_cons_False by (intros []). apply IH.
Qed.

Lemma encoder_args_lookup (ufs : list UniqueFrame) quality :
  forall i f, ufs !! i = Some f ->
    encoder_args host ufs quality !! (8 + 3 * i)%nat = Some "-d"
    /\ encoder_args host ufs quality !! (9 + 3 * i)%nat
       = Some (String_number host (duration f))
    /\ encoder_args host ufs quality !! (10 + 3 * i)%nat
       = Some (frame_file i).
Proof.
  unfold encoder_args.
  assert (H : forall (l : list UniqueFrame) j i f tl, l !! i = Some f ->
            let body := concat (imap (fun k frame =>
                          ["-d"; String_number host (duration frame);
                           frame_file (j + k)]) l) ++ tl in
            body !! (3 * i)%nat = Some "-d"
            /\ body !! (1 + 3 * i)%nat = Some (String_number host (duration f))
            /\ body !! (2 + 3 * i)%nat = Some (frame_file (j + i))).
  { induction l as [|x l IH]; intros j i f tl Hi; [discriminate|].
    destruct i as [|i]; cbn in Hi.
    - injection Hi as ->. cbn. rewrite Nat.add_0_r. auto.
    - cbn zeta. cbn [imap concat]. rewrite <- app_assoc.
      replace (3 * S i)%nat with (3 + 3 * i)%nat by lia.
      replace (1 + (3 + 3 * i))%nat with (3 + (1 + 3 * i))%nat by lia.
      replace (2 + (3 + 3 * i))%nat with (3 + (2 + 3 * i))%nat by lia.
      cbn [app lookup list_lookup Nat.add].
      specialize (IH (S j) i f tl Hi). cbn zeta in IH.
      replace (j + S i)%nat with (S j + i)%nat by lia.
      erewrite (imap_ext _ (fun k frame =>
                  ["-d"; String_number host (duration frame);
                   frame_file (S j + k)]));
        [exact IH|].
      intros k y _. cbn. rewrite Nat.add_succ_r. reflexivity. }
  intros i f Hi. specialize (H ufs 0%nat i f ["-o"; "out.webp"] Hi).
  cbn zeta in H. cbn [Nat.add] in H.
  replace (8 + 3 * i)%nat with (8 + (3 * i))%nat by lia.
  replace (9 + 3 * i)%nat with (8 + (1 + 3 * i))%nat by lia.
  replace (10 + 3 * i)%nat with (8 + (2 + 3 * i))%nat by lia.
  exact H.
Qed.

Lemma encoder_args_length (ufs : list UniqueFrame) quality :
  length (encoder_args host ufs quality) = (10 + 3 * length ufs)%nat.
Proof.
  unfold encoder_args. rewrite !length_app. cbn [length].
  assert (H : forall (l : list UniqueFrame) (g : nat -> nat),
            length (concat (imap (fun k frame =>
               ["-d"; String_number host (duration frame);
                frame_file (g k)]) l)) = (3 * length l)%nat).
  { induction l as [|x l IH]; intros g; [reflexivity|].
    cbn [imap concat length app]. 
    specialize (IH (fun k => g (S k))). cbn in IH. unfold compose.
    rewrite IH. lia. }
  rewrite (H ufs (fun k => k)). lia.
Qed.

End AssemblerExact.



Lemma frame_file_not_output tempDir k :
  join tempDir (frame_file k) <> join tempDir "out.webp".
Proof.
  intros H. apply join_inj in H; [|apply frame_file_plain|reflexivity].
  unfold frame_file in H. discriminate H.
Qed.

Lemma with_frames_lookup_other tempDir (ufs : list UniqueFrame) p :
  (forall k, join tempDir (frame_file k) <> p) ->
  forall i fs, with_frames tempDir i ufs fs !! p = fs !! p.
Proof.
  intros H. induction ufs as [|f rest IH]; intros i fs; [reflexivity|].
  rewrite with_frames_cons, IH. apply lookup_insert_ne, H.
Qed.

(** X8.  With an encoder that writes just [out.webp] into its working
    directory the assembler returns the bytes it wrote.  With an encoder
    that ends without writing anything, and no such file there before, the
    assembler raises the error of the failed read. *)
Theorem assembler_returns_encoder_output (host : Host) (frames : list Buffer)
    (delay : number) (endDelay : option number) (quality : string)
    (w : World) :
  let tempDir := tempDir_of host (crypto_randomUUID host (clock w)) in
  (forall data,
     (forall n file argv cwd fs,
        process_execa host n file argv cwd fs
        = Return [(join cwd "out.webp", data)]) ->
     (createAnimatedWebP host frames delay endDelay quality w).1
     = Return data)
  /\ ((forall n file argv cwd fs,
         process_execa host n file argv cwd fs = Return []) ->
      files w !! join tempDir "out.webp" = None ->
      (createAnimatedWebP host frames delay endDelay quality w).1
      = Throw (ENOENT (join tempDir "out.webp"))).
Proof.
  intros tempDir.
  destruct (createAnimatedWebP_exact host frames delay endDelay quality w)
    as (failure & reads & _ & Hcase).
  fold tempDir in Hcase. split.
  - intros data Hexec. rewrite Hexec in Hcase.
    destruct Hcase as (_ & _ & ->).
    cbn [foldl fst snd]. rewrite lookup_insert_eq. reflexivity.
  - intros Hexec Hnone. rewrite Hexec in Hcase.
    destruct Hcase as (_ & _ & ->).
    cbn [foldl].
    rewrite with_frames_lookup_other, Hnone; [reflexivity|].
    intros k. apply frame_file_not_output.
Qed.

Lemma assembler_returns_encoder_output_witness :
  (createAnimatedWebP (fixture_host "linux" true) [[Byte.x00]] 100%Q
     (Some 4000%Q) "medium" empty_world).1 = Return [Byte.x52].
Proof.
  refine (proj1 (assembler_returns_encoder_output (fixture_host "linux" true)
                   [[Byte.x00]] 100%Q (Some 4000%Q) "medium" empty_world)
            [Byte.x52] _).
  reflexivity.
Defined.

Lemma lookup_filter_below (tempDir : string) (fs : gmap string Buffer) p :
  under tempDir p = true ->
  filter (fun kv : string * Buffer => under tempDir kv.1 = false) fs !! p
  = None.
Proof.
  intros Hp. apply map_lookup_filter_None. right. intros x _. cbn. congruence.
Qed.

Lemma lookup_filter_outside (tempDir : string) (fs : gmap string Buffer) p :
  under tempDir p = false ->
  filter (fun kv : string * Buffer => under tempDir kv.1 = false) fs !! p
  = fs !! p.
Proof.
  intros Hp. destruct (fs !! p) as [x|] eqn:E.
  - apply map_lookup_filter_Some. auto.
  - apply map_lookup_filter_None. left. exact E.
Qed.

(** What the encoder wrote below its working directory is gone with it. *)
Lemma filter_foldl_insert_under (tempDir : string)
    (written : list (string * Buffer)) :
  Forall (fun kv => under tempDir kv.1 = true) written ->
  forall fs : gmap string Buffer,
    filter (fun kv => under tempDir kv.1 = false)
           (foldl (fun fs kv => <[kv.1:=kv.2]> fs) fs written)
    = filter (fun kv => under tempDir kv.1 = false) fs.
Proof.
  induction 1 as [|kv rest Hkv Hrest IH]; intros fs; [reflexivity|].
  cbn [foldl]. rewrite IH. apply map_eq. intros p.
  destruct (under tempDir p) eqn:Hp.
  - rewrite !lookup_filter_below by exact Hp. reflexivity.
  - rewrite !lookup_filter_outside by exact Hp.
    apply lookup_insert_ne. intros E. rewrite E, Hp in Hkv. discriminate.
Qed.

Lemma filter_with_frames_under (tempDir : string) (ufs : list UniqueFrame) :
  forall i (fs : gmap string Buffer),
    filter (fun kv => under tempDir kv.1 = false)
           (with_frames tempDir i ufs fs)
    = filter (fun kv => under tempDir kv.1 = false) fs.
Proof.
  intros i fs. unfold with_frames. apply filter_foldl_insert_under.
  apply Forall_forall. intros kv Hkv.
  apply list_elem_of_lookup in Hkv as [k Hk].
  rewrite list_lookup_imap in Hk.
  destruct (ufs !! k); [|discriminate]. injection Hk as <-.
  apply under_join, frame_file_plain.
Qed.

(** X9.  With an encoder that writes only in or below its working
    directory, the files the assembler leaves are those that were there
    before, less what lay in or below its temporary directory; the
    directories are those that were there and those [mkdir] made on the way
    to the temporary directory, less the temporary directory and what lay
    below it.  When nothing lay there the files are as before, and so are
    the directories when those on the way were there already. *)
Theorem assembler_leaves_no_trace (host : Host) (frames : list Buffer)
    (delay : number) (endDelay : option number) (quality : string)
    (w : World) :
  let tempDir := tempDir_of host (crypto_randomUUID host (clock w)) in
  let out := createAnimatedWebP host frames delay endDelay quality w in
  encoder_confined host ->
  (files out.2 = filter (fun kv => under tempDir kv.1 = false) (files w)
   /\ dirs out.2 = filter (fun d => under tempDir d = false)
                          (made_by_mkdir tempDir ∪ dirs w))
  /\ (absent_below tempDir w ->
      files out.2 = files w
      /\ ((forall d, d ∈ made_by_mkdir tempDir ->
                     under tempDir d = false -> d ∈ dirs w) ->
          dirs out.2 = dirs w)).
Proof.
  intros tempDir out Hconf.
  assert (Hfiles : files out.2
                   = filter (fun kv => under tempDir kv.1 = false) (files w)).
  { subst out.
    destruct (createAnimatedWebP_run host frames delay endDelay quality w)
      as (w1 & w_last & r & Hrun & Hf1 & _ & _ & _ & Hcase).
    fold tempDir in Hrun, Hf1, Hcase. rewrite Hrun, rm_run. cbn [snd files].
    destruct (process_execa host (S (clock w)) (IMG2WEBP host) _ tempDir
                (files w1)) as [written|e] eqn:Ex.
    - destruct Hcase as (-> & _).
      rewrite (filter_foldl_insert_under tempDir written
                 (Hconf _ _ _ _ _ _ Ex)).
      rewrite Hf1. apply filter_with_frames_under.
    - destruct Hcase as (_ & -> & _).
      rewrite Hf1. apply filter_with_frames_under. }
  assert (Hdirs : dirs out.2
                  = filter (fun d => under tempDir d = false)
                           (made_by_mkdir tempDir ∪ dirs w))
    by apply createAnimatedWebP_dirs.
  split; [split; assumption|].
  intros Hw. rewrite Hfiles, Hdirs. split.
  - apply map_eq. intros p.
    destruct (files w !! p) as [x|] eqn:E.
    + apply map_lookup_filter_Some. split; [exact E|]. cbn.
      destruct (under tempDir p) eqn:Hp; [|reflexivity].
      rewrite (proj1 (Hw p Hp)) in E. discriminate.
    + apply map_lookup_filter_None. left. exact E.
  - intros Hway. apply set_eq. intros d.
    rewrite elem_of_filter, elem_of_union. split.
    + intros [Hd [Hin|Hin]]; [exact (Hway d Hin Hd)|exact Hin].
    + intros Hin. split; [|right; exact Hin].
      destruct (under tempDir d) eqn:Hd; [|reflexivity].
      destruct (proj2 (Hw d Hd) Hin).
Qed.

Lemma assembler_leaves_no_trace_witness :
  files (createAnimatedWebP (fixture_host "linux" true) [[Byte.x00]] 100%Q
           (Some 4000%Q) "medium" world_with_tmp).2 = files world_with_tmp
  /\ dirs (createAnimatedWebP (fixture_host "linux" true) [[Byte.x00]] 100%Q
             (Some 4000%Q) "medium" world_with_tmp).2 = dirs world_with_tmp.
Proof.
  pose proof (assembler_leaves_no_trace (fixture_host "linux" true)
                [[Byte.x00]] 100%Q (Some 4000%Q) "medium" world_with_tmp)
    as H. cbv zeta in H.
  destruct H as [_ H].
  { intros n file argv cwd fs written H. cbn in H. injection H as <-.
    constructor; [apply under_join; reflexivity|constructor]. }
  destruct H as [Hf Hd].
  - intros p Hp. split; [apply lookup_empty|].
    intros Hin. cbn [world_with_tmp dirs] in Hin.
    apply elem_of_singleton in Hin. subst p. discriminate Hp.
  - split; [exact Hf|]. apply Hd. intros d Hin Hout.
    apply elem_of_list_to_set in Hin.
    change (d ∈ ["/tmp"; "/tmp/webp-0000"]) in Hin.
    apply elem_of_cons in Hin as [->|Hin];
      [cbn [world_with_tmp dirs]; apply elem_of_singleton_2; reflexivity|].
    apply elem_of_cons in Hin as [->|Hin]; [discriminate Hout|].
    apply elem_of_nil in Hin. destruct Hin.
Defined.

(** ** Answers without a directory, and failures of the engine *)

Section InlineAnswers.

Variable host : Host.

Lemma inline_screenshot_run (args : Args) (w : World) :
  truthy_opt_string (directory args) = false ->
  exists w2,
    files w2 = files w /\ dirs w2 = dirs w
    /\ take_screenshot host args w =
       (match engine_captureScreenshot host (clock w)
                (screenshotOptions args) with
        | Return (RegularScreenshot shot vp) =>
            Return {| content :=
                        [png_image host shot;
                         TextContent (screenshot_captured_text host vp)] |}
        | Return (TiledScreenshot tiles fw fh ts) =>
            Return {| content :=
                        map (fun tile => png_image host (tile_screenshot tile))
                            tiles
                        ++ [TextContent
                              (tiles_captured_text host tiles fw fh ts)] |}
        | Throw e => Throw e
        end, w2).
Proof.
  intros Hd.
  destruct (loadScreenshotModule_fs w) as (w1 & Hl & Hf & Hdirs & Hc).
  unfold take_screenshot, try_catch. unfold bind at 1. rewrite Hl.
  unfold bind at 1. rewrite captureScreenshot_run, Hc.
  unfold materializeScreenshot. rewrite Hd.
  eexists {| files := files w1; dirs := dirs w1;
             screenshotModule := _; clock := _; trace := _ |}.
  split; [exact Hf|]. split; [exact Hdirs|].
  destruct (engine_captureScreenshot host (clock w) (screenshotOptions args))
    as [[shot vp|tiles fw fh ts]|e]; reflexivity.
Qed.

(** X10.  Without a directory [take_screenshot] leaves the file system as
    it is, and a successful answer is one png image per tile (one image for
    a screenshot that is not tiled) followed by exactly one text entry. *)
Theorem inline_screenshot (args : Args) (w : World) :
  truthy_opt_string (directory args) = false ->
  let out := take_screenshot host args w in
  files out.2 = files w /\ dirs out.2 = dirs w
  /\ forall r, out.1 = Return r ->
       exists images text,
         content r = images ++ [TextContent text]
         /\ Forall is_png_image images
         /\ match engine_captureScreenshot host (clock w)
                    (screenshotOptions args) with
            | Return (TiledScreenshot tiles _ _ _) =>
                length images = length tiles
            | Return (RegularScreenshot _ _) => length images = 1%nat
            | Throw _ => False
            end.
Proof.
  intros Hd out. subst out.
  destruct (inline_screenshot_run args w Hd) as (w2 & Hf & Hdirs & ->).
  cbn [fst snd]. split; [exact Hf|]. split; [exact Hdirs|].
  destruct (engine_captureScreenshot host (clock w) (screenshotOptions args))
    as [[shot vp|tiles fw fh ts]|e].
  - intros r [= <-]. eexists [_], _. split; [reflexivity|].
    split; [|reflexivity]. constructor; [eexists; reflexivity|constructor].
  - intros r [= <-]. eexists _, _. split; [reflexivity|].
    split; [|apply length_map].
    apply Forall_map, Forall_true. intros t. eexists. reflexivity.
  - discriminate.
Qed.

End InlineAnswers.

Lemma inline_screenshot_witness :
  files (take_screenshot (fixture_host "linux" true) (request None None)
           empty_world).2 = files empty_world.
Proof.
  refine (proj1 (inline_screenshot (fixture_host "linux" true)
                   (request None None) empty_world _)).
  reflexivity.
Defined.

Section EngineFailure.

Variable host : Host.

Lemma take_screencast_run_to_engine (args : Args) (w : World) :
  truthy_opt_string (format args)
  && negb (truthy_opt_string (directory args)) = false ->
  exists w2,
    files w2 = files w /\ dirs w2 = dirs w /\ clock w2 = S (clock w)
    /\ take_screencast host args w =
       match engine_captureScreencast host (clock w)
               (screencastOptions args) with
       | Return result => materializeScreencast host args result w2
       | Throw e => (Throw e, w2)
       end.
Proof.
  intros Hg.
  destruct (loadScreenshotModule_fs w) as (w1 & Hl & Hf & Hdirs & Hc).
  unfold take_screencast, try_catch. unfold bind at 1. rewrite Hl, Hg.
  unfold bind at 1. rewrite captureScreencast_run, Hc.
  eexists {| files := files w1; dirs := dirs w1;
             screenshotModule := _; clock := S (clock w); trace := _ |}.
  split; [exact Hf|]. split; [exact Hdirs|]. split; [reflexivity|].
  destruct (engine_captureScreencast host (clock w) (screencastOptions args))
    as [result|e]; [|reflexivity].
  match goal with |- context [materializeScreencast host args result ?W] =>
    destruct (materializeScreencast host args result W) as [[a|e] w3] end;
    reflexivity.
Qed.

Lemma take_screenshot_run_to_engine (args : Args) (w : World) :
  exists w2,
    files w2 = files w /\ dirs w2 = dirs w /\ clock w2 = S (clock w)
    /\ take_screenshot host args w =
       match engine_captureScreenshot host (clock w)
               (screenshotOptions args) with
       | Return result => materializeScreenshot host args result w2
       | Throw e => (Throw e, w2)
       end.
Proof.
  destruct (loadScreenshotModule_fs w) as (w1 & Hl & Hf & Hdirs & Hc).
  unfold take_screenshot, try_catch. unfold bind at 1. rewrite Hl.
  unfold bind at 1. rewrite captureScreenshot_run, Hc.
  eexists {| files := files w1; dirs := dirs w1;
             screenshotModule := _; clock := S (clock w); trace := _ |}.
  split; [exact Hf|]. split; [exact Hdirs|]. split; [reflexivity|].
  destruct (engine_captureScreenshot host (clock w) (screenshotOptions args))
    as [result|e]; [|reflexivity].
  match goal with |- context [materializeScreenshot host args result ?W] =>
    destruct (materializeScreenshot host args result W) as [[a|e] w3] end;
    reflexivity.
Qed.

(** X11.  Without a directory and without a format [take_screencast]
    samples every 2 seconds, leaves the file system as it is, and a
    successful answer is one png image per captured frame followed by
    exactly one text entry. *)
Theorem inline_screencast (args : Args) (w : World) :
  truthy_opt_string (directory args) = false ->
  truthy_opt_string (format args) = false ->
  let out := take_screencast host args w in
  cast_interval (screencastOptions args) = 2%Q
  /\ files out.2 = files w /\ dirs out.2 = dirs w
  /\ forall r, out.1 = Return r ->
       exists images text result,
         content r = images ++ [TextContent text]
         /\ Forall is_png_image images
         /\ engine_captureScreencast host (clock w) (screencastOptions args)
            = Return result
         /\ length images = length (frames result).
Proof.
  intros Hd Hf out. subst out.
  destruct (take_screencast_run_to_engine args w)
    as (w2 & Hfs & Hdirs & _ & ->); [rewrite Hf; reflexivity|].
  split.
  { unfold screencastOptions, interval_of, willPersistAsAnimation.
    cbn [cast_interval]. rewrite Hd. reflexivity. }
  destruct (engine_captureScreencast host (clock w) (screencastOptions args))
    as [result|e].
  - unfold materializeScreencast. rewrite Hd. cbn [ret fst snd].
    split; [exact Hfs|]. split; [exact Hdirs|].
    intros r [= <-]. eexists _, _, result. split; [reflexivity|].
    split; [|split; [reflexivity|apply length_map]].
    apply Forall_map, Forall_true. intros f. eexists. reflexivity.
  - cbn [fst snd]. split; [exact Hfs|]. split; [exact Hdirs|]. discriminate.
Qed.

(** X12.  When the engine fails, the handler raises the engine's error as
    it is and has not touched the file system, whatever the request: with a
    directory too, nothing is created. *)
Theorem engine_failure_is_passed_on (args : Args) (w : World) (e : Error) :
  (engine_captureScreenshot host (clock w) (screenshotOptions args) = Throw e ->
   (take_screenshot host args w).1 = Throw e
   /\ files (take_screenshot host args w).2 = files w
   /\ dirs (take_screenshot host args w).2 = dirs w)
  /\ (truthy_opt_string (format args)
      && negb (truthy_opt_string (directory args)) = false ->
      engine_captureScreencast host (clock w) (screencastOptions args)
      = Throw e ->
      (take_screencast host args w).1 = Throw e
      /\ files (take_screencast host args w).2 = files w
      /\ dirs (take_screencast host args w).2 = dirs w).
Proof.
  split.
  - intros He.
    destruct (take_screenshot_run_to_engine args w)
      as (w2 & Hfs & Hdirs & _ & ->).
    rewrite He. auto.
  - intros Hg He.
    destruct (take_screencast_run_to_engine args w Hg)
      as (w2 & Hfs & Hdirs & _ & ->).
    rewrite He. auto.
Qed.

End EngineFailure.

Lemma inline_screencast_witness :
  cast_interval (screencastOptions (request None None)) = 2%Q
  /\ files (take_screencast (fixture_host "linux" true) (request None None)
              empty_world).2 = files empty_world.
Proof.
  pose proof (inline_screencast (fixture_host "linux" true)
                (request None None) empty_world eq_refl eq_refl)
    as (H1 & H2 & _).
  split; assumption.
Defined.

Lemma engine_failure_is_passed_on_witness :
  (take_screencast broken_engine_host (request (Some "out") (Some "png"))
     empty_world).1 = Throw (ExternalError "net::ERR_NAME_NOT_RESOLVED")
  /\ dirs (take_screencast broken_engine_host
             (request (Some "out") (Some "png")) empty_world).2
     = dirs empty_world.
Proof.
  pose proof (proj2 (engine_failure_is_passed_on broken_engine_host
                       (request (Some "out") (Some "png")) empty_world
                       (ExternalError "net::ERR_NAME_NOT_RESOLVED"))
                eq_refl eq_refl) as (H1 & _ & H3).
  split; assumption.
Defined.

(** ** The end delay *)

(** What follows the assembler in [take_screencast] only adds effects. *)
Lemma emits_after_assembler (host : Host) (args : Args)
    (result : ScreencastResult) (dir : string) (interval : number)
    (quality : string) (webpBuffer : option Buffer) :
  emits (fun _ => True)
    (match webpBuffer with
     | Some webp =>
         let* png_name := generateFilename host (url args) None "screencast" in
         let filename := replace_first ".png" ".webp" png_name in
         let filepath := join dir filename in
         writeFile filepath webp ;;
         ret {| content :=
                  [TextContent (webp_saved_text host filepath result interval
                                  quality)] |}
     | None =>
         let* framePaths :=
           fallbackPngFrames host (url args) dir 0 (frames result) [] in
         ret {| content :=
                  [TextContent (fallback_text host framePaths result
                                  interval)] |}
     end).
Proof.
  destruct webpBuffer as [webp|].
  - eapply yields_emits.
    eapply yields_bind; [apply yields_generateFilename|].
    intros name _. apply emits_yields.
    apply emits_bind; [apply emits_writeFile; exact I|].
    intros _. apply emits_ret.
  - apply emits_bind; [|intros paths; apply emits_ret].
    apply emits_fallbackPngFrames. intros; exact I.
Qed.

Lemma tryCreateWebP_run (host : Host) (fs : list Buffer) (interval : number)
    (quality : string) (w : World) :
  let asm := createAnimatedWebP host fs (interval * 1000)%Q (Some 4000%Q)
               quality w in
  tryCreateWebP host fs interval quality w
  = (Return (match asm.1 with Return b => Some b | Throw _ => None end),
     asm.2).
Proof.
  cbv zeta. unfold tryCreateWebP, try_catch, bind.
  destruct (createAnimatedWebP host fs (interval * 1000)%Q (Some 4000%Q)
              quality w) as [[b|e] w']; reflexivity.
Qed.

Lemma end_delay_last (sha1_hex : Buffer -> string) (fs : list Buffer)
    (delay e : number) :
  fs <> [] -> truthy_number e = true ->
  exists f, last (uniqueFramesOf sha1_hex fs delay (Some e)) = Some f
            /\ duration f = e.
Proof.
  intros Hne He. unfold uniqueFramesOf, applyEndDelay. rewrite He.
  pose proof (dedup_nonempty sha1_hex delay fs Hne) as Hd.
  set (kept := dedup sha1_hex delay fs) in *.
  assert (Hlen : (0 <? length kept)%nat = true).
  { apply Nat.ltb_lt. destruct kept; [congruence | simpl; lia]. }
  rewrite Hlen. cbn [andb]. rewrite last_alter_last.
  destruct (last kept) as [f|] eqn:El.
  - exists (set_duration e f). split; reflexivity.
  - apply last_None in El. congruence.
Qed.

(** C2.  For every non-empty frame sequence and every end delay that is
    not zero, the last entry handed to the encoder lasts exactly the end
    delay, however many frames its run holds; every earlier entry stands
    for its run with the base delay added up once per frame of the run,
    which is the base delay times the number of those frames.  The one
    call of the assembler, in [take_screencast], passes the end delay 4000:
    whenever that handler saves an animation, the encoder is started with
    the entries made for 4000, the last of which lasts 4000. *)
Theorem end_delay_override (sha1_hex : Buffer -> string)
    (fs : list Buffer) (delay e : number) :
  fs <> [] -> truthy_number e = true ->
  let kept := uniqueFramesOf sha1_hex fs delay (Some e) in
  let rs := runs sha1_hex fs in
  (length kept = length rs
   /\ concat rs = fs
   /\ (exists f, last kept = Some f /\ duration f = e)
   /\ (forall i g, rs !! i = Some g -> S i < length rs ->
         exists f, kept !! i = Some f
                   /\ buf f = List.hd [] g
                   /\ duration f = accumulated delay (length g)
                   /\ (duration f == delay * inject_Z (Z.of_nat (length g)))%Q))
  /\ (forall (host : Host) (args : Args) (w : World)
             (result : ScreencastResult),
        truthy_opt_string (directory args) = true ->
        String.eqb (nullish (format args) "webp") "png" = false ->
        engine_captureScreencast host (clock w) (screencastOptions args)
        = Return result ->
        let handed :=
          uniqueFramesOf (digest_sha1_hex host)
            (map screenshot (frames result))
            (interval_of args * 1000)%Q (Some 4000%Q) in
        (exists before tempDir failure after,
           trace (take_screencast host args w).2
           = before
             ++ EvExeca (IMG2WEBP host)
                  (encoder_args host handed (nullish (quality args) "medium"))
                  tempDir failure
             :: after)
        /\ (frames result <> [] ->
            exists f, last handed = Some f /\ duration f = 4000%Q)).
Proof.
  intros Hne He. cbv zeta. split.
  - unfold uniqueFramesOf, applyEndDelay. rewrite He.
    pose proof (dedup_nonempty sha1_hex delay fs Hne) as Hd.
    rewrite (dedup_runs sha1_hex delay) in *.
    set (rs := runs sha1_hex fs) in *.
    assert (Hlen : (0 <? length (map (run_entry sha1_hex delay) rs))%nat
                   = true).
    { apply Nat.ltb_lt. destruct (map (run_entry sha1_hex delay) rs);
        [congruence | simpl; lia]. }
    rewrite Hlen. simpl andb. cbv iota.
    split; [rewrite length_alter, length_map; reflexivity|].
    split; [apply runs_concat|].
    split.
    + rewrite last_alter_last.
      destruct (last (map (run_entry sha1_hex delay) rs)) as [f|] eqn:El.
      * exists (set_duration e f). split; reflexivity.
      * apply last_None in El. congruence.
    + intros i g Hg Hi. exists (run_entry sha1_hex delay g).
      split; [|split; [reflexivity|split; [reflexivity|]]].
      * rewrite list_lookup_alter_ne by (rewrite length_map; lia).
        rewrite list_lookup_fmap, Hg. reflexivity.
      * apply accumulated_mult.
  - intros host args w result Hd Hfmt Heng. split;
      [|intros Hfr; apply end_delay_last; [|reflexivity];
        intros E; apply map_eq_nil in E; exact (Hfr E)].
    destruct (take_screencast_run_to_engine host args w)
      as (w2 & _ & _ & _ & Hrun0); [rewrite Hd; apply andb_false_r|].
    rewrite Heng in Hrun0. rewrite Hrun0.
    unfold materializeScreencast. rewrite Hd, Hfmt.
    unfold bind at 1.
    pose proof (ensureDirectory_returns (nullish (directory args) "") w2)
      as Hens.
    destruct (ensureDirectory (nullish (directory args) "") w2)
      as [[[]|e'] w3]; [|discriminate Hens].
    unfold bind at 1. rewrite tryCreateWebP_run.
    destruct (createAnimatedWebP_exact host
                (map screenshot (frames result))
                (interval_of args * 1000)%Q (Some 4000%Q)
                (nullish (quality args) "medium") w3)
      as (failure & reads & Ht & _).
    cbv zeta in Ht.
    set (tempDir := tempDir_of host (crypto_randomUUID host (clock w3))) in *.
    set (writes := frame_writes tempDir 0 _) in *.
    set (asm := createAnimatedWebP host (map screenshot (frames result))
                  (interval_of args * 1000)%Q (Some 4000%Q)
                  (nullish (quality args) "medium") w3) in *.
    destruct (emits_after_assembler host args result
                (nullish (directory args) "") (interval_of args)
                (nullish (quality args) "medium")
                (match asm.1 with Return b => Some b | Throw _ => None end)
                asm.2)
      as (evs & Hevs & _).
    exists (trace w3 ++ EvMkdir tempDir :: writes), tempDir, failure,
      (reads ++ EvRm tempDir :: evs).
    etransitivity; [exact Hevs|]. rewrite Ht.
    repeat (rewrite <- app_assoc || rewrite <- app_comm_cons).
    reflexivity.
Qed.

Lemma end_delay_override_witness :
  map (fun f => (buf f, duration f))
      (uniqueFramesOf toy_digest
         [[Byte.x00]; [Byte.x01; Byte.x02]; [Byte.x03; Byte.x04]]
         100%Q (Some 4000%Q))
  = [([Byte.x00], 100%Q); ([Byte.x01; Byte.x02], 4000%Q)]
  /\ exists f,
       last (uniqueFramesOf toy_digest
               [[Byte.x00]; [Byte.x01; Byte.x02]; [Byte.x03; Byte.x04]]
               100%Q (Some 4000%Q)) = Some f
       /\ duration f = 4000%Q.
Proof.
  split; [reflexivity|].
  refine (proj1 (proj2 (proj2 (proj1
    (end_delay_override toy_digest
       [[Byte.x00]; [Byte.x01; Byte.x02]; [Byte.x03; Byte.x04]]
       100%Q 4000%Q _ _))))).
  - discriminate.
  - reflexivity.
Defined.

(** An end delay of zero is none: [endDelay &&] is false for it and the
    last entry keeps its accumulated duration.  No call passes it. *)
Example end_delay_zero_not_applied :
  map (fun f => (buf f, duration f))
      (uniqueFramesOf toy_digest [[Byte.x00]; [Byte.x00]] 100%Q (Some 0%Q))
  = [([Byte.x00], (100 + 100)%Q)].
Proof. reflexivity. Qed.

(** ** Frames written one by one *)

Section FramesStored.

Variable host : Host.

(** In a directory that can be written into, no regular file has the
    name of the directory. *)
Lemma writable_not_file (w : World) (dir : string) :
  writable host w dir -> is_file w (locate dir) = false.
Proof.
  intros [Hclear _]. apply Hclear.
  destruct (locate dir) as [abs segs]. cbn [fst snd].
  apply (list_elem_of_fmap_2 (pair abs)), inits_self.
Qed.

Lemma is_file_same_files (w w' : World) (l : Location) :
  files w' = files w -> is_file w' l = is_file w l.
Proof. intros H. unfold is_file. rewrite H. reflexivity. Qed.

Lemma is_dir_same_dirs (w w' : World) (l : Location) :
  dirs w' = dirs w -> is_dir w' l = is_dir w l.
Proof. intros H. unfold is_dir. rewrite H. reflexivity. Qed.


End FramesStored.


(** ** Screenshots written to a directory *)

Section ScreenshotsStored.

Variable host : Host.

Lemma generated_tiles_differ dir i j name1 name2 :
  iso_timestamps host -> i <> j ->
  generated_png host "screenshot" (Some i) name1 ->
  generated_png host "screenshot" (Some j) name2 ->
  join dir name1 <> join dir name2.
Proof.
  intros Hiso Hij H1 H2 H.
  apply join_inj in H;
    [|exact (generated_png_plain host "screenshot" (Some i) name1 Hiso
               eq_refl H1)
     |exact (generated_png_plain host "screenshot" (Some j) name2 Hiso
               eq_refl H2)].
  destruct H1 as (h1 & n1 & ->), H2 as (h2 & n2 & ->).
  apply Hij. exact (filename_of_frame_index _ _ _ _ _ _ i j H).
Qed.

Lemma saveTiles_run u dir h (tiles : list Tile) :
  url_hostname host u = Some h ->
  iso_timestamps host ->
  forall i acc w,
    is_dir w (locate dir) = true ->
    exists paths w',
      saveTiles host u dir i tiles acc w = (Return (acc ++ paths), w')
      /\ length paths = length tiles
      /\ dirs w' = dirs w
      /\ (forall k t, tiles !! k = Some t ->
            exists name,
              paths !! k = Some (join dir name)
              /\ generated_png host "screenshot" (Some (i + k)) name
              /\ files w' !! join dir name = Some (tile_screenshot t))
      /\ (forall q,
            (forall name j, i <= j ->
                            generated_png host "screenshot" (Some j) name ->
                            q <> join dir name) ->
            files w' !! q = files w !! q).
Proof.
  intros Hu Hiso. induction tiles as [|t rest IH]; intros i acc w Hd.
  - exists [], w. cbn. rewrite app_nil_r.
    repeat split; auto. intros k f Hk. discriminate.
  - cbn [saveTiles]. unfold bind at 1.
    rewrite (generateFilename_run host u (Some i) "screenshot" w h Hu).
    set (name := filename_of "screenshot" (sanitize_hostname h)
                   (timestamp_at host (clock w)) (frame_suffix (Some i))).
    assert (Hname : generated_png host "screenshot" (Some i) name)
      by (exists h, (clock w); reflexivity).
    assert (Hplain : plain name = true)
      by exact (generated_png_plain host "screenshot" (Some i) name Hiso
                  eq_refl Hname).
    unfold bind at 1.
    rewrite (writeFile_run dir name (tile_screenshot t) (tick w).2 Hplain Hd).
    cbn [tick snd clock files dirs trace screenshotModule].
    match goal with |- context [saveTiles host u dir (S i) rest _ ?W] =>
      destruct (IH (S i) (acc ++ [join dir name]) W Hd)
        as (paths & w' & Hrun & Hlen & Hdirs & Hp & Hq) end.
    cbn [files dirs] in Hdirs, Hq.
    exists (join dir name :: paths), w'.
    rewrite Hrun, <- app_assoc. cbn [app length].
    split; [reflexivity|]. split; [rewrite Hlen; reflexivity|].
    split; [exact Hdirs|]. split.
    + intros [|k] t' Hk; cbn in Hk.
      * injection Hk as <-. exists name. rewrite Nat.add_0_r.
        split; [reflexivity|]. split; [exact Hname|].
        rewrite Hq; [apply lookup_insert_eq|].
        intros name' j Hj Hg. apply (generated_tiles_differ dir i j);
          [exact Hiso|lia|exact Hname|exact Hg].
      * destruct (Hp k t' Hk) as (nm & Hpk & Hg & Hfile). exists nm.
        replace (i + S k)%nat with (S i + k)%nat by lia. auto.
    + intros q Hcond. rewrite Hq.
      * apply lookup_insert_ne. intros E.
        exact (Hcond name i (le_n i) Hname (eq_sym E)).
      * intros name' j Hj. apply Hcond. lia.
Qed.



End ScreenshotsStored.



(** ** The animation written to a directory *)

Section AnimationStored.

Variable host : Host.

Lemma createAnimatedWebP_returns frames delay endDelay quality w data :
  (forall n file argv cwd fs,
     process_execa host n file argv cwd fs
     = Return [(join cwd "out.webp", data)]) ->
  (createAnimatedWebP host frames delay endDelay quality w).1 = Return data.
Proof.
  intros Hexec.
  destruct (createAnimatedWebP_exact host frames delay endDelay quality w)
    as (failure & reads & _ & Hcase).
  rewrite Hexec in Hcase. destruct Hcase as (_ & _ & Hr).
  cbn [foldl fst snd] in Hr. rewrite lookup_insert_eq in Hr. exact Hr.
Qed.


End AnimationStored.

